(** * saucenao: a shallow embedding of the SauceNAO API client

    The development follows [saucenao.go] (package [saucenao]) and its data
    file declaring [CommonData] and [DanbooruData].  Go strings are modelled
    as [string] (a sequence of 8-bit characters), byte slices and streams as
    [list byte], unsigned machine integers as [N] with the conversion's
    wrap-around written out, and Go's [(value, error)] results as an
    [outcome] that also records a [panic]. *)

From Stdlib Require Import List String Ascii NArith ZArith Bool Lia.
From Stdlib Require Import Strings.Byte.
From Stdlib Require Import DecimalString DecimalN DecimalPos.
From Stdlib Require Import Floats.SpecFloat.
From Stdlib Require Import Sorting.Permutation.
Import ListNotations.

Local Open Scope string_scope.
Local Open Scope N_scope.

(** ** Errors *)

(** Go error values that flow through the client.  [ErrorString] is what
    [errors.New] and [fmt.Errorf] without a [%w] verb build, [WrapError] is
    [fmt.Errorf] with one [%w] verb, [QuotaErr] is the value [QuotaError{}],
    [SyntaxError] and [UnmarshalTypeError] are the error types of
    [encoding/json] and [TagStringError] is the untyped error it builds for
    a misused [,string] option. *)
Inductive error : Type :=
| ErrorString (s : string)
| WrapError (msg : string) (inner : error)
| QuotaErr
| SyntaxError (msg : string)
| UnmarshalTypeError (value struct field type : string)
| TagStringError (item type : string).

(** The [Error()] method. *)
Definition errorMsg (e : error) : string :=
  match e with
  | ErrorString s => s
  | WrapError msg _ => msg
  | QuotaErr => "rate limited"
  | SyntaxError msg => msg
  | UnmarshalTypeError v st f ty =>
      match st, f with
      | EmptyString, EmptyString =>
          "json: cannot unmarshal " ++ v ++ " into Go value of type " ++ ty
      | _, _ =>
          "json: cannot unmarshal " ++ v ++ " into Go struct field "
          ++ st ++ "." ++ f ++ " of type " ++ ty
      end
  | TagStringError item ty =>
      "json: invalid use of ,string struct tag, trying to unmarshal "
      ++ item ++ " into " ++ ty
  end.

(** [fmt.Errorf(prefix + "%w", err)]. *)
Definition Errorf_w (prefix : string) (err : error) : error :=
  WrapError (prefix ++ errorMsg err) err.

(** [fmt.Errorf(prefix + "%s", err)] and [fmt.Errorf(prefix + "%v", s)]. *)
Definition Errorf_s (prefix : string) (err : error) : error :=
  ErrorString (prefix ++ errorMsg err).

(** [errors.Unwrap]. *)
Definition Unwrap (e : error) : option error :=
  match e with
  | WrapError _ inner => Some inner
  | _ => None
  end.

(** [errors.As(err, &QuotaError{})]: walks the [Unwrap] chain looking for a
    value of type [QuotaError]. *)
Fixpoint AsQuotaError (e : error) : bool :=
  match e with
  | QuotaErr => true
  | WrapError _ inner => AsQuotaError inner
  | _ => false
  end.

(** [errors.As] for the two error types of [encoding/json]. *)
Fixpoint AsJSONError (e : error) : bool :=
  match e with
  | SyntaxError _ | UnmarshalTypeError _ _ _ _ => true
  | WrapError _ inner => AsJSONError inner
  | _ => false
  end.

(** The result of a Go function returning [(T, error)]: a value with a nil
    error, a nil value with an error, or a panic. *)
Inductive outcome (A : Type) : Type :=
| Ok (a : A)
| Fail (e : error)
| Panic (msg : string).
Arguments Ok {A} a.
Arguments Fail {A} e.
Arguments Panic {A} msg.

(** ** Client and request *)

(** An [io.Reader] whose stream ends: the chunks its [Read] calls deliver
    and what ends them. *)
Record Reader : Type := mkReader {
  (* successive results of [Read] before the stream ends *)
  chunks : list (list byte);
  (* how the stream ends: [None] is [io.EOF], [Some e] a read error *)
  failure : option error
}.

(** [http.Request] as the client builds it: the method, the URL string
    handed to [http.NewRequestWithContext], the headers set afterwards and
    the body ([None] for a nil body). *)
Record Request : Type := mkRequest {
  Method : string;
  ReqURL : string;
  ReqHeader : list (string * string);
  ReqBody : option (list byte)
}.

(** The fields of [http.Response] that [Search] reads. *)
Record Response : Type := mkResponse {
  StatusCode : Z;
  RespStatus : string;
  Body : Reader
}.

(** [http.Client] seen from [Search]: [Do] maps a request to a response or
    an error and may change the state [S] of the transport behind it (the
    test suite's [spyTransport] records the request there). *)
Definition HTTPClient (S : Type) : Type :=
  Request -> S -> (Response + error) * S.

Record Client (S : Type) : Type := mkClient {
  C : HTTPClient S;
  Service : string;
  APIKey : string
}.
Arguments mkClient {S} C Service APIKey.
Arguments C {S} c.
Arguments Service {S} c.
Arguments APIKey {S} c.

(** [DBMask] is a [uint64], [NumRes] a [uint32]. *)
Record SearchRequest : Type := mkSearchRequest {
  URL : string;
  ImageBytes : option Reader;
  TestMode : bool;
  DBMask : N;
  DBMaskI : N;
  NumRes : N
}.

(** The values the Go types admit. *)
Definition wfSearchRequest (r : SearchRequest) : Prop :=
  DBMask r < 2 ^ 64 /\ DBMaskI r < 2 ^ 64 /\ NumRes r < 2 ^ 32.

(** [NewClient]; the zero [http.Client] of the Go code is the argument
    [zero]. *)
Definition NewClient {S} (zero : HTTPClient S) (apiKey : string) : Client S :=
  mkClient zero "https://saucenao.com" apiKey.

Definition Pixiv : N := 5.
Definition Danbooru : N := 9.
Definition Yandere : N := 12.
Definition Gelbooru : N := 25.
Definition Konachan : N := 26.

(** The conversion [uint64(x)]. *)
Definition uint64 (x : N) : N := x mod 2 ^ 64.

Definition PixivBit : N := uint64 (N.shiftl 1 Pixiv).
Definition DanbooruBit : N := uint64 (N.shiftl 1 Danbooru).
Definition YandereBit : N := uint64 (N.shiftl 1 Yandere).
Definition GelbooruBit : N := uint64 (N.shiftl 1 Gelbooru).
Definition KonachanBit : N := uint64 (N.shiftl 1 Konachan).

(** ** [strconv.FormatUint(x, 10)] and [url.QueryEscape] *)

Definition FormatUint (x : N) : string :=
  NilZero.string_of_uint (N.to_uint x).

Definition isAlnum (c : ascii) : bool :=
  let n := N_of_ascii c in
  ((48 <=? n) && (n <=? 57)) || ((65 <=? n) && (n <=? 90))
  || ((97 <=? n) && (n <=? 122)).

(** [shouldEscape(c, encodeQueryComponent)]: everything is escaped except
    the unreserved characters. *)
Definition shouldEscape (c : ascii) : bool :=
  if isAlnum c then false
  else match c with
       | "-"%char | "_"%char | "."%char | "~"%char => false
       | _ => true
       end.

Definition upperhex (n : N) : ascii :=
  if n <? 10 then ascii_of_N (48 + n) else ascii_of_N (55 + n).

Fixpoint QueryEscape (s : string) : string :=
  match s with
  | EmptyString => EmptyString
  | String c rest =>
      if shouldEscape c then
        if Ascii.eqb c " "%char then String "+"%char (QueryEscape rest)
        else
          let n := N_of_ascii c in
          String "%"%char
            (String (upperhex (N.shiftr n 4))
               (String (upperhex (N.land n 15)) (QueryEscape rest)))
      else String c (QueryEscape rest)
  end.

(** ** [searchURL] *)

Definition searchURL {S} (c : Client S) (r : SearchRequest) : string :=
  Service c
  ++ "/search.php?output_type=2&api_key="
  ++ APIKey c
  ++ "&numres="
  ++ FormatUint (uint64 (NumRes r))
  ++ (if TestMode r then "&testmode=1" else EmptyString)
  ++ (if negb (DBMask r =? 0)
      then "&dbmask=" ++ FormatUint (uint64 (DBMask r))
      else EmptyString)
  ++ (if negb (DBMaskI r =? 0)
      then "&dbmaski=" ++ FormatUint (uint64 (DBMaskI r))
      else EmptyString)
  ++ (if negb (String.eqb (URL r) EmptyString)
      then "&url=" ++ QueryEscape (URL r) else EmptyString).

(** ** The Go runtime around the client *)

(** What the surrounding runtime decides: whether [url.Parse], called by
    [http.NewRequestWithContext], accepts a URL string ([None]) or rejects
    it with an error, and the bytes [crypto/rand] hands to
    [multipart.NewWriter] for its boundary. *)
Record Runtime : Type := mkRuntime {
  parseURL : string -> option error;
  randomBytes : list byte
}.

(** [http.NewRequestWithContext(ctx, method, url, body)] for a valid method
    and a non-nil context. *)
Definition NewRequestWithContext (rt : Runtime) (method url : string)
    (body : option (list byte)) : outcome Request :=
  match parseURL rt url with
  | Some e => Fail e
  | None => Ok (mkRequest method url [] body)
  end.

(** [req.Header.Set(key, value)]. *)
Definition HeaderSet (req : Request) (key value : string) : Request :=
  mkRequest (Method req) (ReqURL req)
    ((key, value)
       :: filter (fun kv => negb (String.eqb (fst kv) key)) (ReqHeader req))
    (ReqBody req).

(** ** [mime/multipart.Writer] over a [bytes.Buffer] *)

Definition CRLF : string := String "013"%char (String "010"%char EmptyString).
Definition dquote : string := String "034"%char EmptyString.

Definition lowerhex (n : N) : ascii :=
  if n <? 10 then ascii_of_N (48 + n) else ascii_of_N (87 + n).

(** [fmt.Sprintf("%x", buf)]. *)
Fixpoint hexString (buf : list byte) : string :=
  match buf with
  | [] => EmptyString
  | b :: rest =>
      let n := Byte.to_N b in
      String (lowerhex (N.shiftr n 4))
        (String (lowerhex (N.land n 15)) (hexString rest))
  end.

(** [randomBoundary]: thirty random bytes in hexadecimal. *)
Definition randomBoundary (rt : Runtime) : string :=
  hexString (firstn 30 (randomBytes rt)).

Record Writer : Type := mkWriter {
  buf : list byte;
  boundary : string;
  lastpart : bool
}.

Definition NewWriter (rt : Runtime) : Writer :=
  mkWriter [] (randomBoundary rt) false.

Definition WriteString (w : Writer) (s : string) : Writer :=
  mkWriter (buf w ++ list_byte_of_string s) (boundary w) (lastpart w).

Definition Write (w : Writer) (p : list byte) : Writer :=
  mkWriter (buf w ++ p) (boundary w) (lastpart w).

(** [escapeQuotes]: backslash and double quote are backslash-escaped. *)
Fixpoint escapeQuotes (s : string) : string :=
  match s with
  | EmptyString => EmptyString
  | String c rest =>
      if Ascii.eqb c "\"%char || Ascii.eqb c "034"%char
      then String "\"%char (String c (escapeQuotes rest))
      else String c (escapeQuotes rest)
  end.

(** The MIME header [CreateFormFile] builds; [CreatePart] writes its keys
    in sorted order. *)
Definition formFileHeader (fieldname filename : string)
    : list (string * string) :=
  [ ("Content-Disposition",
     "form-data; name=" ++ dquote ++ escapeQuotes fieldname ++ dquote
     ++ "; filename=" ++ dquote ++ escapeQuotes filename ++ dquote);
    ("Content-Type", "application/octet-stream") ].

Fixpoint headerLines (h : list (string * string)) : string :=
  match h with
  | [] => EmptyString
  | (k, v) :: rest => k ++ ": " ++ v ++ CRLF ++ headerLines rest
  end.

(** [w.CreatePart(header)]. *)
Definition CreatePart (w : Writer) (h : list (string * string)) : Writer :=
  let w1 :=
    WriteString w
      ((if lastpart w then CRLF else EmptyString)
       ++ "--" ++ boundary w ++ CRLF) in
  let w2 := WriteString w1 (headerLines h ++ CRLF) in
  mkWriter (buf w2) (boundary w2) true.

Definition CreateFormFile (w : Writer) (fieldname filename : string)
    : Writer :=
  CreatePart w (formFileHeader fieldname filename).

(** [w.Close()]. *)
Definition Close (w : Writer) : Writer :=
  WriteString w
    ((if lastpart w then CRLF else EmptyString)
     ++ "--" ++ boundary w ++ "--" ++ CRLF).

(** [w.FormDataContentType()] for a boundary without special characters,
    which a hexadecimal boundary never has. *)
Definition FormDataContentType (w : Writer) : string :=
  "multipart/form-data; boundary=" ++ boundary w.

(** [io.Copy(part, src)]: every chunk read is written to the part; the
    copy ends with the stream, in an error unless the stream ended in
    [io.EOF]. *)
Definition Copy (w : Writer) (src : Reader) : Writer * option error :=
  (fold_left Write (chunks src) w, failure src).

(** [ioutil.ReadAll]. *)
Definition ReadAll (src : Reader) : outcome (list byte) :=
  match failure src with
  | None => Ok (List.concat (chunks src))
  | Some e => Fail e
  end.

(** ** [requestForSearch] *)

Definition requestForSearch {S} (rt : Runtime) (c : Client S)
    (r : SearchRequest) : outcome Request :=
  match ImageBytes r with
  | None =>
      match NewRequestWithContext rt "GET" (searchURL c r) None with
      | Ok req => Ok req
      | Fail err => Panic ("failed to create request: " ++ errorMsg err)
      | Panic m => Panic m
      end
  | Some image =>
      let w := NewWriter rt in
      let part := CreateFormFile w "file" "image" in
      match Copy part image with
      | (_, Some err) => Fail err
      | (w1, None) =>
          let w2 := Close w1 in
          match NewRequestWithContext rt "POST" (searchURL c r)
                  (Some (buf w2)) with
          | Ok req =>
              Ok (HeaderSet req "Content-Type" (FormDataContentType w2))
          | Fail err => Panic ("failed to create request: " ++ errorMsg err)
          | Panic m => Panic m
          end
      end
  end.

(** ** [mime/multipart.Reader]

    The reader the test suite's [checkRequestFile] runs over the request
    body, on a body that is wholly available: [NextPart] scans lines for
    the boundary, [ReadMIMEHeader] reads the part's header and the part's
    [Read] delivers the bytes up to the next boundary. *)

Fixpoint isPrefix (p l : list byte) : bool :=
  match p, l with
  | [], _ => true
  | _ :: _, [] => false
  | a :: p', b :: l' => Byte.eqb a b && isPrefix p' l'
  end.

Definition bytesEqual (a b : list byte) : bool :=
  isPrefix a b && (List.length a =? List.length b)%nat.

Definition isLWSP (b : byte) : bool := Byte.eqb b x20 || Byte.eqb b x09.

Fixpoint skipLWSPChar (l : list byte) : list byte :=
  match l with
  | b :: t => if isLWSP b then skipLWSPChar t else l
  | [] => []
  end.

(** [bufio.Reader.ReadSlice('\n')]: the line with its newline and what
    follows it; [None] when the data ends before a newline. *)
Fixpoint readLine (l : list byte) : option (list byte * list byte) :=
  match l with
  | [] => None
  | b :: t =>
      if Byte.eqb b x0a then Some ([b], t)
      else match readLine t with
           | Some (line, rest) => Some (b :: line, rest)
           | None => None
           end
  end.

(** The line separator the reader goes by, ["\r\n"] or, once the first
    boundary line ended in a bare ["\n"], that. *)
Inductive newline : Type := NlCRLF | NlLF.

Definition nlBytes (nl : newline) : list byte :=
  match nl with
  | NlCRLF => [x0d; x0a]
  | NlLF => [x0a]
  end.

Definition dashBoundary (b : string) : list byte :=
  list_byte_of_string ("--" ++ b).

Definition dashBoundaryDash (b : string) : list byte :=
  list_byte_of_string ("--" ++ b ++ "--").

Definition nlDashBoundary (nl : newline) (b : string) : list byte :=
  nlBytes nl ++ dashBoundary b.

(** [isFinalBoundary]. *)
Definition isFinalBoundary (b : string) (nl : newline) (line : list byte)
    : bool :=
  isPrefix (dashBoundaryDash b) line
  && (let rest :=
        skipLWSPChar (skipn (List.length (dashBoundaryDash b)) line) in
      match rest with
      | [] => true
      | _ => bytesEqual rest (nlBytes nl)
      end).

(** [isBoundaryDelimiterLine]; the second component is the line separator
    in force afterwards. *)
Definition isBoundaryDelimiterLine (b : string) (nl : newline)
    (partsRead : nat) (line : list byte) : bool * newline :=
  if isPrefix (dashBoundary b) line then
    let rest := skipLWSPChar (skipn (List.length (dashBoundary b)) line) in
    if (partsRead =? 0)%nat && bytesEqual rest [x0a]
    then (true, NlLF)
    else (bytesEqual rest (nlBytes nl), nl)
  else (false, nl).

(** [matchAfterPrefix] at a place where the prefix matched: the boundary
    stands there when the data ends or a blank, a line end or a dash
    follows. *)
Definition boundaryFollows (rest : list byte) : bool :=
  match rest with
  | [] => true
  | c :: _ =>
      Byte.eqb c x20 || Byte.eqb c x09 || Byte.eqb c x0d || Byte.eqb c x0a
      || Byte.eqb c x2d
  end.

Definition boundaryAt (d l : list byte) : bool :=
  isPrefix d l && boundaryFollows (skipn (List.length d) l).

(** [scanUntilBoundary] after the part's first byte: the body runs up to
    the first place where the line separator and the dashed boundary
    stand; [None] when the data ends without one. *)
Fixpoint scanBody (d l : list byte) : option (list byte * list byte) :=
  if boundaryAt d l then Some ([], l)
  else match l with
       | [] => None
       | x :: t =>
           match scanBody d t with
           | Some (body, rest) => Some (x :: body, rest)
           | None => None
           end
       end.

(** The part's content: at the very beginning of the body the dashed
    boundary alone ends the part. *)
Definition readPartBody (b : string) (nl : newline) (l : list byte)
    : option (list byte * list byte) :=
  if boundaryAt (dashBoundary b) l then Some ([], l)
  else scanBody (nlDashBoundary nl b) l.

(** *** The part header: [textproto.ReadMIMEHeader] *)

Definition isSpaceTab (c : ascii) : bool :=
  Ascii.eqb c " "%char || Ascii.eqb c "009"%char.

Fixpoint trimLeft (s : string) : string :=
  match s with
  | String c rest => if isSpaceTab c then trimLeft rest else s
  | EmptyString => EmptyString
  end.

Fixpoint revString (s acc : string) : string :=
  match s with
  | EmptyString => acc
  | String c rest => revString rest (String c acc)
  end.

Definition trimRight (s : string) : string :=
  revString (trimLeft (revString s EmptyString)) EmptyString.

Definition trim (s : string) : string := trimRight (trimLeft s).

(** [strings.Cut(s, sep)] for a one-character separator. *)
Fixpoint cut (sep : ascii) (s : string) : option (string * string) :=
  match s with
  | EmptyString => None
  | String c rest =>
      if Ascii.eqb c sep then Some (EmptyString, rest)
      else match cut sep rest with
           | Some (before, after) => Some (String c before, after)
           | None => None
           end
  end.

Definition lowerChar (c : ascii) : ascii :=
  let n := N_of_ascii c in
  if (65 <=? n) && (n <=? 90) then ascii_of_N (n + 32) else c.

Fixpoint toLower (s : string) : string :=
  match s with
  | EmptyString => EmptyString
  | String c rest => String (lowerChar c) (toLower rest)
  end.

(** A line without its line end. *)
Definition dropEOL (line : list byte) : string :=
  let s := revString (string_of_list_byte line) EmptyString in
  let s1 := match s with
            | String "010"%char t => t
            | _ => s
            end in
  let s2 := match s1 with
            | String "013"%char t => t
            | _ => s1
            end in
  revString s2 EmptyString.

(** [ReadMIMEHeader]: [Key: value] lines up to the empty line.  A header
    line folded over several lines is not taken apart here: the reading
    fails on it. *)
Fixpoint readMIMEHeader (fuel : nat) (l : list byte)
    (acc : list (string * string))
    : option (list (string * string) * list byte) :=
  match fuel with
  | O => None
  | Datatypes.S fuel' =>
      match readLine l with
      | None => None
      | Some (line, rest) =>
          let raw := dropEOL line in
          match raw with
          | EmptyString => Some (rev acc, rest)
          | String c _ =>
              if isSpaceTab c then None
              else match cut ":"%char (trim raw) with
                   | None => None
                   | Some (k, v) =>
                       readMIMEHeader fuel' rest ((k, trimLeft v) :: acc)
                   end
          end
      end
  end.

(** [Header.Get]: keys are compared in their canonical form, that is
    without regard to case. *)
Fixpoint headerGet (h : list (string * string)) (key : string) : string :=
  match h with
  | [] => EmptyString
  | (k, v) :: rest =>
      if String.eqb (toLower k) (toLower key) then v else headerGet rest key
  end.

(** *** [mime.ParseMediaType] on a [Content-Disposition] value *)

Definition isTSpecial (c : ascii) : bool :=
  match c with
  | "("%char | ")"%char | "<"%char | ">"%char | "@"%char | ","%char
  | ";"%char | ":"%char | "\"%char | "034"%char | "/"%char | "["%char
  | "]"%char | "?"%char | "="%char => true
  | _ => false
  end.

Definition isTokenChar (c : ascii) : bool :=
  let n := N_of_ascii c in
  (32 <? n) && (n <? 127) && negb (isTSpecial c).

Definition isSpace (c : ascii) : bool :=
  let n := N_of_ascii c in
  (n =? 32) || ((9 <=? n) && (n <=? 13)).

Fixpoint trimLeftSpace (s : string) : string :=
  match s with
  | String c rest => if isSpace c then trimLeftSpace rest else s
  | EmptyString => EmptyString
  end.

Fixpoint consumeToken (s : string) : string * string :=
  match s with
  | String c rest =>
      if isTokenChar c
      then let (tok, r) := consumeToken rest in (String c tok, r)
      else (EmptyString, s)
  | EmptyString => (EmptyString, EmptyString)
  end.

(** The inside of a quoted string, after its opening quote; [None] when
    the closing quote is missing. *)
Fixpoint consumeQuoted (s : string) : option (string * string) :=
  match s with
  | EmptyString => None
  | String c rest =>
      if Ascii.eqb c "034"%char then Some (EmptyString, rest)
      else if Ascii.eqb c "013"%char || Ascii.eqb c "010"%char then None
      else
        match rest with
        | String c2 rest2 =>
            if Ascii.eqb c "\"%char && isTSpecial c2 then
              match consumeQuoted rest2 with
              | Some (v, r) => Some (String c2 v, r)
              | None => None
              end
            else
              match consumeQuoted rest with
              | Some (v, r) => Some (String c v, r)
              | None => None
              end
        | EmptyString => None
        end
  end.

Definition consumeValue (s : string) : string * string :=
  match s with
  | String "034"%char rest =>
      match consumeQuoted rest with
      | Some vr => vr
      | None => (EmptyString, s)
      end
  | _ => consumeToken s
  end.

(** [consumeMediaParam]: [None] where the Go function returns an empty
    key. *)
Definition consumeMediaParam (v : string)
    : option (string * string * string) :=
  match trimLeftSpace v with
  | String ";"%char rest =>
      let (param, rest1) := consumeToken (trimLeftSpace rest) in
      match param with
      | EmptyString => None
      | _ =>
          match trimLeftSpace rest1 with
          | String "="%char rest2 =>
              let rest3 := trimLeftSpace rest2 in
              let (value, rest4) := consumeValue rest3 in
              if String.eqb value EmptyString && String.eqb rest4 rest3
              then None
              else Some (toLower param, value, rest4)
          | _ => None
          end
      end
  | _ => None
  end.

(** The parameters of a media type value from its first semicolon on.
    Parameter names continued with an asterisk are kept as they are. *)
Fixpoint mediaParams (fuel : nat) (v : string)
    : option (list (string * string)) :=
  match fuel with
  | O => None
  | Datatypes.S fuel' =>
      match trimLeftSpace v with
      | EmptyString => Some []
      | v1 =>
          match consumeMediaParam v1 with
          | None =>
              if String.eqb (trim (trimLeftSpace v1)) ";" then Some []
              else None
          | Some (key, value, rest) =>
              match mediaParams fuel' rest with
              | Some ps =>
                  if existsb (fun kv => String.eqb (fst kv) key) ps
                  then None
                  else Some ((key, value) :: ps)
              | None => None
              end
          end
      end
  end.

(** [s[n:]]. *)
Fixpoint dropChars (n : nat) (s : string) : string :=
  match n, s with
  | O, _ => s
  | Datatypes.S n', String _ rest => dropChars n' rest
  | Datatypes.S _, EmptyString => EmptyString
  end.

(** [ParseMediaType]: the lower-cased media type and its parameters. *)
Definition ParseMediaType (v : string)
    : option (string * list (string * string)) :=
  let base := match cut ";"%char v with
              | Some (before, _) => before
              | None => v
              end in
  let rest := dropChars (String.length base) v in
  match mediaParams (Datatypes.S (String.length v)) rest with
  | Some ps => Some (trim (toLower base), ps)
  | None => None
  end.

Fixpoint paramGet (ps : list (string * string)) (key : string) : string :=
  match ps with
  | [] => EmptyString
  | (k, v) :: rest => if String.eqb k key then v else paramGet rest key
  end.

(** A part as [NextPart] and [ioutil.ReadAll] deliver it. *)
Record Part : Type := mkPart {
  PartHeader : list (string * string);
  PartContent : list byte
}.

(** [p.FormName()]. *)
Definition FormName (p : Part) : string :=
  match ParseMediaType (headerGet (PartHeader p) "Content-Disposition") with
  | Some (disposition, ps) =>
      if String.eqb disposition "form-data" then paramGet ps "name"
      else EmptyString
  | None => EmptyString
  end.

(** [p.FileName()]. *)
Definition FileName (p : Part) : string :=
  match ParseMediaType (headerGet (PartHeader p) "Content-Disposition") with
  | Some (_, ps) => paramGet ps "filename"
  | None => EmptyString
  end.

(** *** [NextPart] and the reading of all parts *)

Inductive nextResult : Type :=
| NextPartOk (nl : newline) (header : list (string * string))
    (rest : list byte)
| NextEOF
| NextErr.

(** The loop of [nextPart]: [partsRead] and [expectNewPart] are the
    reader's fields of these names. *)
Fixpoint nextPart (fuel : nat) (b : string) (nl : newline)
    (partsRead : nat) (expectNewPart : bool) (l : list byte) : nextResult :=
  match fuel with
  | O => NextErr
  | Datatypes.S fuel' =>
      match readLine l with
      | None => if isFinalBoundary b nl l then NextEOF else NextErr
      | Some (line, rest) =>
          let (delim, nl') := isBoundaryDelimiterLine b nl partsRead line in
          if delim then
            match readMIMEHeader (Datatypes.S (List.length rest)) rest [] with
            | Some (h, rest') => NextPartOk nl' h rest'
            | None => NextErr
            end
          else if isFinalBoundary b nl line then NextEOF
          else if expectNewPart then NextErr
          else if (partsRead =? 0)%nat
               then nextPart fuel' b nl partsRead expectNewPart rest
          else if bytesEqual line (nlBytes nl)
               then nextPart fuel' b nl partsRead true rest
          else NextErr
      end
  end.

(** [NextPart] and [ioutil.ReadAll] on each part until [NextPart] reports
    [io.EOF]; [None] when either fails. *)
Fixpoint readParts (fuel : nat) (b : string) (nl : newline)
    (partsRead : nat) (l : list byte) : option (list Part) :=
  match fuel with
  | O => None
  | Datatypes.S fuel' =>
      match nextPart (Datatypes.S (List.length l)) b nl partsRead false l with
      | NextEOF => Some []
      | NextErr => None
      | NextPartOk nl' h rest =>
          match readPartBody b nl' rest with
          | None => None
          | Some (content, rest') =>
              match readParts fuel' b nl' (Datatypes.S partsRead) rest' with
              | Some ps => Some (mkPart h content :: ps)
              | None => None
              end
          end
      end
  end.

(** What [checkRequestFile] does with a request: the boundary is taken
    from the [Content-Type] header and the body is read part by part. *)
Definition requestParts (req : Request) : option (list Part) :=
  match ParseMediaType (headerGet (ReqHeader req) "Content-Type") with
  | Some (media, ps) =>
      if String.eqb media "multipart/form-data" then
        match paramGet ps "boundary", ReqBody req with
        | EmptyString, _ => None
        | _, None => None
        | b, Some body =>
            readParts (Datatypes.S (List.length body)) b NlCRLF 0 body
        end
      else None
  | None => None
  end.

(** ** [encoding/json]: syntax

    A JSON text is scanned into a tree.  A number keeps its literal, as
    the decoder hands it to [strconv]; an object keeps its members in the
    order of the text, duplicates included, each with the bytes of its
    value, which is what a [json.RawMessage] field receives. *)

#[warnings="-register-all"]
Inductive json : Type :=
| JNull
| JBool (b : bool)
| JNumber (lit : string)
| JString (s : string)
| JArray (elems : list json)
| JObject (members : list (string * (list byte * json))).

Definition errUnexpectedEnd : error :=
  SyntaxError "unexpected end of JSON input".

(** The scanner's complaint about a byte; a byte that is not printable is
    shown as it is. *)
Definition errInvalidChar (c : byte) (context : string) : error :=
  SyntaxError
    ("invalid character '" ++ String (ascii_of_byte c) EmptyString ++ "' "
     ++ context).

Definition isJSONSpace (c : byte) : bool :=
  Byte.eqb c x20 || Byte.eqb c x09 || Byte.eqb c x0d || Byte.eqb c x0a.

Fixpoint skipSpace (l : list byte) : list byte :=
  match l with
  | c :: t => if isJSONSpace c then skipSpace t else l
  | [] => []
  end.

Definition isDigit (c : byte) : bool :=
  let n := Byte.to_N c in (48 <=? n) && (n <=? 57).

Definition hexValue (c : byte) : option N :=
  let n := Byte.to_N c in
  if (48 <=? n) && (n <=? 57) then Some (n - 48)
  else if (97 <=? n) && (n <=? 102) then Some (n - 87)
  else if (65 <=? n) && (n <=? 70) then Some (n - 55)
  else None.

(** [utf8.EncodeRune]. *)
Definition encodeRune (r : N) : string :=
  let ch (n : N) := ascii_of_N n in
  if r <? 128 then String (ch r) EmptyString
  else if r <? 2048 then
    String (ch (192 + N.shiftr r 6))
      (String (ch (128 + N.land r 63)) EmptyString)
  else if r <? 65536 then
    String (ch (224 + N.shiftr r 12))
      (String (ch (128 + N.land (N.shiftr r 6) 63))
         (String (ch (128 + N.land r 63)) EmptyString))
  else
    String (ch (240 + N.shiftr r 18))
      (String (ch (128 + N.land (N.shiftr r 12) 63))
         (String (ch (128 + N.land (N.shiftr r 6) 63))
            (String (ch (128 + N.land r 63)) EmptyString))).

Definition replacementChar : N := 65533.

Definition isSurrogate (r : N) : bool := (55296 <=? r) && (r <? 57344).

(** [utf16.DecodeRune]. *)
Definition decodeSurrogates (r1 r2 : N) : N :=
  if (55296 <=? r1) && (r1 <? 56320) && (56320 <=? r2) && (r2 <? 57344)
  then N.shiftl (r1 - 55296) 10 + (r2 - 56320) + 65536
  else replacementChar.

(** Hexadecimal digits after a backslash and [u], four of them for
    [getu4]. *)
Fixpoint hexDigits (n : nat) (acc : N) (l : list byte)
    : (N * list byte) + error :=
  match n with
  | O => inl (acc, l)
  | Datatypes.S n' =>
      match l with
      | [] => inr errUnexpectedEnd
      | c :: t =>
          match hexValue c with
          | Some v => hexDigits n' (16 * acc + v) t
          | None =>
              inr (errInvalidChar c "in \u hexadecimal character escape")
          end
      end
  end.

Definition getu4 (l : list byte) : (N * list byte) + error :=
  hexDigits 4 0 l.

(** A low surrogate escape directly ahead, if there is one. *)
Definition peekU4 (l : list byte) : option (N * list byte) :=
  match l with
  | b1 :: b2 :: rest =>
      if Byte.eqb b1 x5c && Byte.eqb b2 x75 then
        match getu4 rest with
        | inl res => Some res
        | inr _ => None
        end
      else None
  | _ => None
  end.

(** The inside of a string literal after its opening quote: the scanner's
    checks and [unquote] in one pass.  Bytes above the ASCII range are
    kept as they are, which is what [unquote] does on well-formed UTF-8. *)
Fixpoint scanString (fuel : nat) (l : list byte)
    : (string * list byte) + error :=
  match fuel with
  | O => inr errUnexpectedEnd
  | Datatypes.S fuel' =>
      match l with
      | [] => inr errUnexpectedEnd
      | c :: t =>
          if Byte.eqb c x22 then inl (EmptyString, t)
          else if Byte.to_N c <? 32 then
            inr (errInvalidChar c "in string literal")
          else if Byte.eqb c x5c then
            match t with
            | [] => inr errUnexpectedEnd
            | e :: t' =>
                let simple (ch : ascii) :=
                  match scanString fuel' t' with
                  | inl (s, rest) => inl (String ch s, rest)
                  | inr err => inr err
                  end in
                match ascii_of_byte e with
                | "034"%char => simple "034"%char
                | "\"%char => simple "\"%char
                | "/"%char => simple "/"%char
                | "b"%char => simple "008"%char
                | "f"%char => simple "012"%char
                | "n"%char => simple "010"%char
                | "r"%char => simple "013"%char
                | "t"%char => simple "009"%char
                | "u"%char =>
                    match getu4 t' with
                    | inr err => inr err
                    | inl (r1, rest1) =>
                        let (rr, rest2) :=
                          if isSurrogate r1 then
                            match peekU4 rest1 with
                            | Some (r2, rest2) =>
                                if decodeSurrogates r1 r2
                                   =? replacementChar
                                then (replacementChar, rest1)
                                else (decodeSurrogates r1 r2, rest2)
                            | None => (replacementChar, rest1)
                            end
                          else (r1, rest1) in
                        match scanString fuel' rest2 with
                        | inl (s, rest) => inl (encodeRune rr ++ s, rest)
                        | inr err => inr err
                        end
                    end
                | _ => inr (errInvalidChar e "in string escape code")
                end
            end
          else
            match scanString fuel' t with
            | inl (s, rest) => inl (String (ascii_of_byte c) s, rest)
            | inr err => inr err
            end
      end
  end.

Fixpoint takeDigits (l : list byte) : string * list byte :=
  match l with
  | c :: t =>
      if isDigit c
      then let (ds, rest) := takeDigits t in
           (String (ascii_of_byte c) ds, rest)
      else (EmptyString, l)
  | [] => (EmptyString, [])
  end.

(** The scanner's states for a number, from [stateNeg] to [stateE0]: the
    literal and what follows it. *)
Definition scanNumber (l : list byte) : (string * list byte) + error :=
  let (sign, l1) :=
    match l with
    | c :: t => if Byte.eqb c x2d then ("-", t) else (EmptyString, l)
    | [] => (EmptyString, l)
    end in
  match l1 with
  | [] => inr errUnexpectedEnd
  | c :: t =>
      if negb (isDigit c) then inr (errInvalidChar c "in numeric literal")
      else
        let (int, l2) :=
          if Byte.eqb c x30 then ("0", t) else takeDigits l1 in
        let frac :=
          match l2 with
          | d :: t2 =>
              if Byte.eqb d x2e then
                match t2 with
                | [] => inr errUnexpectedEnd
                | e :: _ =>
                    if isDigit e
                    then let (ds, l3) := takeDigits t2 in inl ("." ++ ds, l3)
                    else inr (errInvalidChar e
                                "after decimal point in numeric literal")
                end
              else inl (EmptyString, l2)
          | [] => inl (EmptyString, l2)
          end in
        match frac with
        | inr err => inr err
        | inl (fr, l3) =>
            match l3 with
            | e :: t3 =>
                if Byte.eqb e x65 || Byte.eqb e x45 then
                  let (esign, l4) :=
                    match t3 with
                    | s :: t4 =>
                        if Byte.eqb s x2b || Byte.eqb s x2d
                        then (String (ascii_of_byte s) EmptyString, t4)
                        else (EmptyString, t3)
                    | [] => (EmptyString, t3)
                    end in
                  match l4 with
                  | [] => inr errUnexpectedEnd
                  | d :: _ =>
                      if isDigit d then
                        let (ds, l5) := takeDigits l4 in
                        inl (sign ++ int ++ fr
                             ++ String (ascii_of_byte e) esign ++ ds, l5)
                      else inr (errInvalidChar d
                                  "in exponent of numeric literal")
                  end
                else inl (sign ++ int ++ fr, l3)
            | [] => inl (sign ++ int ++ fr, l3)
            end
        end
  end.

(** The rest of [true], [false] or [null] after its first letter. *)
Fixpoint scanLiteral (word expect : string) (l : list byte)
    : list byte + error :=
  match expect with
  | EmptyString => inl l
  | String e expect' =>
      match l with
      | [] => inr errUnexpectedEnd
      | c :: t =>
          if Ascii.eqb (ascii_of_byte c) e then scanLiteral word expect' t
          else inr (errInvalidChar c
                      ("in literal " ++ word ++ " (expecting '"
                       ++ String e EmptyString ++ "')"))
      end
  end.

(** A value, the elements of an array after its bracket, the members of
    an object after its brace. *)
Fixpoint parseValue (fuel : nat) (l : list byte) {struct fuel}
    : (json * list byte) + error :=
  match fuel with
  | O => inr errUnexpectedEnd
  | Datatypes.S fuel' =>
      match skipSpace l with
      | [] => inr errUnexpectedEnd
      | c :: t =>
          let lit (word expect : string) (v : json) :=
            match scanLiteral word expect t with
            | inl rest => inl (v, rest)
            | inr err => inr err
            end in
          match ascii_of_byte c with
          | "{"%char =>
              match skipSpace t with
              | [] => inr errUnexpectedEnd
              | c2 :: t2 =>
                  if Byte.eqb c2 x7d then inl (JObject [], t2)
                  else match parseMembers fuel' (c2 :: t2) with
                       | inl (ms, rest) => inl (JObject ms, rest)
                       | inr err => inr err
                       end
              end
          | "["%char =>
              match skipSpace t with
              | [] => inr errUnexpectedEnd
              | c2 :: t2 =>
                  if Byte.eqb c2 x5d then inl (JArray [], t2)
                  else match parseElements fuel' (c2 :: t2) with
                       | inl (vs, rest) => inl (JArray vs, rest)
                       | inr err => inr err
                       end
              end
          | "034"%char =>
              match scanString (Datatypes.S (List.length t)) t with
              | inl (s, rest) => inl (JString s, rest)
              | inr err => inr err
              end
          | "t"%char => lit "true" "rue" (JBool true)
          | "f"%char => lit "false" "alse" (JBool false)
          | "n"%char => lit "null" "ull" JNull
          | _ =>
              if Byte.eqb c x2d || isDigit c then
                match scanNumber (c :: t) with
                | inl (s, rest) => inl (JNumber s, rest)
                | inr err => inr err
                end
              else inr (errInvalidChar c "looking for beginning of value")
          end
      end
  end
with parseElements (fuel : nat) (l : list byte) {struct fuel}
    : (list json * list byte) + error :=
  match fuel with
  | O => inr errUnexpectedEnd
  | Datatypes.S fuel' =>
      match parseValue fuel' l with
      | inr err => inr err
      | inl (v, rest) =>
          match skipSpace rest with
          | [] => inr errUnexpectedEnd
          | c :: t =>
              if Byte.eqb c x2c then
                match parseElements fuel' t with
                | inl (vs, rest') => inl (v :: vs, rest')
                | inr err => inr err
                end
              else if Byte.eqb c x5d then inl ([v], t)
              else inr (errInvalidChar c "after array element")
          end
      end
  end
with parseMembers (fuel : nat) (l : list byte) {struct fuel}
    : (list (string * (list byte * json)) * list byte) + error :=
  match fuel with
  | O => inr errUnexpectedEnd
  | Datatypes.S fuel' =>
      match skipSpace l with
      | [] => inr errUnexpectedEnd
      | q :: t =>
          if negb (Byte.eqb q x22) then
            inr (errInvalidChar q "looking for beginning of object key string")
          else
            match scanString (Datatypes.S (List.length t)) t with
            | inr err => inr err
            | inl (key, rest) =>
                match skipSpace rest with
                | [] => inr errUnexpectedEnd
                | c :: t2 =>
                    if negb (Byte.eqb c x3a) then
                      inr (errInvalidChar c "after object key")
                    else
                      let start := skipSpace t2 in
                      match parseValue fuel' start with
                      | inr err => inr err
                      | inl (v, rest2) =>
                          let raw :=
                            firstn (List.length start - List.length rest2)
                              start in
                          match skipSpace rest2 with
                          | [] => inr errUnexpectedEnd
                          | c3 :: t3 =>
                              if Byte.eqb c3 x2c then
                                match parseMembers fuel' t3 with
                                | inl (ms, rest3) =>
                                    inl ((key, (raw, v)) :: ms, rest3)
                                | inr err => inr err
                                end
                              else if Byte.eqb c3 x7d then
                                inl ([(key, (raw, v))], t3)
                              else
                                inr (errInvalidChar c3
                                       "after object key:value pair")
                          end
                      end
                end
            end
      end
  end.

(** [checkValid] and the scan of the whole text: one value and nothing
    but white space after it.  The limit on the depth of nesting that
    later versions of the scanner have is left out. *)
Definition parseJSON (data : list byte) : json + error :=
  match parseValue (Datatypes.S (List.length data)) data with
  | inr err => inr err
  | inl (v, rest) =>
      match skipSpace rest with
      | [] => inl v
      | c :: _ => inr (errInvalidChar c "after top-level value")
      end
  end.

(** ** [strconv]: [ParseInt] and [ParseFloat] *)

Fixpoint digitsValue (base : N) (s : string) (acc : N) : option N :=
  match s with
  | EmptyString => Some acc
  | String c rest =>
      match hexValue (byte_of_ascii c) with
      | Some v =>
          if v <? base then digitsValue base rest (base * acc + v) else None
      | None => None
      end
  end.

(** [strconv.ParseInt(s, 10, 64)]; [None] stands for either error, of
    syntax or of range.  An [int] has 64 bits, as on the platforms Go
    commonly runs on, so that a parsed value always fits it. *)
Definition ParseInt (s : string) : option Z :=
  let (neg, ds) :=
    match s with
    | String "+"%char rest => (false, rest)
    | String "-"%char rest => (true, rest)
    | _ => (false, s)
    end in
  match ds with
  | EmptyString => None
  | _ =>
      match digitsValue 10 ds 0 with
      | None => None
      | Some un =>
          if neg then
            if un <=? 2 ^ 63 then Some (- Z.of_N un)%Z else None
          else
            if un <? 2 ^ 63 then Some (Z.of_N un) else None
      end
  end.

(** A [float64] is a binary64 number of IEEE 754. *)
Definition float64 : Type := SpecFloat.spec_float.

Definition prec64 : Z := 53.
Definition emax64 : Z := 1024.

(** The binary64 number nearest to [m * 2 ^ e], ties to even. *)
Definition roundBinary (neg : bool) (m : N) (e : Z) : float64 :=
  match m with
  | N0 => SpecFloat.S754_zero neg
  | Npos p => SpecFloat.binary_round prec64 emax64 neg p e
  end.

(** The binary64 number nearest to [m * 10 ^ e], ties to even. *)
Definition roundDecimal (neg : bool) (m : N) (e : Z) : float64 :=
  match m with
  | N0 => SpecFloat.S754_zero neg
  | Npos p =>
      match e with
      | Zneg k =>
          let '(q, e', loc) :=
            SpecFloat.SFdiv_core_binary prec64 emax64
              (Zpos p) 0 (Zpos (10 ^ k)) 0 in
          SpecFloat.binary_round_aux prec64 emax64 neg q e' loc
      | _ =>
          match (Zpos p * 10 ^ e)%Z with
          | Zpos p' => SpecFloat.binary_round prec64 emax64 neg p' 0
          | _ => SpecFloat.S754_zero neg
          end
      end
  end.

(** The digits of a mantissa with their underscores and at most one
    point: the digits' value, how many of them follow the point and
    whether any digit was seen; then what is left. *)
Fixpoint readMantissa (base : N) (s : string) (acc : N) (sawdot : bool)
    (frac : N) (sawdigits : bool) : option (N * N * bool * string) :=
  match s with
  | EmptyString => Some (acc, frac, sawdigits, s)
  | String c rest =>
      if Ascii.eqb c "_"%char
      then readMantissa base rest acc sawdot frac sawdigits
      else if Ascii.eqb c "."%char then
        if sawdot then Some (acc, frac, sawdigits, s)
        else readMantissa base rest acc true frac sawdigits
      else
        match hexValue (byte_of_ascii c) with
        | Some v =>
            if v <? base then
              readMantissa base rest (base * acc + v) sawdot
                (if sawdot then frac + 1 else frac) true
            else Some (acc, frac, sawdigits, s)
        | None => Some (acc, frac, sawdigits, s)
        end
  end.

(** The digits of an exponent with their underscores. *)
Fixpoint readExponent (s : string) (acc : N) : N * string :=
  match s with
  | EmptyString => (acc, s)
  | String c rest =>
      if Ascii.eqb c "_"%char then readExponent rest acc
      else if isDigit (byte_of_ascii c)
      then readExponent rest (10 * acc + (N_of_ascii c - 48))
      else (acc, s)
  end.

(** [underscoreOK]: an underscore stands between two digits, or between
    a base prefix and a digit. *)
Fixpoint underscoreScan (hex : bool) (s : string) (saw : ascii) : bool :=
  match s with
  | EmptyString => negb (Ascii.eqb saw "_"%char)
  | String c rest =>
      let isdig :=
        isDigit (byte_of_ascii c)
        || (hex && match hexValue (byte_of_ascii c) with
                   | Some _ => true
                   | None => false
                   end) in
      if isdig then underscoreScan hex rest "0"%char
      else if Ascii.eqb c "_"%char then
        if Ascii.eqb saw "0"%char then underscoreScan hex rest "_"%char
        else false
      else if Ascii.eqb saw "_"%char then false
      else underscoreScan hex rest "!"%char
  end.

Definition underscoreOK (s : string) : bool :=
  let s1 := match s with
            | String "+"%char rest => rest
            | String "-"%char rest => rest
            | _ => s
            end in
  match s1 with
  | String "0"%char (String p rest) =>
      let lp := lowerChar p in
      if Ascii.eqb lp "b"%char || Ascii.eqb lp "o"%char
         || Ascii.eqb lp "x"%char
      then underscoreScan (Ascii.eqb lp "x"%char) rest "0"%char
      else underscoreScan false s1 "^"%char
  | _ => underscoreScan false s1 "^"%char
  end.

Definition hasUnderscore (s : string) : bool :=
  match index 0 "_" s with
  | Some _ => true
  | None => false
  end.

(** [special]: the names of the infinities and of NaN, whatever their
    case; an infinity may carry a sign. *)
Definition specialFloat (s : string) : option float64 :=
  let ls := toLower s in
  let inf (neg : bool) (name : string) :=
    if String.eqb name "inf" || String.eqb name "infinity"
    then Some (SpecFloat.S754_infinity neg) else None in
  match ls with
  | String "+"%char rest => inf false rest
  | String "-"%char rest => inf true rest
  | _ => if String.eqb ls "nan" then Some SpecFloat.S754_nan
         else inf false ls
  end.

(** [strconv.ParseFloat(s, 64)]; [None] stands for either error, of
    syntax or of range.  The exponent is read in full, where [readFloat]
    stops counting beyond five digits. *)
Definition ParseFloat (s : string) : option float64 :=
  match specialFloat s with
  | Some f => Some f
  | None =>
      let (neg, s1) :=
        match s with
        | String "+"%char rest => (false, rest)
        | String "-"%char rest => (true, rest)
        | _ => (false, s)
        end in
      let (hex, s2) :=
        match s1 with
        | String "0"%char (String x (String c rest)) =>
            if Ascii.eqb (lowerChar x) "x"%char
            then (true, String c rest) else (false, s1)
        | _ => (false, s1)
        end in
      match readMantissa (if hex then 16 else 10) s2 0 false 0 false with
      | None => None
      | Some (mant, frac, sawdigits, s3) =>
          if negb sawdigits then None
          else
            let expo :=
              match s3 with
              | String e rest =>
                  if Ascii.eqb (lowerChar e) (if hex then "p" else "e")%char
                  then
                    let (eneg, s4) :=
                      match rest with
                      | String "+"%char r => (false, r)
                      | String "-"%char r => (true, r)
                      | _ => (false, rest)
                      end in
                    match s4 with
                    | String d _ =>
                        if isDigit (byte_of_ascii d) then
                          let (ev, s5) := readExponent s4 0 in
                          Some (if eneg then (- Z.of_N ev)%Z
                                else Z.of_N ev, s5)
                        else None
                    | EmptyString => None
                    end
                  else if hex then None else Some (0%Z, s3)
              | EmptyString => if hex then None else Some (0%Z, s3)
              end in
            match expo with
            | Some (ev, EmptyString) =>
                if hasUnderscore s && negb (underscoreOK s) then None
                else
                  let f :=
                    if hex
                    then roundBinary neg mant (ev - 4 * Z.of_N frac)
                    else roundDecimal neg mant (ev - Z.of_N frac) in
                  match f with
                  | SpecFloat.S754_infinity _ => None
                  | _ => Some f
                  end
            | _ => None
            end
      end
  end.

(** ** The response types *)

Record SearchHeader : Type := mkSearchHeader {
  Status : Z;
  ResultsRequested : Z;
  ResultsReturned : Z;
  ShortRemaining : Z;
  LongRemaining : Z;
  ShortLimit : Z;
  LongLimit : Z;
  MinimumSimilarity : float64
}.

Record SearchResultHeader : Type := mkSearchResultHeader {
  IndexName : string;
  IndexID : Z;
  Thumbnail : string;
  Similarity : float64
}.

(** [Data] is a [json.RawMessage]. *)
Record SearchResult : Type := mkSearchResult {
  ResultHeader : SearchResultHeader;
  Data : list byte
}.

Record SearchResponse : Type := mkSearchResponse {
  Header : SearchHeader;
  Results : list SearchResult
}.

Record CommonData : Type := mkCommonData {
  ExtURLs : list string
}.

(** [Common] is the embedded [CommonData]. *)
Record DanbooruData : Type := mkDanbooruData {
  Common : CommonData;
  DanbooruID : Z;
  Source : string;
  Characters : string;
  Material : string;
  Creator : string
}.

Definition zeroFloat : float64 := S754_zero false.

Definition zeroSearchHeader : SearchHeader :=
  mkSearchHeader 0 0 0 0 0 0 0 zeroFloat.
Definition zeroSearchResultHeader : SearchResultHeader :=
  mkSearchResultHeader EmptyString 0 EmptyString zeroFloat.
Definition zeroSearchResult : SearchResult :=
  mkSearchResult zeroSearchResultHeader [].
Definition zeroSearchResponse : SearchResponse :=
  mkSearchResponse zeroSearchHeader [].
Definition zeroDanbooruData : DanbooruData :=
  mkDanbooruData (mkCommonData []) 0 EmptyString EmptyString EmptyString
    EmptyString.

(** ** [encoding/json]: decoding into the response types *)

(** A decoding step works on the value under construction and on the
    decoder's [savedError]; it ends with both, or with an error that stops
    the decoding at once. *)
Definition dec (T : Type) : Type :=
  T -> option error -> (T * option error) + error.

(** [d.saveError]: the first error is the one kept. *)
Definition saveError (e : error) (saved : option error) : option error :=
  match saved with
  | None => Some e
  | Some _ => saved
  end.

(** The name [UnmarshalTypeError] gives a JSON value that does not fit. *)
Definition valueName (v : json) : string :=
  match v with
  | JNull => "null"
  | JBool _ => "bool"
  | JNumber _ => "number"
  | JString _ => "string"
  | JArray _ => "array"
  | JObject _ => "object"
  end.

(** Where a field sits, for error messages: the struct's name, the
    field's JSON name and the field's Go type. *)
Record place : Type := mkPlace {
  inStruct : string;
  key : string;
  goType : string
}.

Definition typeError (value : string) (pl : place) : error :=
  UnmarshalTypeError value (inStruct pl) (key pl) (goType pl).

(** [%q] of an item; a quote or a backslash inside is left as it is. *)
Definition quoted (item : string) : string := dquote ++ item ++ dquote.

Section Stores.
Context {T : Type}.

(** A number literal into an [int] field. *)
Definition storeIntLit (pl : place) (set : Z -> T -> T) (lit : string)
    : dec T :=
  fun t saved =>
    match ParseInt lit with
    | Some n => inl (set n t, saved)
    | None => inl (t, saveError (typeError ("number " ++ lit) pl) saved)
    end.

(** A number literal into a [float64] field. *)
Definition storeFloatLit (pl : place) (set : float64 -> T -> T)
    (lit : string) : dec T :=
  fun t saved =>
    match ParseFloat lit with
    | Some f => inl (set f t, saved)
    | None => inl (t, saveError (typeError ("number " ++ lit) pl) saved)
    end.

(** A JSON value into a numeric field: [null] leaves the field alone, a
    number is stored, anything else is a type error. *)
Definition storeNumber (pl : place) (lit : string -> dec T) (v : json)
    : dec T :=
  fun t saved =>
    match v with
    | JNull => inl (t, saved)
    | JNumber s => lit s t saved
    | _ => inl (t, saveError (typeError (valueName v) pl) saved)
    end.

(** [literalStore] with [fromQuoted] on a numeric field: the string's
    content is taken for a JSON literal. *)
Definition storeQuotedItem (pl : place) (lit : string -> dec T)
    (item : string) : dec T :=
  fun t saved =>
    let bad := TagStringError (quoted item) (goType pl) in
    match item with
    | EmptyString => inl (t, saveError bad saved)
    | String c rest =>
        if Ascii.eqb c "n"%char then
          if String.eqb item "null" then inl (t, saved)
          else inl (t, saveError bad saved)
        else if Ascii.eqb c "t"%char || Ascii.eqb c "f"%char then
          inl (t, saveError bad saved)
        else if Ascii.eqb c "034"%char then
          let bytes := list_byte_of_string rest in
          match scanString (Datatypes.S (List.length bytes)) bytes with
          | inl (_, []) => inl (t, saveError (typeError "string" pl) saved)
          | _ => inr bad
          end
        else if Ascii.eqb c "-"%char || isDigit (byte_of_ascii c) then
          lit item t saved
        else inr bad
    end.

(** A JSON value into a numeric field tagged [,string]. *)
Definition storeQuoted (pl : place) (lit : string -> dec T) (v : json)
    : dec T :=
  fun t saved =>
    match v with
    | JNull => inl (t, saved)
    | JString item => storeQuotedItem pl lit item t saved
    | _ =>
        inl (t, saveError (TagStringError "unquoted value" (goType pl))
                  saved)
    end.

(** A JSON value into a [string] field. *)
Definition storeString (pl : place) (set : string -> T -> T) (v : json)
    : dec T :=
  fun t saved =>
    match v with
    | JNull => inl (t, saved)
    | JString s => inl (set s t, saved)
    | _ => inl (t, saveError (typeError (valueName v) pl) saved)
    end.

(** The elements of a JSON array into a slice: element [i] is decoded
    into what the slice held at [i], or into a zero value. *)
Fixpoint storeElems {E : Type} (elem : json -> dec E) (zero : E)
    (vs : list json) (old : list E) (saved : option error)
    : (list E * option error) + error :=
  match vs with
  | [] => inl ([], saved)
  | v :: vs' =>
      let (e0, old') := match old with
                        | e :: rest => (e, rest)
                        | [] => (zero, [])
                        end in
      match elem v e0 saved with
      | inr err => inr err
      | inl (e1, saved1) =>
          match storeElems elem zero vs' old' saved1 with
          | inr err => inr err
          | inl (es, saved2) => inl (e1 :: es, saved2)
          end
      end
  end.

(** A JSON value into a slice field. *)
Definition storeSlice {E : Type} (pl : place) (elem : json -> dec E)
    (zero : E) (get : T -> list E) (set : list E -> T -> T) (v : json)
    : dec T :=
  fun t saved =>
    match v with
    | JNull => inl (set [] t, saved)
    | JArray vs =>
        match storeElems elem zero vs (get t) saved with
        | inr err => inr err
        | inl (es, saved') => inl (set es t, saved')
        end
    | _ => inl (t, saveError (typeError (valueName v) pl) saved)
    end.

(** A field of a struct as the decoder sees it: its JSON name and what
    storing a member's raw bytes and value into it does. *)
Record field : Type := mkField {
  name : string;
  store : list byte -> json -> dec T
}.
End Stores.
Arguments field T : clear implicits.

(** The letters a key is compared by when it is not the field's very
    name: ASCII letters without regard to case, the long s and the Kelvin
    sign as [s] and [k]. *)
Fixpoint foldKey (s : string) : string :=
  match s with
  | EmptyString => EmptyString
  | String "197"%char (String "191"%char rest) =>
      String "s"%char (foldKey rest)
  | String "226"%char (String "132"%char (String "170"%char rest)) =>
      String "k"%char (foldKey rest)
  | String c rest => String (lowerChar c) (foldKey rest)
  end.

Definition equalFold (a b : string) : bool :=
  String.eqb (foldKey a) (foldKey b).

(** The field a key names: the field of exactly that name, else the first
    one equal to it under folding. *)
Definition findField {T} (fields : list (field T)) (k : string)
    : option (field T) :=
  match find (fun f => String.eqb (name f) k) fields with
  | Some f => Some f
  | None => find (fun f => equalFold (name f) k) fields
  end.

(** [d.object] on a struct: the members in their order, those that name
    no field skipped. *)
Fixpoint storeMembers {T} (fields : list (field T))
    (ms : list (string * (list byte * json))) : dec T :=
  fun t saved =>
    match ms with
    | [] => inl (t, saved)
    | (k, (raw, v)) :: rest =>
        match findField fields k with
        | None => storeMembers fields rest t saved
        | Some f =>
            match store f raw v t saved with
            | inr err => inr err
            | inl (t', saved') => storeMembers fields rest t' saved'
            end
        end
    end.

(** A JSON value into a struct. *)
Definition storeStruct {T} (pl : place) (fields : list (field T))
    (v : json) : dec T :=
  fun t saved =>
    match v with
    | JNull => inl (t, saved)
    | JObject ms => storeMembers fields ms t saved
    | _ => inl (t, saveError (typeError (valueName v) pl) saved)
    end.

(** [json.Unmarshal(data, &t)] for a struct [t]: the value on success,
    else the error.  What Go leaves in [t] on an error is not kept, no
    caller in the package reads it. *)
Definition unmarshalStruct {T} (goTypeName : string)
    (fields : list (field T)) (data : list byte) (t : T) : T + error :=
  match parseJSON data with
  | inr err => inr err
  | inl v =>
      match storeStruct (mkPlace EmptyString EmptyString goTypeName)
              fields v t None with
      | inr err => inr err
      | inl (_, Some err) => inr err
      | inl (t', None) => inl t'
      end
  end.

(** *** The fields of the package's structs, from their tags *)

Definition plainInt {T} (st k : string) (set : Z -> T -> T) : field T :=
  let pl := mkPlace st k "int" in
  mkField k (fun _ => storeNumber pl (storeIntLit pl set)).

Definition quotedInt {T} (st k : string) (set : Z -> T -> T) : field T :=
  let pl := mkPlace st k "int" in
  mkField k (fun _ => storeQuoted pl (storeIntLit pl set)).

Definition plainFloat {T} (st k : string) (set : float64 -> T -> T)
    : field T :=
  let pl := mkPlace st k "float64" in
  mkField k (fun _ => storeNumber pl (storeFloatLit pl set)).

Definition quotedFloat {T} (st k : string) (set : float64 -> T -> T)
    : field T :=
  let pl := mkPlace st k "float64" in
  mkField k (fun _ => storeQuoted pl (storeFloatLit pl set)).

Definition plainString {T} (st k : string) (set : string -> T -> T)
    : field T :=
  mkField k (fun _ => storeString (mkPlace st k "string") set).

(** Assignments to single fields. *)
Definition setStatus (n : Z) (h : SearchHeader) : SearchHeader :=
  mkSearchHeader n (ResultsRequested h) (ResultsReturned h)
    (ShortRemaining h) (LongRemaining h) (ShortLimit h) (LongLimit h)
    (MinimumSimilarity h).
Definition setResultsRequested (n : Z) (h : SearchHeader) : SearchHeader :=
  mkSearchHeader (Status h) n (ResultsReturned h) (ShortRemaining h)
    (LongRemaining h) (ShortLimit h) (LongLimit h) (MinimumSimilarity h).
Definition setResultsReturned (n : Z) (h : SearchHeader) : SearchHeader :=
  mkSearchHeader (Status h) (ResultsRequested h) n (ShortRemaining h)
    (LongRemaining h) (ShortLimit h) (LongLimit h) (MinimumSimilarity h).
Definition setShortRemaining (n : Z) (h : SearchHeader) : SearchHeader :=
  mkSearchHeader (Status h) (ResultsRequested h) (ResultsReturned h) n
    (LongRemaining h) (ShortLimit h) (LongLimit h) (MinimumSimilarity h).
Definition setLongRemaining (n : Z) (h : SearchHeader) : SearchHeader :=
  mkSearchHeader (Status h) (ResultsRequested h) (ResultsReturned h)
    (ShortRemaining h) n (ShortLimit h) (LongLimit h) (MinimumSimilarity h).
Definition setShortLimit (n : Z) (h : SearchHeader) : SearchHeader :=
  mkSearchHeader (Status h) (ResultsRequested h) (ResultsReturned h)
    (ShortRemaining h) (LongRemaining h) n (LongLimit h)
    (MinimumSimilarity h).
Definition setLongLimit (n : Z) (h : SearchHeader) : SearchHeader :=
  mkSearchHeader (Status h) (ResultsRequested h) (ResultsReturned h)
    (ShortRemaining h) (LongRemaining h) (ShortLimit h) n
    (MinimumSimilarity h).
Definition setMinimumSimilarity (f : float64) (h : SearchHeader)
    : SearchHeader :=
  mkSearchHeader (Status h) (ResultsRequested h) (ResultsReturned h)
    (ShortRemaining h) (LongRemaining h) (ShortLimit h) (LongLimit h) f.

Definition setIndexName (s : string) (h : SearchResultHeader)
    : SearchResultHeader :=
  mkSearchResultHeader s (IndexID h) (Thumbnail h) (Similarity h).
Definition setIndexID (n : Z) (h : SearchResultHeader)
    : SearchResultHeader :=
  mkSearchResultHeader (IndexName h) n (Thumbnail h) (Similarity h).
Definition setThumbnail (s : string) (h : SearchResultHeader)
    : SearchResultHeader :=
  mkSearchResultHeader (IndexName h) (IndexID h) s (Similarity h).
Definition setSimilarity (f : float64) (h : SearchResultHeader)
    : SearchResultHeader :=
  mkSearchResultHeader (IndexName h) (IndexID h) (Thumbnail h) f.

Definition setExtURLs (us : list string) (d : DanbooruData) : DanbooruData :=
  mkDanbooruData (mkCommonData us) (DanbooruID d) (Source d) (Characters d)
    (Material d) (Creator d).
Definition setDanbooruID (n : Z) (d : DanbooruData) : DanbooruData :=
  mkDanbooruData (Common d) n (Source d) (Characters d) (Material d)
    (Creator d).
Definition setSource (s : string) (d : DanbooruData) : DanbooruData :=
  mkDanbooruData (Common d) (DanbooruID d) s (Characters d) (Material d)
    (Creator d).
Definition setCharacters (s : string) (d : DanbooruData) : DanbooruData :=
  mkDanbooruData (Common d) (DanbooruID d) (Source d) s (Material d)
    (Creator d).
Definition setMaterial (s : string) (d : DanbooruData) : DanbooruData :=
  mkDanbooruData (Common d) (DanbooruID d) (Source d) (Characters d) s
    (Creator d).
Definition setCreator (s : string) (d : DanbooruData) : DanbooruData :=
  mkDanbooruData (Common d) (DanbooruID d) (Source d) (Characters d)
    (Material d) s.

Definition searchHeaderFields : list (field SearchHeader) :=
  let st := "SearchHeader" in
  [ plainInt st "status" setStatus;
    plainInt st "results_requested" setResultsRequested;
    plainInt st "results_returned" setResultsReturned;
    plainInt st "short_remaining" setShortRemaining;
    plainInt st "long_remaining" setLongRemaining;
    quotedInt st "short_limit" setShortLimit;
    quotedInt st "Long_limit" setLongLimit;
    plainFloat st "minimum_similarity" setMinimumSimilarity ].

Definition searchResultHeaderFields : list (field SearchResultHeader) :=
  let st := "SearchResultHeader" in
  [ plainString st "index_name" setIndexName;
    plainInt st "index_id" setIndexID;
    plainString st "thumbnail" setThumbnail;
    quotedFloat st "similarity" setSimilarity ].

(** [Data] is a [json.RawMessage]: its [UnmarshalJSON] keeps the bytes of
    the value, whatever the value. *)
Definition searchResultFields : list (field SearchResult) :=
  [ mkField "header"
      (fun _ v r saved =>
         match storeStruct
                 (mkPlace "SearchResult" "header"
                    "saucenao.SearchResultHeader")
                 searchResultHeaderFields v (ResultHeader r) saved with
         | inr err => inr err
         | inl (h, saved') => inl (mkSearchResult h (Data r), saved')
         end);
    mkField "data"
      (fun raw _ r saved => inl (mkSearchResult (ResultHeader r) raw, saved))
  ].

Definition searchResponseFields : list (field SearchResponse) :=
  [ mkField "header"
      (fun _ v r saved =>
         match storeStruct
                 (mkPlace "SearchResponse" "header" "saucenao.SearchHeader")
                 searchHeaderFields v (Header r) saved with
         | inr err => inr err
         | inl (h, saved') => inl (mkSearchResponse h (Results r), saved')
         end);
    mkField "results"
      (fun _ =>
         storeSlice
           (mkPlace "SearchResponse" "results" "[]saucenao.SearchResult")
           (storeStruct
              (mkPlace "SearchResponse" "results" "saucenao.SearchResult")
              searchResultFields)
           zeroSearchResult Results
           (fun rs r => mkSearchResponse (Header r) rs)) ].

(** The embedded [CommonData] lends [DanbooruData] its field. *)
Definition danbooruDataFields : list (field DanbooruData) :=
  let st := "DanbooruData" in
  [ mkField "ext_urls"
      (fun _ =>
         storeSlice (mkPlace st "ext_urls" "[]string")
           (storeString (mkPlace st "ext_urls" "string") (fun s _ => s))
           EmptyString (fun d => ExtURLs (Common d)) setExtURLs);
    plainInt st "danbooru_id" setDanbooruID;
    plainString st "source" setSource;
    plainString st "characters" setCharacters;
    plainString st "material" setMaterial;
    plainString st "creator" setCreator ].

(** [json.Unmarshal(data, &sr)] for [var sr SearchResponse]. *)
Definition UnmarshalSearchResponse (data : list byte)
    : SearchResponse + error :=
  unmarshalStruct "saucenao.SearchResponse" searchResponseFields data
    zeroSearchResponse.

(** [json.Unmarshal(data, &d)] for [var d DanbooruData]. *)
Definition UnmarshalDanbooruData (data : list byte) : DanbooruData + error :=
  unmarshalStruct "saucenao.DanbooruData" danbooruDataFields data
    zeroDanbooruData.

(** ** [AsDanbooru] and [Search] *)

Definition AsDanbooru (r : SearchResult) : outcome DanbooruData :=
  match UnmarshalDanbooruData (Data r) with
  | inr err => Fail (Errorf_w "search result as danbooru: " err)
  | inl d => Ok d
  end.

(** What [Search] does with the transport's response, from the switch on
    the status code to the end of the function. *)
Definition handleResponse (resp : Response) : outcome SearchResponse :=
  if (StatusCode resp =? 200)%Z then
    match ReadAll (Body resp) with
    | Ok d =>
        match UnmarshalSearchResponse d with
        | inr err => Fail (Errorf_s "saucenao search: " err)
        | inl sr => Ok sr
        end
    | Fail err => Fail (Errorf_s "saucenao search: " err)
    | Panic m => Panic m
    end
  else if (StatusCode resp =? 429)%Z then
    Fail (Errorf_w "saucenao search: " QuotaErr)
  else
    Fail (ErrorString
            ("saucenao search: unexpected status " ++ RespStatus resp)).

(** [Search], with the state of the transport before and after.  The
    context only travels with the request, and the deferred closing of the
    body leaves no trace in what is returned; neither is modelled. *)
Definition Search {S} (rt : Runtime) (c : Client S) (r : SearchRequest)
    (st : S) : outcome SearchResponse * S :=
  match requestForSearch rt c r with
  | Panic m => (Panic m, st)
  | Fail err => (Fail (Errorf_w "saucenao search: " err), st)
  | Ok req =>
      match C c req st with
      | (inr err, st') => (Fail (Errorf_s "saucenao search: " err), st')
      | (inl resp, st') => (handleResponse resp, st')
      end
  end.

(** ** The specification's wording of the query string

    The parameters in the order the specification lists them, each
    optional one under its condition, joined by ampersands. *)

Definition specParams (apiKey : string) (r : SearchRequest)
    : list (string * string) :=
  [ ("output_type", "2"); ("api_key", apiKey);
    ("numres", FormatUint (NumRes r)) ]
  ++ (if TestMode r then [("testmode", "1")] else [])
  ++ (if DBMask r =? 0 then [] else [("dbmask", FormatUint (DBMask r))])
  ++ (if DBMaskI r =? 0 then [] else [("dbmaski", FormatUint (DBMaskI r))])
  ++ (if String.eqb (URL r) EmptyString then []
      else [("url", QueryEscape (URL r))]).

Fixpoint joinParams (ps : list (string * string)) : string :=
  match ps with
  | [] => EmptyString
  | [(k, v)] => k ++ "=" ++ v
  | (k, v) :: rest => k ++ "=" ++ v ++ "&" ++ joinParams rest
  end.

(** The query string of a URL taken apart again: what follows the first
    question mark, split at ampersands, each piece at its first equals
    sign. *)
Fixpoint splitOn (sep : ascii) (s : string) : list string :=
  match s with
  | EmptyString => [EmptyString]
  | String c rest =>
      if Ascii.eqb c sep then EmptyString :: splitOn sep rest
      else match splitOn sep rest with
           | piece :: pieces => String c piece :: pieces
           | [] => [String c EmptyString]
           end
  end.

Definition queryPairs (url : string) : list (string * string) :=
  match cut "?"%char url with
  | None => []
  | Some (_, q) =>
      map (fun piece => match cut "="%char piece with
                        | Some kv => kv
                        | None => (piece, EmptyString)
                        end)
        (splitOn "&"%char q)
  end.

(** The value of the first parameter of that name, if there is one. *)
Definition queryLookup (k : string) (url : string) : option string :=
  match find (fun kv => String.eqb (fst kv) k) (queryPairs url) with
  | Some kv => Some (snd kv)
  | None => None
  end.

(** What [QueryEscape] writes for one character. *)
Definition escapeChar (c : ascii) : string :=
  QueryEscape (String c EmptyString).

(** The characters [QueryEscape] lets through or writes: letters, digits,
    four marks, the plus sign and the percent sign. *)
Definition isEscaped (c : ascii) : bool :=
  negb (shouldEscape c) || Ascii.eqb c "+"%char || Ascii.eqb c "%"%char.

Fixpoint allChars (p : ascii -> bool) (s : string) : bool :=
  match s with
  | EmptyString => true
  | String c rest => p c && allChars p rest
  end.

(** ** Sample inputs *)

(** A transport in the manner of the test suite's [spyTransport]: it
    notes each request and answers with what it was given. *)
Definition spyTransport (answer : Response + error)
    : HTTPClient (list Request) :=
  fun req log => (answer, (log ++ [req])%list).

(** A runtime whose [url.Parse] accepts every URL and whose random source
    yields the bytes 0 to 29. *)
Definition sampleRuntime : Runtime :=
  mkRuntime (fun _ => None)
    (map (fun n => match Byte.of_N (N.of_nat n) with
                   | Some b => b
                   | None => x00
                   end) (seq 0 30)).

Definition sampleClient (answer : Response + error)
    : Client (list Request) :=
  mkClient (spyTransport answer) "https://example.com" "amiya".

(** The request of the specification's scenario: sixteen results, nothing
    else set. *)
Definition plainRequest : SearchRequest :=
  mkSearchRequest EmptyString None false 0 0 16.

(** The request of [TestClient_Search_image]. *)
Definition imageRequest : SearchRequest :=
  mkSearchRequest EmptyString
    (Some (mkReader [list_byte_of_string "eyjafjalla"] None)) false 0 0 0.

(** An image together with a URL, against the convention. *)
Definition imageAndURLRequest : SearchRequest :=
  mkSearchRequest "http://a/b c"
    (Some (mkReader [list_byte_of_string "eyjafjalla"] None)) false 0 0 0.

(** A request with every optional parameter. *)
Definition fullRequest : SearchRequest :=
  mkSearchRequest "http://a/b c" None true DanbooruBit PixivBit 4.

(** An image whose stream breaks after its first bytes. *)
Definition brokenImageRequest : SearchRequest :=
  mkSearchRequest EmptyString
    (Some (mkReader [list_byte_of_string "eyja"]
             (Some (ErrorString "unexpected EOF")))) false 0 0 0.

Definition emptyBody : Reader := mkReader [] None.


(** The same request by URL only, and the same request without its URL. *)
Definition withoutImage (r : SearchRequest) : SearchRequest :=
  mkSearchRequest (URL r) None (TestMode r) (DBMask r) (DBMaskI r) (NumRes r).

Definition withoutURL (r : SearchRequest) : SearchRequest :=
  mkSearchRequest EmptyString (ImageBytes r) (TestMode r) (DBMask r)
    (DBMaskI r) (NumRes r).

(** The body the writer leaves in the buffer for one file part: the
    boundary line, the part's header, an empty line, the content and the
    closing boundary line. *)
Definition multipartBody (b : string) (content : list byte) : list byte :=
  (list_byte_of_string ("--" ++ b ++ CRLF)
   ++ list_byte_of_string
        (headerLines (formFileHeader "file" "image") ++ CRLF)
   ++ content
   ++ list_byte_of_string (CRLF ++ "--" ++ b ++ "--" ++ CRLF))%list.

(** Responses for the sample transport. *)
Definition rateLimited : Response :=
  mkResponse 429 "429 Too Many Requests" emptyBody.

Definition serverError : Response :=
  mkResponse 500 "500 Internal Server Error" emptyBody.

(** A 200 response whose body is empty, which is no JSON text. *)
Definition emptyOK : Response := mkResponse 200 "200 OK" emptyBody.

(** A 200 response whose body cannot be read: the stream fails at once. *)
Definition brokenBodyOK : Response :=
  mkResponse 200 "200 OK"
    (mkReader [] (Some (ErrorString "unexpected end of JSON input"))).

(** ** The boundary and the content *)

(** The runtime's random source delivers the thirty bytes the writer
    asks for. *)
Definition wfRuntime (rt : Runtime) : Prop :=
  List.length (randomBytes rt) = 30%nat.

(** [d] stands somewhere in [l]. *)
Fixpoint occurs (d l : list byte) : bool :=
  isPrefix d l
  || match l with
     | [] => false
     | _ :: t => occurs d t
     end.

(** The content, taken with the line end the writer puts before it, does
    not contain the line that would end the part. *)
Definition boundaryFree (b : string) (content : list byte) : Prop :=
  occurs (nlDashBoundary NlCRLF b) (x0d :: x0a :: content) = false.

Definition isLowerHex (c : ascii) : bool :=
  let n := N_of_ascii c in
  ((48 <=? n) && (n <=? 57)) || ((97 <=? n) && (n <=? 102)).

(** A content that holds the line of the sample runtime's boundary. *)
Definition collidingContent : list byte :=
  list_byte_of_string
    ("ab" ++ CRLF ++ "--" ++ randomBoundary sampleRuntime ++ CRLF ++ "cd").

(** ** Sample responses *)

(** A JSON text written with single quotes where JSON has double ones. *)
Fixpoint jsonQuotes (s : string) : string :=
  match s with
  | EmptyString => EmptyString
  | String c rest =>
      String (if Ascii.eqb c "'"%char then "034"%char else c)
        (jsonQuotes rest)
  end.

Definition jsonText (s : string) : list byte :=
  list_byte_of_string (jsonQuotes s).

(** The payload of the test suite's [TestSearchResult_AsDanbooru]. *)
Definition sampleData : list byte :=
  jsonText "{
        'source': 'http://img10.pixiv.net/img/howard19862002/12897460.jpg',
        'characters': 'elis (touhou), kikuri (touhou), konngara, mima, sariel, shingyoku, shingyoku (male), yuugenmagan',
        'material': 'highly responsive to prayers, touhou, touhou (pc-98)',
        'creator': 'nichimatsu seri',
        'danbooru_id': 736634,
        'ext_urls': [
          'https://danbooru.donmai.us/post/show/736634'
        ]
      }".


(** Modelled from the spec: the fixture [testdata/response.json] is not
    among the sources.  This body carries what the test suite expects to
    find in it: the header's counters, its two limits as numeric strings,
    its minimum similarity as a number, and one result whose similarity
    is a numeric string and whose data is the payload above. *)
Definition sampleResponseBody : list byte :=
  (jsonText "{
  'header': {
    'user_id': '0',
    'status': 0,
    'results_requested': 16,
    'short_limit': '6',
    'Long_limit': '200',
    'long_remaining': 199,
    'short_remaining': 5,
    'minimum_similarity': 24.6,
    'results_returned': 16
  },
  'results': [
    {
      'header': {
        'similarity': '18.71',
        'thumbnail': 'https://img3.saucenao.com/booru/c/f/cf735b2a59302bf96aac3960c4e075a1_0.jpg',
        'index_id': 9,
        'index_name': 'Index #9: Danbooru - cf735b2a59302bf96aac3960c4e075a1_0.jpg'
      },
      'data': "
   ++ sampleData
   ++ jsonText "
    }
  ]
}")%list.

(** [f] is a positive normal binary64 number within half a unit in the
    last place of [num / den]: the nearest one. *)
Definition isNearest (num den : Z) (f : float64) : bool :=
  match f with
  | S754_finite false m e =>
      ((2 ^ 52 <=? Zpos m) && (Zpos m <? 2 ^ 53) && (e <? 0)
       && (2 * Z.abs (num * 2 ^ (- e) - den * Zpos m) <=? den))%Z
  | _ => false
  end.

(** What the test suite's [TestSearchResponse_unmarshal] expects, the two
    floating-point fields left to the decoder. *)
Definition sampleResponse (minimum similarity : float64) : SearchResponse :=
  mkSearchResponse
    (mkSearchHeader 0 16 16 5 199 6 200 minimum)
    [ mkSearchResult
        (mkSearchResultHeader
           "Index #9: Danbooru - cf735b2a59302bf96aac3960c4e075a1_0.jpg" 9
           "https://img3.saucenao.com/booru/c/f/cf735b2a59302bf96aac3960c4e075a1_0.jpg"
           similarity)
        sampleData ].

(** A string that begins like a JSON number. *)
Definition isNumberStart (s : string) : bool :=
  match s with
  | String c _ => Ascii.eqb c "-"%char || isDigit (byte_of_ascii c)
  | EmptyString => false
  end.

(** One member decoded into a header. *)
Definition headerMember (k : string) (v : json) (h : SearchHeader)
    : (SearchHeader * option error) + error :=
  storeMembers searchHeaderFields [(k, ([], v))] h None.

Definition resultHeaderMember (k : string) (v : json)
    (h : SearchResultHeader) : (SearchResultHeader * option error) + error :=
  storeMembers searchResultHeaderFields [(k, ([], v))] h None.

(** ** The Danbooru schema in the specification's terms

    Which JSON values a named field takes, what each field of the result
    is after the members of the payload, read independently of the other
    fields: members of other names do not figure in it, and without a
    member of its name a field keeps its zero value. *)

Definition member : Type := (string * (list byte * json))%type.

Definition fitsInt (v : json) : bool :=
  match v with
  | JNull => true
  | JNumber lit => match ParseInt lit with
                   | Some _ => true
                   | None => false
                   end
  | _ => false
  end.

Definition fitsString (v : json) : bool :=
  match v with
  | JNull | JString _ => true
  | _ => false
  end.

Definition fitsStrings (v : json) : bool :=
  match v with
  | JNull => true
  | JArray vs => forallb fitsString vs
  | _ => false
  end.

Definition danbooruSchema : list (string * (json -> bool)) :=
  [ ("ext_urls", fitsStrings); ("danbooru_id", fitsInt);
    ("source", fitsString); ("characters", fitsString);
    ("material", fitsString); ("creator", fitsString) ].

(** A member fits when its key names no field, or names a field that
    takes its value. *)
Definition memberFits (m : member) : bool :=
  match find (fun e => equalFold (fst e) (fst m)) danbooruSchema with
  | Some (_, fits) => fits (snd (snd m))
  | None => true
  end.


(** An [int] field after the members: the number of the last member of
    its name that holds one. *)
Definition intStep (F : string) (acc : Z) (m : member) : Z :=
  if equalFold F (fst m) then
    match snd (snd m) with
    | JNumber lit => match ParseInt lit with
                     | Some n => n
                     | None => acc
                     end
    | _ => acc
    end
  else acc.

Definition lastInt (F : string) (ms : list member) (init : Z) : Z :=
  fold_left (intStep F) ms init.

(** A [string] field after the members. *)
Definition stringStep (F : string) (acc : string) (m : member) : string :=
  if equalFold F (fst m) then
    match snd (snd m) with
    | JString s => s
    | _ => acc
    end
  else acc.

Definition lastString (F : string) (ms : list member) (init : string)
    : string :=
  fold_left (stringStep F) ms init.

(** The strings of an array over what the slice held: a string takes its
    place, any other element leaves the place as it was. *)
Fixpoint mergeStrings (vs : list json) (old : list string) : list string :=
  match vs with
  | [] => []
  | v :: vs' =>
      let (s0, old') := match old with
                        | s :: rest => (s, rest)
                        | [] => (EmptyString, [])
                        end in
      (match v with
       | JString s => s
       | _ => s0
       end) :: mergeStrings vs' old'
  end.

(** A [[]string] field after the members: [null] empties it. *)
Definition stringsStep (F : string) (acc : list string) (m : member)
    : list string :=
  if equalFold F (fst m) then
    match snd (snd m) with
    | JNull => []
    | JArray vs => mergeStrings vs acc
    | _ => acc
    end
  else acc.

Definition lastStrings (F : string) (ms : list member) (init : list string)
    : list string :=
  fold_left (stringsStep F) ms init.

(** The result the members of a payload leave, starting from [d]. *)
Definition decoded (ms : list member) (d : DanbooruData) : DanbooruData :=
  mkDanbooruData
    (mkCommonData (lastStrings "ext_urls" ms (ExtURLs (Common d))))
    (lastInt "danbooru_id" ms (DanbooruID d))
    (lastString "source" ms (Source d))
    (lastString "characters" ms (Characters d))
    (lastString "material" ms (Material d))
    (lastString "creator" ms (Creator d)).

(** The strings of an array of strings. *)
Fixpoint stringsOf (vs : list json) : list string :=
  match vs with
  | [] => []
  | JString s :: vs' => s :: stringsOf vs'
  | _ :: vs' => EmptyString :: stringsOf vs'
  end.

Definition isJString (v : json) : bool :=
  match v with
  | JString _ => true
  | _ => false
  end.

(** No member of the list names the field. *)
Definition unnamed (F : string) (ms : list member) : Prop :=
  forall m, In m ms -> equalFold F (fst m) = false.




(** ** Further notions used by the properties of [Search] *)


(** A client around a spying transport. *)
Definition spyClient (answer : Response + error) (service apiKey : string)
    : Client (list Request) :=
  mkClient (spyTransport answer) service apiKey.

(** What a numeric field tagged [,string] makes of a value when it takes
    it without complaint: [null], also as a string, leaves the field as
    it was; a string that begins like a number and that [parse] reads
    sets the field. *)
Definition quotedOutcome {A T : Type} (parse : string -> option A)
    (set : A -> T -> T) (v : json) (t t' : T) : Prop :=
  (v = JNull /\ t' = t)
  \/ (v = JString "null" /\ t' = t)
  \/ (exists s a, v = JString s /\ isNumberStart s = true
                  /\ parse s = Some a /\ t' = set a t).




(** The keys of the members as the decoder compares them. *)
Definition foldedKeys (ms : list member) : list string :=
  map (fun m => foldKey (fst m)) ms.

(** ** Reading a rendered URL back *)

Definition noChar (sep : ascii) (s : string) : bool :=
  allChars (fun c => negb (Ascii.eqb c sep)) s.

(** The fields of a request that [searchURL] reads. *)
Definition sameSearch (r r' : SearchRequest) : Prop :=
  URL r = URL r' /\ TestMode r = TestMode r' /\ DBMask r = DBMask r'
  /\ DBMaskI r = DBMaskI r' /\ NumRes r = NumRes r'.

(** [unhex] of [net/url]. *)
Definition unhex (c : ascii) : N :=
  let n := N_of_ascii c in
  if (48 <=? n) && (n <=? 57) then n - 48
  else if (97 <=? n) && (n <=? 102) then n - 97 + 10
  else if (65 <=? n) && (n <=? 70) then n - 65 + 10
  else 0.

(** The writing loop of [net/url]'s [unescape] for a query component: a
    percent sign and two characters give one byte, a plus sign a space.
    It runs after the checking loop, [escapeError] below, has found a
    percent sign only in front of two hexadecimal digits. *)
Fixpoint unescapeLoop (s : string) : string :=
  match s with
  | EmptyString => EmptyString
  | String c rest =>
      if Ascii.eqb c "%"%char then
        match rest with
        | String a (String b rest') =>
            String (ascii_of_N (N.lor (N.shiftl (unhex a) 4) (unhex b)))
              (unescapeLoop rest')
        | _ => EmptyString
        end
      else if Ascii.eqb c "+"%char then String " "%char (unescapeLoop rest)
      else String c (unescapeLoop rest)
  end.




Definition isDecimal (c : ascii) : bool :=
  let n := N_of_ascii c in (48 <=? n) && (n <=? 57).

(** A parameter that a query string carries as it is: no equals sign in
    its name, no ampersand in its name or value. *)
Definition plainParam (kv : string * string) : bool :=
  noChar "="%char (fst kv) && noChar "&"%char (fst kv)
  && noChar "&"%char (snd kv).

(** A client without service and key. *)
Definition bareClient : Client (list Request) :=
  mkClient (spyTransport (inr QuotaErr)) EmptyString EmptyString.

(** The names of a struct's fields as the decoder compares them. *)
Definition foldedNames {T} (fields : list (field T)) : list string :=
  map (fun f => foldKey (name f)) fields.


(** ** The raw text the decoder keeps *)

(** What follows a value in a shortened text begins as what followed it
    in the full text, or the text ends there. *)
Definition sameHead (rest rest' : list byte) : Prop :=
  rest' = [] \/ exists c t t', rest = c :: t /\ rest' = c :: t'.

(** Every member of the value, at every depth, carries as its raw text
    bytes that parse on their own, to the member's value. *)
#[warnings="-register-all"]
Inductive rawKept : json -> Prop :=
| rawKept_null : rawKept JNull
| rawKept_bool (b : bool) : rawKept (JBool b)
| rawKept_number (lit : string) : rawKept (JNumber lit)
| rawKept_string (s : string) : rawKept (JString s)
| rawKept_array (vs : list json) :
    Forall rawKept vs -> rawKept (JArray vs)
| rawKept_object (ms : list (string * (list byte * json))) :
    Forall (fun m => parseJSON (fst (snd m)) = inl (snd (snd m))
                     /\ rawKept (snd (snd m))) ms ->
    rawKept (JObject ms).

(** The character a one-letter escape stands for. *)
Definition simpleEscape (e : byte) : option ascii :=
  match ascii_of_byte e with
  | "034"%char => Some "034"%char
  | "\"%char => Some "\"%char
  | "/"%char => Some "/"%char
  | "b"%char => Some "008"%char
  | "f"%char => Some "012"%char
  | "n"%char => Some "010"%char
  | "r"%char => Some "013"%char
  | "t"%char => Some "009"%char
  | _ => None
  end.

(** Whether a low surrogate escape is ahead is decided by the bytes of
    the string itself, not by what follows them. *)
Definition peekAlike (pre : list byte) : Prop :=
  forall r r',
    match peekU4 (pre ++ r), peekU4 (pre ++ r') with
    | Some (a, x), Some (b, y) =>
        a = b /\ exists p, x = (p ++ r)%list /\ y = (p ++ r')%list
    | None, None => True
    | _, _ => False
    end.

(** The parts of [scanNumber] one by one, for the proofs about it: the
    integer part, the fraction, the exponent. *)
Definition scanInteger (c : byte) (t : list byte) : string * list byte :=
  if Byte.eqb c x30 then ("0", t) else takeDigits (c :: t).

Definition scanFraction (l2 : list byte) : (string * list byte) + error :=
  match l2 with
  | d :: t2 =>
      if Byte.eqb d x2e then
        match t2 with
        | [] => inr errUnexpectedEnd
        | e :: _ =>
            if isDigit e
            then let (ds, l3) := takeDigits t2 in inl ("." ++ ds, l3)
            else inr (errInvalidChar e
                        "after decimal point in numeric literal")
        end
      else inl (EmptyString, l2)
  | [] => inl (EmptyString, l2)
  end.

Definition scanExponent (lit : string) (l3 : list byte)
    : (string * list byte) + error :=
  match l3 with
  | e :: t3 =>
      if Byte.eqb e x65 || Byte.eqb e x45 then
        let (esign, l4) :=
          match t3 with
          | s :: t4 =>
              if Byte.eqb s x2b || Byte.eqb s x2d
              then (String (ascii_of_byte s) EmptyString, t4)
              else (EmptyString, t3)
          | [] => (EmptyString, t3)
          end in
        match l4 with
        | [] => inr errUnexpectedEnd
        | d :: _ =>
            if isDigit d then
              let (ds, l5) := takeDigits l4 in
              inl (lit ++ String (ascii_of_byte e) esign ++ ds, l5)
            else inr (errInvalidChar d "in exponent of numeric literal")
        end
      else inl (lit, l3)
  | [] => inl (lit, l3)
  end.

(** A result without data, or with data that is a JSON text. *)
Definition dataParses (r : SearchResult) : Prop :=
  Data r = [] \/ exists v, parseJSON (Data r) = inl v.

(** No error, or an [UnmarshalTypeError]. *)
Definition typeErrorOnly (saved : option error) : Prop :=
  saved = None
  \/ exists value st fld ty, saved = Some (UnmarshalTypeError value st fld ty).

(** A response with one result whose payload has a string where the
    Danbooru id belongs, and that result. *)
Definition mistypedBody : list byte :=
  jsonText "{'results': [{'data': {'danbooru_id': 'x'}}]}".

Definition mistypedResult : SearchResult :=
  mkSearchResult zeroSearchResultHeader (jsonText "{'danbooru_id': 'x'}").

(** * Properties *)

(** ** Strings *)

Lemma append_nil_r (s : string) : s ++ EmptyString = s.
Proof.
  induction s as [|c s IH]; simpl; [reflexivity | now rewrite IH].
Qed.

Lemma append_assoc (a b c : string) : (a ++ b) ++ c = a ++ (b ++ c).
Proof.
  induction a as [|x a IH]; simpl; [reflexivity | now rewrite IH].
Qed.

(** Brings both sides of an equation between strings to a right-nested
    chain of appends and compares them. *)
Ltac string_norm :=
  repeat (rewrite ?append_assoc, ?append_nil_r; simpl);
  try reflexivity.

Lemma uint64_small (x : N) : x < 2 ^ 64 -> uint64 x = x.
Proof. intro H. unfold uint64. now apply N.mod_small. Qed.

Lemma wf_uint64 (r : SearchRequest) :
  wfSearchRequest r ->
  uint64 (NumRes r) = NumRes r /\ uint64 (DBMask r) = DBMask r
  /\ uint64 (DBMaskI r) = DBMaskI r.
Proof.
  intros (H1 & H2 & H3). repeat split; apply uint64_small; try assumption.
  eapply N.lt_trans; [exact H3 | reflexivity].
Qed.

(** [searchURL] writes the specification's parameters in the
    specification's order. *)
Lemma searchURL_spec {S} (c : Client S) (r : SearchRequest) :
  wfSearchRequest r ->
  searchURL c r
  = Service c ++ "/search.php?" ++ joinParams (specParams (APIKey c) r).
Proof.
  intro Hwf. destruct (wf_uint64 r Hwf) as (E1 & E2 & E3).
  unfold searchURL, specParams. rewrite E1, E2, E3.
  destruct (TestMode r), (DBMask r =? 0), (DBMaskI r =? 0),
    (String.eqb (URL r) EmptyString); simpl; string_norm.
Qed.

(** C1: for a request without image bytes the builder renders a GET to
    [{service}/search.php] whose query string is [output_type=2],
    [api_key], [numres], then [testmode=1] only in test mode, [dbmask] and
    [dbmaski] only when nonzero and [url], percent-encoded, only when
    non-empty, in this order; with sixteen results and nothing else set
    the query string is exactly
    [output_type=2&api_key=<key>&numres=16]. *)
Theorem C1_get_request_query {S} (rt : Runtime) (c : Client S)
    (r : SearchRequest) :
  wfSearchRequest r ->
  ImageBytes r = None ->
  parseURL rt (searchURL c r) = None ->
  requestForSearch rt c r
  = Ok (mkRequest "GET"
          (Service c ++ "/search.php?"
           ++ joinParams (specParams (APIKey c) r)) [] None)
  /\ (NumRes r = 16 -> TestMode r = false -> DBMask r = 0 ->
      DBMaskI r = 0 -> URL r = EmptyString ->
      joinParams (specParams (APIKey c) r)
      = "output_type=2&api_key=" ++ APIKey c ++ "&numres=16").
Proof.
  intros Hwf Himg Hurl. split.
  - unfold requestForSearch, NewRequestWithContext.
    rewrite Himg, Hurl. now rewrite searchURL_spec.
  - intros Hn Ht Hm Hi Hu. unfold specParams.
    rewrite Hn, Ht, Hm, Hi, Hu. simpl. string_norm.
Qed.

Lemma C1_get_request_query_witness :
  requestForSearch sampleRuntime (sampleClient (inr QuotaErr)) fullRequest
  = Ok (mkRequest "GET"
          "https://example.com/search.php?output_type=2&api_key=amiya&numres=4&testmode=1&dbmask=512&dbmaski=32&url=http%3A%2F%2Fa%2Fb+c"
          [] None)
  /\ joinParams (specParams "amiya" plainRequest)
     = "output_type=2&api_key=amiya&numres=16".
Proof.
  split.
  - refine (proj1 (C1_get_request_query sampleRuntime
                     (sampleClient (inr QuotaErr)) fullRequest _ _ _)).
    + repeat split.
    + reflexivity.
    + reflexivity.
  - refine (proj2 (C1_get_request_query sampleRuntime
                     (sampleClient (inr QuotaErr)) plainRequest _ _ _)
              _ _ _ _ _); try reflexivity.
    repeat split.
Defined.

(** ** What [QueryEscape] writes *)

Lemma allChars_app (p : ascii -> bool) (a b : string) :
  allChars p (a ++ b) = allChars p a && allChars p b.
Proof.
  induction a as [|x a IH]; simpl; [reflexivity|].
  rewrite IH. now rewrite andb_assoc.
Qed.

Lemma QueryEscape_cons (c : ascii) (s : string) :
  QueryEscape (String c s) = escapeChar c ++ QueryEscape s.
Proof.
  unfold escapeChar. simpl.
  destruct (shouldEscape c); [destruct (Ascii.eqb c " ")|]; reflexivity.
Qed.

Lemma escapeChar_chars (c : ascii) : allChars isEscaped (escapeChar c) = true.
Proof.
  destruct c as [[] [] [] [] [] [] [] []]; vm_compute; reflexivity.
Qed.

Lemma QueryEscape_chars (s : string) :
  allChars isEscaped (QueryEscape s) = true.
Proof.
  induction s as [|c s IH]; [reflexivity|].
  rewrite QueryEscape_cons, allChars_app, escapeChar_chars, IH.
  reflexivity.
Qed.



(** ** The builder without a URL, and with an image *)

Lemma specParams_no_url (apiKey : string) (r : SearchRequest) :
  URL r = EmptyString -> ~ In "url" (map fst (specParams apiKey r)).
Proof.
  intro Hu. unfold specParams. rewrite Hu.
  destruct (TestMode r), (DBMask r =? 0), (DBMaskI r =? 0); simpl;
    intuition discriminate.
Qed.

(** C8, the claim as stated, fails on the request of the specification's
    own scenario: with neither URL nor image the builder's GET carries no
    [url] parameter at all, so none with an empty value. *)
Lemma C8_counterexample :
  URL plainRequest = EmptyString
  /\ ImageBytes plainRequest = None
  /\ requestForSearch sampleRuntime (sampleClient (inr QuotaErr)) plainRequest
     = Ok (mkRequest "GET"
             "https://example.com/search.php?output_type=2&api_key=amiya&numres=16"
             [] None)
  /\ queryLookup "url"
       "https://example.com/search.php?output_type=2&api_key=amiya&numres=16"
     = None.
Proof. repeat split. Qed.

(** C8, amended: with neither URL nor image set the builder does not
    fail; it returns a GET request without body whose query string is the
    fixed parameters and the optional ones that are set, and among them
    there is no [url] parameter: the missing input is neither checked nor
    sent as an empty value. *)
Theorem C8_neither_set_get_without_url {S} (rt : Runtime) (c : Client S)
    (r : SearchRequest) :
  wfSearchRequest r ->
  URL r = EmptyString ->
  ImageBytes r = None ->
  parseURL rt (searchURL c r) = None ->
  requestForSearch rt c r
  = Ok (mkRequest "GET"
          (Service c ++ "/search.php?"
           ++ joinParams (specParams (APIKey c) r)) [] None)
  /\ ~ In "url" (map fst (specParams (APIKey c) r)).
Proof.
  intros Hwf Hu Himg Hurl. split.
  - unfold requestForSearch, NewRequestWithContext.
    rewrite Himg, Hurl. now rewrite searchURL_spec.
  - now apply specParams_no_url.
Qed.

Lemma C8_neither_set_get_without_url_witness :
  requestForSearch sampleRuntime (sampleClient (inr QuotaErr)) plainRequest
  = Ok (mkRequest "GET"
          "https://example.com/search.php?output_type=2&api_key=amiya&numres=16"
          [] None)
  /\ ~ In "url" (map fst (specParams "amiya" plainRequest)).
Proof.
  refine (C8_neither_set_get_without_url sampleRuntime
            (sampleClient (inr QuotaErr)) plainRequest _ _ _ _);
    try reflexivity.
  repeat split.
Defined.

Lemma searchURL_url {S} (c : Client S) (r : SearchRequest) :
  URL r <> EmptyString ->
  searchURL c r
  = searchURL c (withoutURL r) ++ "&url=" ++ QueryEscape (URL r).
Proof.
  intro Hu. unfold searchURL, withoutURL. simpl.
  destruct (String.eqb_spec (URL r) EmptyString) as [E|_]; [contradiction|].
  simpl. string_norm.
Qed.

Lemma fold_left_Write (cs : list (list byte)) (w : Writer) :
  fold_left Write cs w
  = mkWriter (buf w ++ List.concat cs) (boundary w) (lastpart w).
Proof.
  revert w. induction cs as [|x cs IH]; intro w; simpl.
  - rewrite app_nil_r. now destruct w.
  - rewrite IH. simpl. now rewrite <- app_assoc.
Qed.

(** What the builder returns for an image whose stream ends well. *)
Lemma requestForSearch_image {S} (rt : Runtime) (c : Client S)
    (r : SearchRequest) (image : Reader) :
  ImageBytes r = Some image ->
  failure image = None ->
  parseURL rt (searchURL c r) = None ->
  requestForSearch rt c r
  = Ok (mkRequest "POST" (searchURL c r)
          [("Content-Type",
            "multipart/form-data; boundary=" ++ randomBoundary rt)]
          (Some (multipartBody (randomBoundary rt)
                   (List.concat (chunks image))))).
Proof.
  intros Himg Hok Hurl. unfold requestForSearch, NewRequestWithContext.
  rewrite Himg. unfold Copy. rewrite Hok, Hurl, fold_left_Write.
  unfold multipartBody, HeaderSet, FormDataContentType, Close,
    CreateFormFile, CreatePart, WriteString, NewWriter. simpl.
  now rewrite <- !app_assoc.
Qed.

(** C4, the claim as stated, fails on a request that carries an image and
    a URL: the POST's query string does hold a [url] parameter. *)
Lemma C4_counterexample :
  exists req,
    ImageBytes imageAndURLRequest <> None
    /\ requestForSearch sampleRuntime (sampleClient (inr QuotaErr))
         imageAndURLRequest = Ok req
    /\ Method req = "POST"
    /\ queryLookup "url" (ReqURL req) = Some "http%3A%2F%2Fa%2Fb+c".
Proof.
  eexists. split; [discriminate|]. split; [reflexivity|].
  split; reflexivity.
Qed.

(** C4, amended: for a request with image bytes the POST goes to the very
    URL the GET variant of the same request goes to, path and query built
    by the same [searchURL]; the [url] parameter is part of it whenever
    the request's URL field is non-empty. *)
Theorem C4_post_same_url_as_get {S} (rt : Runtime) (c : Client S)
    (r : SearchRequest) (image : Reader) :
  ImageBytes r = Some image ->
  failure image = None ->
  parseURL rt (searchURL c r) = None ->
  exists req,
    requestForSearch rt c r = Ok req
    /\ Method req = "POST"
    /\ requestForSearch rt c (withoutImage r)
       = Ok (mkRequest "GET" (ReqURL req) [] None)
    /\ (URL r <> EmptyString ->
        ReqURL req
        = searchURL c (withoutURL r) ++ "&url=" ++ QueryEscape (URL r)).
Proof.
  intros Himg Hok Hurl.
  rewrite (requestForSearch_image rt c r image Himg Hok Hurl).
  eexists. split; [reflexivity|]. split; [reflexivity|]. split.
  - unfold requestForSearch, NewRequestWithContext. simpl.
    change (searchURL c (withoutImage r)) with (searchURL c r).
    now rewrite Hurl.
  - intro Hu. simpl. now apply searchURL_url.
Qed.

Lemma C4_post_same_url_as_get_witness :
  exists req,
    requestForSearch sampleRuntime (sampleClient (inr QuotaErr))
      imageAndURLRequest = Ok req
    /\ Method req = "POST"
    /\ requestForSearch sampleRuntime (sampleClient (inr QuotaErr))
         (withoutImage imageAndURLRequest)
       = Ok (mkRequest "GET" (ReqURL req) [] None)
    /\ (URL imageAndURLRequest <> EmptyString ->
        ReqURL req
        = searchURL (sampleClient (inr QuotaErr))
            (withoutURL imageAndURLRequest)
          ++ "&url=" ++ QueryEscape (URL imageAndURLRequest)).
Proof.
  refine (C4_post_same_url_as_get sampleRuntime (sampleClient (inr QuotaErr))
            imageAndURLRequest _ _ _ _); reflexivity.
Defined.

(** ** [Search] *)

(** C9: when reading the image bytes fails, [Search] returns the read
    error wrapped as a failure of the request's construction, and the
    transport is not invoked: its state is what it was, whatever the
    transport. *)
Theorem C9_read_failure_no_transport {S} (rt : Runtime) (c : Client S)
    (r : SearchRequest) (image : Reader) (err : error) (st : S) :
  ImageBytes r = Some image ->
  failure image = Some err ->
  requestForSearch rt c r = Fail err
  /\ Search rt c r st
     = (Fail (WrapError ("saucenao search: " ++ errorMsg err) err), st)
  /\ forall do' : HTTPClient S,
       Search rt (mkClient do' (Service c) (APIKey c)) r st = Search rt c r st.
Proof.
  intros Himg Herr.
  assert (H : forall c' : Client S, requestForSearch rt c' r = Fail err).
  { intro c'. unfold requestForSearch. rewrite Himg. unfold Copy.
    now rewrite Herr. }
  split; [apply H|]. split.
  - unfold Search. now rewrite H.
  - intro do'. unfold Search. now rewrite !H.
Qed.

Lemma C9_read_failure_no_transport_witness :
  requestForSearch sampleRuntime (sampleClient (inl emptyOK))
    brokenImageRequest = Fail (ErrorString "unexpected EOF")
  /\ Search sampleRuntime (sampleClient (inl emptyOK)) brokenImageRequest []
     = (Fail (WrapError "saucenao search: unexpected EOF"
                (ErrorString "unexpected EOF")), [])
  /\ forall do' : HTTPClient (list Request),
       Search sampleRuntime
         (mkClient do' "https://example.com" "amiya") brokenImageRequest []
       = Search sampleRuntime (sampleClient (inl emptyOK))
           brokenImageRequest [].
Proof.
  refine (C9_read_failure_no_transport sampleRuntime
            (sampleClient (inl emptyOK)) brokenImageRequest _ _ [] _ _);
    reflexivity.
Defined.

Lemma Search_response {S} (rt : Runtime) (c : Client S) (r : SearchRequest)
    (st st' : S) (req : Request) (resp : Response) :
  requestForSearch rt c r = Ok req ->
  C c req st = (inl resp, st') ->
  Search rt c r st = (handleResponse resp, st').
Proof. intros Hreq Hdo. unfold Search. now rewrite Hreq, Hdo. Qed.

(** C3: on the transport's response [Search] goes on to read and decode
    the body exactly when the status is 200; on 429 it fails with an error
    that wraps [QuotaError], which [errors.As] finds; on any other status
    it fails with a plain error that carries the status text and in which
    [errors.As] finds no [QuotaError]. *)
Theorem C3_status_handling {S} (rt : Runtime) (c : Client S)
    (r : SearchRequest) (st st' : S) (req : Request) (resp : Response) :
  requestForSearch rt c r = Ok req ->
  C c req st = (inl resp, st') ->
  let res := fst (Search rt c r st) in
  (StatusCode resp = 200%Z ->
   forall sr, res = Ok sr <->
     exists d, ReadAll (Body resp) = Ok d
               /\ UnmarshalSearchResponse d = inl sr)
  /\ (StatusCode resp <> 200%Z -> forall sr, res <> Ok sr)
  /\ (StatusCode resp = 429%Z ->
      res = Fail (WrapError "saucenao search: rate limited" QuotaErr)
      /\ forall e, res = Fail e -> AsQuotaError e = true)
  /\ (StatusCode resp <> 200%Z -> StatusCode resp <> 429%Z ->
      res = Fail (ErrorString ("saucenao search: unexpected status "
                               ++ RespStatus resp))
      /\ forall e, res = Fail e -> AsQuotaError e = false).
Proof.
  intros Hreq Hdo res. subst res.
  rewrite (Search_response rt c r st st' req resp Hreq Hdo). simpl.
  unfold handleResponse.
  split; [|split; [|split]].
  - intros H200 sr. rewrite H200. simpl. split.
    + unfold ReadAll. destruct (failure (Body resp)); [discriminate|].
      intro H. eexists. split; [reflexivity|].
      destruct (UnmarshalSearchResponse _); [congruence | discriminate].
    + intros (d & Hd & Hu). now rewrite Hd, Hu.
  - intros Hn sr.
    destruct (Z.eqb_spec (StatusCode resp) 200); [contradiction|].
    destruct (StatusCode resp =? 429)%Z; discriminate.
  - intro H429. rewrite H429. simpl. split; [reflexivity|].
    intros e He. now inversion He.
  - intros Hn200 Hn429.
    destruct (Z.eqb_spec (StatusCode resp) 200); [contradiction|].
    destruct (Z.eqb_spec (StatusCode resp) 429); [contradiction|].
    split; [reflexivity|]. intros e He. now inversion He.
Qed.

Lemma C3_status_handling_witness :
  fst (Search sampleRuntime (sampleClient (inl rateLimited)) plainRequest [])
  = Fail (WrapError "saucenao search: rate limited" QuotaErr)
  /\ fst (Search sampleRuntime (sampleClient (inl serverError))
            plainRequest [])
     = Fail (ErrorString
               "saucenao search: unexpected status 500 Internal Server Error").
Proof.
  split.
  - pose proof (C3_status_handling sampleRuntime
                  (sampleClient (inl rateLimited)) plainRequest [] _ _
                  rateLimited eq_refl eq_refl) as H.
    destruct H as (_ & _ & H429 & _).
    exact (proj1 (H429 eq_refl)).
  - pose proof (C3_status_handling sampleRuntime
                  (sampleClient (inl serverError)) plainRequest [] _ _
                  serverError eq_refl eq_refl) as H.
    destruct H as (_ & _ & _ & Hother).
    refine (proj1 (Hother _ _)); discriminate.
Defined.

(** C5, the claim as stated, fails: a body that is no JSON text and a
    body whose stream breaks with an error of the decoder's wording make
    [Search] return one and the same error value, a plain message that
    wraps nothing. *)
Lemma C5_counterexample :
  UnmarshalSearchResponse [] = inr (SyntaxError "unexpected end of JSON input")
  /\ ReadAll (Body brokenBodyOK)
     = Fail (ErrorString "unexpected end of JSON input")
  /\ fst (Search sampleRuntime (sampleClient (inl emptyOK)) plainRequest [])
     = Fail (ErrorString "saucenao search: unexpected end of JSON input")
  /\ fst (Search sampleRuntime (sampleClient (inl brokenBodyOK))
            plainRequest [])
     = fst (Search sampleRuntime (sampleClient (inl emptyOK)) plainRequest []).
Proof. repeat split. Qed.

(** C5, amended: on a 200 response whose body was read, a body that does
    not decode makes [Search] fail with a plain error whose message is
    [saucenao search: ] and the decoder's message; the error wraps
    nothing, so [errors.As] finds in it neither a JSON error nor a
    [QuotaError], and it differs from the error of a failed transport or
    of a failed read only by its text; a body that decodes is returned as
    the [SearchResponse] it decodes to, without error. *)
Theorem C5_decode_outcome {S} (rt : Runtime) (c : Client S)
    (r : SearchRequest) (st st' : S) (req : Request) (resp : Response)
    (d : list byte) :
  requestForSearch rt c r = Ok req ->
  C c req st = (inl resp, st') ->
  StatusCode resp = 200%Z ->
  ReadAll (Body resp) = Ok d ->
  (forall e, UnmarshalSearchResponse d = inr e ->
     exists e',
       fst (Search rt c r st) = Fail e'
       /\ e' = ErrorString ("saucenao search: " ++ errorMsg e)
       /\ Unwrap e' = None /\ AsJSONError e' = false
       /\ AsQuotaError e' = false
       /\ forall cause, errorMsg cause = errorMsg e ->
            e' = Errorf_s "saucenao search: " cause)
  /\ (forall sr, UnmarshalSearchResponse d = inl sr ->
        fst (Search rt c r st) = Ok sr).
Proof.
  intros Hreq Hdo H200 Hread.
  rewrite (Search_response rt c r st st' req resp Hreq Hdo). simpl.
  unfold handleResponse. rewrite H200, Hread. simpl. split.
  - intros e He. rewrite He. eexists. split; [reflexivity|].
    repeat split. intros cause Hc. unfold Errorf_s. now rewrite Hc.
  - intros sr Hsr. now rewrite Hsr.
Qed.

Lemma C5_decode_outcome_witness :
  exists e',
    fst (Search sampleRuntime (sampleClient (inl emptyOK)) plainRequest [])
    = Fail e'
    /\ e' = ErrorString "saucenao search: unexpected end of JSON input"
    /\ Unwrap e' = None /\ AsJSONError e' = false
    /\ AsQuotaError e' = false
    /\ forall cause,
         errorMsg cause = "unexpected end of JSON input" ->
         e' = Errorf_s "saucenao search: " cause.
Proof.
  pose proof (C5_decode_outcome sampleRuntime (sampleClient (inl emptyOK))
                plainRequest [] _ _ emptyOK [] eq_refl eq_refl eq_refl
                eq_refl) as H.
  exact (proj1 H (SyntaxError "unexpected end of JSON input") eq_refl).
Defined.

(** ** Bytes, prefixes and lines *)

Lemma byte_eqb_refl (b : byte) : Byte.eqb b b = true.
Proof. now apply Byte.byte_dec_lb. Qed.

Lemma byte_eqb_neq (a b : byte) : a <> b -> Byte.eqb a b = false.
Proof.
  intro H. destruct (Byte.eqb a b) eqn:E; [|reflexivity].
  now apply Byte.byte_dec_bl in E.
Qed.

Lemma list_byte_of_string_app (a b : string) :
  list_byte_of_string (a ++ b)
  = (list_byte_of_string a ++ list_byte_of_string b)%list.
Proof.
  unfold list_byte_of_string.
  induction a as [|x a IH]; simpl; [reflexivity | now rewrite IH].
Qed.

Lemma isPrefix_app (p l : list byte) : isPrefix p (p ++ l) = true.
Proof.
  induction p as [|x p IH]; simpl; [reflexivity|].
  now rewrite byte_eqb_refl, IH.
Qed.

Lemma skipn_length_app (p l : list byte) : skipn (List.length p) (p ++ l) = l.
Proof. induction p; simpl; auto. Qed.

(** A pattern without [x] that matches over the end of [c] into [x]
    matches within [c] already. *)
Lemma isPrefix_app_notin (x : byte) (d c t : list byte) :
  ~ In x d -> isPrefix d (c ++ x :: t) = isPrefix d c.
Proof.
  revert c. induction d as [|y d IH]; intros c Hx; [now destruct c|].
  destruct c as [|z c]; simpl.
  - apply andb_false_intro1. apply byte_eqb_neq.
    intro E. apply Hx. now left.
  - rewrite IH; [reflexivity|]. intro H. apply Hx. now right.
Qed.

Lemma readLine_app (p rest : list byte) :
  ~ In x0a p -> readLine (p ++ x0a :: rest) = Some ((p ++ [x0a])%list, rest).
Proof.
  induction p as [|y p IH]; intro Hn; simpl; [reflexivity|].
  rewrite byte_eqb_neq by (intro E; apply Hn; now left).
  rewrite IH; [reflexivity|]. intro H. apply Hn. now right.
Qed.

Lemma bytesEqual_refl (l : list byte) : bytesEqual l l = true.
Proof.
  unfold bytesEqual. rewrite <- (app_nil_r l) at 2.
  now rewrite isPrefix_app, Nat.eqb_refl.
Qed.

(** ** The random boundary *)

Lemma lowerhex_hex (b : byte) :
  isLowerHex (lowerhex (N.shiftr (Byte.to_N b) 4)) = true
  /\ isLowerHex (lowerhex (N.land (Byte.to_N b) 15)) = true.
Proof. destruct b; vm_compute; split; reflexivity. Qed.

Lemma hexString_hex (l : list byte) :
  allChars isLowerHex (hexString l) = true.
Proof.
  induction l as [|b l IH]; [reflexivity|].
  destruct (lowerhex_hex b) as [H1 H2].
  change (hexString (b :: l))
    with (String (lowerhex (N.shiftr (Byte.to_N b) 4))
            (String (lowerhex (N.land (Byte.to_N b) 15)) (hexString l))).
  cbn [allChars]. now rewrite H1, H2, IH.
Qed.

Lemma hexString_nonempty (l : list byte) :
  l <> [] -> hexString l <> EmptyString.
Proof. destruct l; [contradiction | discriminate]. Qed.

Lemma randomBoundary_hex (rt : Runtime) :
  wfRuntime rt ->
  allChars isLowerHex (randomBoundary rt) = true
  /\ randomBoundary rt <> EmptyString.
Proof.
  intro Hwf. split; [apply hexString_hex|].
  apply hexString_nonempty. unfold wfRuntime in Hwf.
  destruct (randomBytes rt); [discriminate | discriminate].
Qed.

(** A byte that is no hexadecimal digit is not among the bytes of a
    hexadecimal string. *)
Lemma hex_bytes_notin (x : byte) (s : string) :
  isLowerHex (ascii_of_byte x) = false ->
  allChars isLowerHex s = true ->
  ~ In x (list_byte_of_string s).
Proof.
  intros Hx. unfold list_byte_of_string.
  induction s as [|c s IH]; simpl; intros Hs H; [exact H|].
  apply andb_prop in Hs. destruct Hs as [Hc Hs].
  destruct H as [E|H].
  - rewrite <- E, ascii_of_byte_of_ascii in Hx. congruence.
  - now apply IH.
Qed.

(** ** Reading the writer's body back *)

Lemma dashBoundary_eq (b : string) :
  dashBoundary b = x2d :: x2d :: list_byte_of_string b.
Proof. reflexivity. Qed.

Lemma dashBoundaryDash_eq (b : string) :
  dashBoundaryDash b = (dashBoundary b ++ [x2d; x2d])%list.
Proof.
  unfold dashBoundaryDash, dashBoundary.
  change [x2d; x2d] with (list_byte_of_string "--").
  now rewrite <- list_byte_of_string_app, append_assoc.
Qed.

Lemma nlDashBoundary_eq (b : string) :
  nlDashBoundary NlCRLF b = x0d :: x0a :: dashBoundary b.
Proof. reflexivity. Qed.

Lemma dashBoundary_notin (x : byte) (b : string) :
  isLowerHex (ascii_of_byte x) = false -> x <> x2d ->
  allChars isLowerHex b = true ->
  ~ In x (dashBoundary b).
Proof.
  intros Hx Hd Hb. rewrite dashBoundary_eq. simpl.
  intros [E|[E|H]]; try (now apply Hd).
  now apply (hex_bytes_notin x b Hx Hb).
Qed.

Lemma scanBody_eq (d l : list byte) :
  scanBody d l
  = if boundaryAt d l then Some ([], l)
    else match l with
         | [] => None
         | x :: t =>
             match scanBody d t with
             | Some (body, rest) => Some (x :: body, rest)
             | None => None
             end
         end.
Proof. destruct l; reflexivity. Qed.

(** The body of a part runs exactly up to the boundary line when that
    line does not occur in it. *)
Lemma scanBody_found (d' content rest : list byte) :
  ~ In x0d d' ->
  occurs (x0d :: d') content = false ->
  boundaryFollows rest = true ->
  scanBody (x0d :: d') (content ++ (x0d :: d') ++ rest)
  = Some (content, ((x0d :: d') ++ rest)%list).
Proof.
  intros Hd Hocc Hrest.
  induction content as [|y cs IH].
  - rewrite scanBody_eq. unfold boundaryAt.
    cbn [app]. change (x0d :: (d' ++ rest)%list)
      with ((x0d :: d') ++ rest)%list.
    now rewrite isPrefix_app, skipn_length_app, Hrest.
  - rewrite scanBody_eq.
    cbn [occurs] in Hocc. apply orb_false_elim in Hocc.
    destruct Hocc as [Hhere Hlater].
    assert (Hno : boundaryAt (x0d :: d') ((y :: cs) ++ (x0d :: d') ++ rest)
                  = false).
    { unfold boundaryAt. apply andb_false_intro1.
      cbn [app isPrefix]. cbn [isPrefix] in Hhere.
      now rewrite (isPrefix_app_notin x0d d' cs (d' ++ rest) Hd). }
    rewrite Hno, <- app_comm_cons. now rewrite (IH Hlater).
Qed.

Lemma readPartBody_found (b : string) (content : list byte) :
  allChars isLowerHex b = true ->
  boundaryFree b content ->
  readPartBody b NlCRLF
    (content ++ nlDashBoundary NlCRLF b ++ [x2d; x2d; x0d; x0a])
  = Some (content,
          (nlDashBoundary NlCRLF b ++ [x2d; x2d; x0d; x0a])%list).
Proof.
  intros Hb Hfree. unfold boundaryFree in Hfree.
  rewrite nlDashBoundary_eq in *.
  cbn [occurs] in Hfree. apply orb_false_elim in Hfree.
  destruct Hfree as [Hstart Hfree].
  apply orb_false_elim in Hfree. destruct Hfree as [_ Hfree].
  cbn [isPrefix] in Hstart. rewrite !byte_eqb_refl in Hstart.
  cbn [andb] in Hstart.
  assert (Hcr : ~ In x0d (dashBoundary b))
    by (apply dashBoundary_notin; [reflexivity | discriminate | exact Hb]).
  unfold readPartBody.
  assert (Hno : boundaryAt (dashBoundary b)
                  (content ++ (x0d :: x0a :: dashBoundary b)
                   ++ [x2d; x2d; x0d; x0a]) = false).
  { unfold boundaryAt. apply andb_false_intro1. cbn [app].
    now rewrite (isPrefix_app_notin x0d (dashBoundary b) content _ Hcr). }
  rewrite Hno, nlDashBoundary_eq.
  apply (scanBody_found (x0a :: dashBoundary b) content
           [x2d; x2d; x0d; x0a]); [|exact Hfree|reflexivity].
  intros [E|H]; [discriminate | now apply Hcr].
Qed.

Lemma readMIMEHeader_formFile (tail : list byte) :
  let l := (list_byte_of_string
              (headerLines (formFileHeader "file" "image") ++ CRLF)
            ++ tail)%list in
  readMIMEHeader (Datatypes.S (List.length l)) l []
  = Some (formFileHeader "file" "image", tail).
Proof. reflexivity. Qed.

Lemma multipartBody_eq (b : string) (content : list byte) :
  multipartBody b content
  = ((dashBoundary b ++ [x0d]) ++ x0a
     :: (list_byte_of_string
           (headerLines (formFileHeader "file" "image") ++ CRLF)
         ++ content ++ nlDashBoundary NlCRLF b ++ [x2d; x2d; x0d; x0a]))%list.
Proof.
  unfold multipartBody, nlDashBoundary, dashBoundary.
  rewrite <- (append_assoc "--" b CRLF).
  rewrite <- (append_assoc "--" b ("--" ++ CRLF)).
  rewrite !list_byte_of_string_app.
  change (list_byte_of_string CRLF) with [x0d; x0a].
  change (list_byte_of_string ("--" ++ CRLF)) with [x2d; x2d; x0d; x0a].
  cbn [nlBytes]. rewrite <- !app_assoc. reflexivity.
Qed.

Lemma isBoundaryDelimiterLine_first (b : string) :
  isBoundaryDelimiterLine b NlCRLF 0 ((dashBoundary b ++ [x0d]) ++ [x0a])
  = (true, NlCRLF).
Proof.
  unfold isBoundaryDelimiterLine. rewrite <- app_assoc.
  now rewrite isPrefix_app, skipn_length_app.
Qed.

Lemma nextPart_first (fuel : nat) (b : string) (content : list byte) :
  allChars isLowerHex b = true ->
  nextPart (Datatypes.S fuel) b NlCRLF 0 false (multipartBody b content)
  = NextPartOk NlCRLF (formFileHeader "file" "image")
      (content ++ nlDashBoundary NlCRLF b ++ [x2d; x2d; x0d; x0a]).
Proof.
  intro Hb. rewrite multipartBody_eq. cbn [nextPart].
  rewrite readLine_app.
  - rewrite isBoundaryDelimiterLine_first.
    now rewrite (readMIMEHeader_formFile
                   (content ++ nlDashBoundary NlCRLF b
                    ++ [x2d; x2d; x0d; x0a])).
  - intro H. apply in_app_or in H. destruct H as [H|[E|[]]].
    + revert H. apply dashBoundary_notin;
        [reflexivity | discriminate | exact Hb].
    + discriminate.
Qed.

(** After the part, the reader meets the empty line and the closing
    boundary line, and reports [io.EOF]. *)
Lemma nextPart_final (fuel : nat) (b : string) (partsRead : nat) :
  allChars isLowerHex b = true ->
  nextPart (Datatypes.S (Datatypes.S fuel)) b NlCRLF (Datatypes.S partsRead)
    false (nlDashBoundary NlCRLF b ++ [x2d; x2d; x0d; x0a])
  = NextEOF.
Proof.
  intro Hb. rewrite nlDashBoundary_eq.
  assert (Hlf : ~ In x0a ((dashBoundary b ++ [x2d; x2d]) ++ [x0d])).
  { intro H. apply in_app_or in H. destruct H as [H|[E|[]]];
      [|discriminate].
    apply in_app_or in H. destruct H as [H|[E|[E|[]]]]; try discriminate.
    revert H. apply dashBoundary_notin;
      [reflexivity | discriminate | exact Hb]. }
  cbn [nextPart app readLine]. rewrite !byte_eqb_neq by discriminate.
  rewrite byte_eqb_refl.
  assert (Hd1 : isBoundaryDelimiterLine b NlCRLF (Datatypes.S partsRead)
                  [x0d; x0a] = (false, NlCRLF)).
  { unfold isBoundaryDelimiterLine. now rewrite dashBoundary_eq. }
  assert (Hf1 : isFinalBoundary b NlCRLF [x0d; x0a] = false).
  { unfold isFinalBoundary.
    now rewrite dashBoundaryDash_eq, dashBoundary_eq. }
  rewrite Hd1, Hf1. cbn [Nat.eqb bytesEqual nlBytes].
  change (isPrefix [x0d; x0a] [x0d; x0a]
          && (List.length [x0d; x0a] =? List.length [x0d; x0a])%nat)
    with true. cbn iota.
  replace (dashBoundary b ++ [x2d; x2d; x0d; x0a])%list
    with (((dashBoundary b ++ [x2d; x2d]) ++ [x0d]) ++ x0a :: [])%list
    by (now rewrite <- !app_assoc).
  rewrite (readLine_app _ [] Hlf).
  assert (Hd2 : isBoundaryDelimiterLine b NlCRLF (Datatypes.S partsRead)
                  ((((dashBoundary b ++ [x2d; x2d]) ++ [x0d]) ++ [x0a]))
                = (false, NlCRLF)).
  { unfold isBoundaryDelimiterLine. rewrite <- !app_assoc.
    now rewrite isPrefix_app, skipn_length_app. }
  assert (Hf2 : isFinalBoundary b NlCRLF
                  ((((dashBoundary b ++ [x2d; x2d]) ++ [x0d]) ++ [x0a]))
                = true).
  { unfold isFinalBoundary. rewrite dashBoundaryDash_eq.
    rewrite <- (app_assoc (dashBoundary b ++ [x2d; x2d])).
    now rewrite isPrefix_app, skipn_length_app. }
  now rewrite Hd2, Hf2.
Qed.

Lemma readParts_body (fuel : nat) (b : string) (content : list byte) :
  allChars isLowerHex b = true ->
  boundaryFree b content ->
  readParts (Datatypes.S (Datatypes.S fuel)) b NlCRLF 0
    (multipartBody b content)
  = Some [mkPart (formFileHeader "file" "image") content].
Proof.
  intros Hb Hfree. cbn [readParts].
  rewrite (nextPart_first _ b content Hb).
  rewrite (readPartBody_found b content Hb Hfree).
  destruct (List.length (nlDashBoundary NlCRLF b ++ [x2d; x2d; x0d; x0a]))
    as [|n] eqn:E; [discriminate E|].
  now rewrite (nextPart_final n b 0 Hb).
Qed.

(** ** The boundary in the [Content-Type] header *)

Lemma hex_char (c : ascii) :
  isLowerHex c = true ->
  isSpace c = false /\ isTokenChar c = true /\ Ascii.eqb c "034" = false.
Proof.
  destruct c as [[] [] [] [] [] [] [] []]; vm_compute;
    intro H; try discriminate H; repeat split.
Qed.

Lemma consumeToken_hex (b : string) :
  allChars isLowerHex b = true -> consumeToken b = (b, EmptyString).
Proof.
  induction b as [|c b IH]; simpl; intro H; [reflexivity|].
  apply andb_prop in H. destruct H as [Hc Hb].
  destruct (hex_char c Hc) as (_ & Ht & _). now rewrite Ht, (IH Hb).
Qed.

Lemma consumeValue_hex (c : ascii) (b : string) :
  allChars isLowerHex (String c b) = true ->
  consumeValue (String c b) = (String c b, EmptyString).
Proof.
  intro H. pose proof (consumeToken_hex _ H) as Htok.
  cbn [allChars] in H. apply andb_prop in H. destruct H as [Hc _].
  destruct (hex_char c Hc) as (_ & _ & Hq).
  unfold consumeValue. rewrite <- Htok.
  destruct c as [[] [] [] [] [] [] [] []]; try reflexivity; discriminate Hq.
Qed.

Lemma consumeMediaParam_boundary (c : ascii) (b : string) :
  allChars isLowerHex (String c b) = true ->
  consumeMediaParam ("; boundary=" ++ String c b)
  = Some ("boundary", String c b, EmptyString).
Proof.
  intro H. pose proof (consumeValue_hex c b H) as Hv.
  cbn [allChars] in H. apply andb_prop in H. destruct H as [Hc _].
  destruct (hex_char c Hc) as (Hs & _ & _).
  unfold consumeMediaParam.
  change (trimLeftSpace ("; boundary=" ++ String c b))
    with (String ";" (" boundary=" ++ String c b)).
  cbv beta iota.
  change (trimLeftSpace (" boundary=" ++ String c b))
    with ("boundary=" ++ String c b).
  change (consumeToken ("boundary=" ++ String c b))
    with ("boundary", "=" ++ String c b).
  cbv beta iota.
  change (trimLeftSpace ("=" ++ String c b)) with (String "=" (String c b)).
  cbv beta iota.
  assert (Ht : trimLeftSpace (String c b) = String c b)
    by (cbn [trimLeftSpace]; now rewrite Hs).
  rewrite Ht, Hv. reflexivity.
Qed.

Lemma ParseMediaType_boundary (b : string) :
  allChars isLowerHex b = true ->
  b <> EmptyString ->
  ParseMediaType ("multipart/form-data; boundary=" ++ b)
  = Some ("multipart/form-data", [("boundary", b)]).
Proof.
  intros Hb Hne. destruct b as [|c b]; [contradiction|].
  pose proof (consumeMediaParam_boundary c b Hb) as Hcmp.
  cbn [append] in Hcmp.
  unfold ParseMediaType. cbn -[consumeMediaParam].
  rewrite Hcmp. reflexivity.
Qed.

Lemma requestParts_multipart (m u b : string) (content : list byte) :
  allChars isLowerHex b = true ->
  b <> EmptyString ->
  boundaryFree b content ->
  requestParts
    (mkRequest m u [("Content-Type", "multipart/form-data; boundary=" ++ b)]
       (Some (multipartBody b content)))
  = Some [mkPart (formFileHeader "file" "image") content].
Proof.
  intros Hb Hne Hfree. unfold requestParts.
  change (headerGet _ "Content-Type")
    with ("multipart/form-data; boundary=" ++ b).
  rewrite (ParseMediaType_boundary b Hb Hne).
  change (String.eqb "multipart/form-data" "multipart/form-data") with true.
  cbv iota.
  change (paramGet [("boundary", b)] "boundary") with b.
  cbn [ReqBody].
  assert (Hgo : readParts
                  (Datatypes.S (List.length (multipartBody b content))) b
                  NlCRLF 0 (multipartBody b content)
                = Some [mkPart (formFileHeader "file" "image") content]).
  { destruct (List.length (multipartBody b content)) as [|n] eqn:E.
    - rewrite multipartBody_eq in E. rewrite length_app in E.
      cbn [List.length] in E. rewrite Nat.add_succ_r in E. discriminate E.
    - apply (readParts_body n b content Hb Hfree). }
  destruct b; [contradiction | exact Hgo].
Qed.

(** C2: for a request with image bytes whose stream ends well the builder
    renders a POST whose body, read back by [mime/multipart] with the
    boundary of its [Content-Type] header, holds exactly one part, of
    field name [file] and file name [image], whose content is the bytes
    of the stream; the boundary line, drawn at random, is taken not to
    occur in these bytes. *)
Theorem C2_multipart_round_trip {S} (rt : Runtime) (c : Client S)
    (r : SearchRequest) (image : Reader) :
  wfRuntime rt ->
  ImageBytes r = Some image ->
  failure image = None ->
  parseURL rt (searchURL c r) = None ->
  boundaryFree (randomBoundary rt) (List.concat (chunks image)) ->
  exists req p,
    requestForSearch rt c r = Ok req
    /\ Method req = "POST"
    /\ requestParts req = Some [p]
    /\ FormName p = "file"
    /\ FileName p = "image"
    /\ PartContent p = List.concat (chunks image).
Proof.
  intros Hrt Himg Hok Hurl Hfree.
  destruct (randomBoundary_hex rt Hrt) as [Hhex Hne].
  rewrite (requestForSearch_image rt c r image Himg Hok Hurl).
  eexists. eexists. split; [reflexivity|]. split; [reflexivity|]. split.
  - now apply requestParts_multipart.
  - repeat split.
Qed.

Lemma C2_multipart_round_trip_witness :
  exists req p,
    requestForSearch sampleRuntime (sampleClient (inl emptyOK)) imageRequest
    = Ok req
    /\ Method req = "POST"
    /\ requestParts req = Some [p]
    /\ FormName p = "file"
    /\ FileName p = "image"
    /\ PartContent p = list_byte_of_string "eyjafjalla".
Proof.
  refine (C2_multipart_round_trip sampleRuntime (sampleClient (inl emptyOK))
            imageRequest
            (mkReader [list_byte_of_string "eyjafjalla"] None) _ _ _ _ _);
    reflexivity.
Defined.

(** The assumption on the boundary cannot be dropped: a content that
    holds the boundary line is not read back, the reader ends the part at
    that line and fails on what follows it. *)
Remark boundary_in_content :
  (boundaryFree (randomBoundary sampleRuntime) collidingContent -> False)
  /\ readPartBody (randomBoundary sampleRuntime) NlCRLF
       (collidingContent
        ++ nlDashBoundary NlCRLF (randomBoundary sampleRuntime)
        ++ [x2d; x2d; x0d; x0a])
     <> Some (collidingContent,
              (nlDashBoundary NlCRLF (randomBoundary sampleRuntime)
               ++ [x2d; x2d; x0d; x0a])%list)
  /\ requestParts
       (mkRequest "POST" EmptyString
          [("Content-Type",
            "multipart/form-data; boundary="
            ++ randomBoundary sampleRuntime)]
          (Some (multipartBody (randomBoundary sampleRuntime)
                   collidingContent)))
     = None.
Proof.
  split; [|split].
  - unfold boundaryFree. vm_compute. discriminate.
  - vm_compute. discriminate.
  - vm_compute. reflexivity.
Qed.

(** ** Decoding numbers and numeric strings *)

Lemma number_start_char (c : ascii) :
  Ascii.eqb c "-" || isDigit (byte_of_ascii c) = true ->
  Ascii.eqb c "n" = false /\ Ascii.eqb c "t" = false
  /\ Ascii.eqb c "f" = false /\ Ascii.eqb c "034" = false.
Proof.
  destruct c as [[] [] [] [] [] [] [] []]; vm_compute;
    intro H; try discriminate H; repeat split.
Qed.

(** On a string that begins like a number, [literalStore] goes to
    [strconv] with the string's content. *)
Lemma storeQuotedItem_number {T} (pl : place) (lit : string -> dec T)
    (s : string) (t : T) (saved : option error) :
  isNumberStart s = true ->
  storeQuotedItem pl lit s t saved = lit s t saved.
Proof.
  destruct s as [|c s]; [discriminate|]. cbn [isNumberStart]. intro H.
  destruct (number_start_char c H) as (Hn & Ht & Hf & Hq).
  unfold storeQuotedItem. now rewrite Hn, Ht, Hf, Hq, H.
Qed.

Lemma headerMember_quoted_int (k k' s : string) (n : Z)
    (set : Z -> SearchHeader -> SearchHeader) (h : SearchHeader) :
  findField searchHeaderFields k
  = Some (quotedInt "SearchHeader" k' set) ->
  isNumberStart s = true ->
  ParseInt s = Some n ->
  headerMember k (JString s) h = inl (set n h, None).
Proof.
  intros Hf Hs Hp. unfold headerMember. cbn [storeMembers]. rewrite Hf.
  cbn [store quotedInt storeQuoted].
  rewrite storeQuotedItem_number by exact Hs.
  unfold storeIntLit. now rewrite Hp.
Qed.

Lemma headerMember_plain_int (k s : string) (n : Z)
    (set : Z -> SearchHeader -> SearchHeader) (h : SearchHeader) :
  findField searchHeaderFields k = Some (plainInt "SearchHeader" k set) ->
  ParseInt s = Some n ->
  headerMember k (JNumber s) h = inl (set n h, None)
  /\ headerMember k (JString s) h
     = inl (h, Some (UnmarshalTypeError "string" "SearchHeader" k "int")).
Proof.
  intros Hf Hp. unfold headerMember. cbn [storeMembers]. rewrite Hf.
  cbn [store plainInt storeNumber]. unfold storeIntLit. rewrite Hp.
  split; reflexivity.
Qed.

(** C6: in a response body the fields [short_limit], [Long_limit] (also
    when spelled [long_limit]) and [similarity] are read from JSON strings
    that hold a number and a raw JSON number is refused for them, while
    the other numeric fields are read from JSON numbers and a string is
    refused for them; the sample
    body decodes to what the test suite expects, with [short_limit] 6,
    the minimum similarity the binary64 number nearest to 24.6 and the
    first result's similarity the one nearest to 18.71. *)
Theorem C6_numeric_strings (h : SearchHeader) (rh : SearchResultHeader)
    (s : string) (n : Z) (f : float64) :
  (isNumberStart s = true -> ParseInt s = Some n ->
   headerMember "short_limit" (JString s) h = inl (setShortLimit n h, None)
   /\ headerMember "Long_limit" (JString s) h
      = inl (setLongLimit n h, None)
   /\ headerMember "long_limit" (JString s) h
      = inl (setLongLimit n h, None))
  /\ (isNumberStart s = true -> ParseFloat s = Some f ->
      resultHeaderMember "similarity" (JString s) rh
      = inl (setSimilarity f rh, None))
  /\ (headerMember "short_limit" (JNumber s) h
      = inl (h, Some (TagStringError "unquoted value" "int"))
      /\ headerMember "Long_limit" (JNumber s) h
         = inl (h, Some (TagStringError "unquoted value" "int"))
      /\ resultHeaderMember "similarity" (JNumber s) rh
         = inl (rh, Some (TagStringError "unquoted value" "float64")))
  /\ (ParseInt s = Some n ->
      headerMember "status" (JNumber s) h = inl (setStatus n h, None)
      /\ headerMember "results_requested" (JNumber s) h
         = inl (setResultsRequested n h, None)
      /\ headerMember "results_returned" (JNumber s) h
         = inl (setResultsReturned n h, None)
      /\ headerMember "short_remaining" (JNumber s) h
         = inl (setShortRemaining n h, None)
      /\ headerMember "long_remaining" (JNumber s) h
         = inl (setLongRemaining n h, None)
      /\ resultHeaderMember "index_id" (JNumber s) rh
         = inl (setIndexID n rh, None))
  /\ (ParseFloat s = Some f ->
      headerMember "minimum_similarity" (JNumber s) h
      = inl (setMinimumSimilarity f h, None))
  /\ (headerMember "status" (JString s) h
      = inl (h, Some (UnmarshalTypeError "string" "SearchHeader" "status"
                        "int"))
      /\ headerMember "minimum_similarity" (JString s) h
         = inl (h, Some (UnmarshalTypeError "string" "SearchHeader"
                           "minimum_similarity" "float64")))
  /\ exists minimum similarity,
       UnmarshalSearchResponse sampleResponseBody
       = inl (sampleResponse minimum similarity)
       /\ isNearest 246 10 minimum = true
       /\ isNearest 1871 100 similarity = true.
Proof.
  split; [|split; [|split; [|split; [|split; [|split]]]]].
  - intros Hs Hp. split; [|split].
    + now apply (headerMember_quoted_int "short_limit" "short_limit").
    + now apply (headerMember_quoted_int "Long_limit" "Long_limit").
    + now apply (headerMember_quoted_int "long_limit" "Long_limit").
  - intros Hs Hp. unfold resultHeaderMember. cbn [storeMembers].
    change (findField searchResultHeaderFields "similarity")
      with (Some (quotedFloat "SearchResultHeader" "similarity"
                    setSimilarity)).
    cbn [store quotedFloat storeQuoted].
    rewrite storeQuotedItem_number by exact Hs.
    unfold storeFloatLit. now rewrite Hp.
  - repeat split.
  - intro Hp.
    repeat (split;
            [apply headerMember_plain_int; [reflexivity | exact Hp]|]).
    unfold resultHeaderMember. cbn [storeMembers].
    change (findField searchResultHeaderFields "index_id")
      with (Some (plainInt "SearchResultHeader" "index_id" setIndexID)).
    cbn [store plainInt storeNumber]. unfold storeIntLit. now rewrite Hp.
  - intro Hp. unfold headerMember. cbn [storeMembers].
    change (findField searchHeaderFields "minimum_similarity")
      with (Some (plainFloat "SearchHeader" "minimum_similarity"
                    setMinimumSimilarity)).
    cbn [store plainFloat storeNumber]. unfold storeFloatLit.
    now rewrite Hp.
  - split; reflexivity.
  - eexists. eexists. split; [vm_compute; reflexivity|].
    split; vm_compute; reflexivity.
Qed.

Lemma C6_numeric_strings_witness :
  headerMember "short_limit" (JString "6") zeroSearchHeader
  = inl (setShortLimit 6 zeroSearchHeader, None)
  /\ resultHeaderMember "similarity" (JString "18.71") zeroSearchResultHeader
     = inl (setSimilarity (S754_finite false 5266396814256374 (-48))
              zeroSearchResultHeader, None).
Proof.
  split.
  - exact (proj1 (proj1 (C6_numeric_strings zeroSearchHeader
                           zeroSearchResultHeader "6" 6 zeroFloat)
                    eq_refl eq_refl)).
  - exact (proj1 (proj2 (C6_numeric_strings zeroSearchHeader
                           zeroSearchResultHeader "18.71" 0
                           (S754_finite false 5266396814256374 (-48))))
             eq_refl eq_refl).
Defined.

(** ** Decoding a Danbooru payload *)

(** The names of [DanbooruData]'s fields differ under folding, so the
    field of exactly the key's name is the first one equal under
    folding. *)
Lemma findField_danbooru (k : string) :
  findField danbooruDataFields k
  = find (fun f => equalFold (name f) k) danbooruDataFields.
Proof.
  unfold findField.
  destruct (find (fun f => String.eqb (name f) k) danbooruDataFields)
    as [f|] eqn:E; [|reflexivity].
  apply find_some in E. destruct E as [Hin Hname].
  apply String.eqb_eq in Hname. subst k.
  cbn [danbooruDataFields In] in Hin.
  destruct Hin as [<-|[<-|[<-|[<-|[<-|[<-|[]]]]]]]; reflexivity.
Qed.

Lemma saveError_saved (e e' : error) (saved : option error) :
  saveError e' (saveError e saved) = saveError e saved.
Proof. now destruct saved. Qed.

Lemma storeElems_strings (pl : place) (vs : list json) :
  forall (old : list string) (saved : option error),
  exists saved',
    storeElems (storeString pl (fun s _ => s)) EmptyString vs old saved
    = inl (mergeStrings vs old, saved')
    /\ (forallb fitsString vs = true -> saved' = saved)
    /\ (forallb fitsString vs = false ->
        exists e, AsJSONError e = true /\ saved' = saveError e saved).
Proof.
  induction vs as [|v vs IH]; intros old saved.
  - exists saved. repeat split. discriminate.
  - cbn [storeElems mergeStrings forallb].
    set (e0 := match old with s :: _ => s | [] => EmptyString end).
    set (old' := match old with _ :: rest => rest | [] => [] end).
    assert (Hold : (match old with
                    | s :: rest => (s, rest)
                    | [] => (EmptyString, [])
                    end) = (e0, old')) by (now destruct old).
    rewrite Hold.
    destruct (fitsString v) eqn:Hv.
    + assert (Hst : storeString pl (fun s _ => s) v e0 saved
                    = inl (match v with JString s => s | _ => e0 end, saved))
        by (destruct v; try discriminate Hv; reflexivity).
      rewrite Hst.
      destruct (IH old' saved) as (saved' & -> & Hok & Hbad).
      exists saved'. split; [reflexivity|]. now split.
    + assert (Hst : storeString pl (fun s _ => s) v e0 saved
                    = inl (match v with JString s => s | _ => e0 end,
                           saveError (typeError (valueName v) pl) saved))
        by (destruct v; try discriminate Hv; reflexivity).
      rewrite Hst.
      destruct (IH old' (saveError (typeError (valueName v) pl) saved))
        as (saved' & -> & Hok & Hbad).
      exists saved'. split; [reflexivity|]. split; [discriminate|].
      intros _. exists (typeError (valueName v) pl). split; [reflexivity|].
      destruct (forallb fitsString vs).
      * now apply Hok.
      * destruct (Hbad eq_refl) as (e & _ & ->). apply saveError_saved.
Qed.

(** Once a key is known to name one field, the tests against the other
    names are settled by computation. *)
Ltac resolve_folds :=
  match goal with
  | H : equalFold ?F ?k = true |- _ =>
      unfold equalFold in H; apply String.eqb_eq in H;
      try unfold equalFold; try rewrite <- H; clear H
  end;
  repeat match goal with
         | |- context [String.eqb (foldKey ?a) (foldKey ?b)] =>
             let t := constr:(String.eqb (foldKey a) (foldKey b)) in
             let r := eval vm_compute in t in
             change t with r
         end;
  cbv iota.

(** Closes the cases of one member whose store step computes. *)
Ltac settle :=
  eexists; split; [reflexivity|]; split;
  [ let H := fresh in
    intro H; cbn in H; first [discriminate H | reflexivity]
  | let H := fresh in
    intro H; cbn in H;
    first [ discriminate H
          | eexists; split; [|reflexivity]; reflexivity ] ].

(** One member of the payload: the decoder never stops on it, leaves the
    field values [decoded] describes, and saves an error exactly when the
    member does not fit the schema. *)
Lemma danbooru_member (k : string) (raw : list byte) (v : json)
    (d : DanbooruData) (saved : option error) :
  exists saved',
    storeMembers danbooruDataFields [(k, (raw, v))] d saved
    = inl (decoded [(k, (raw, v))] d, saved')
    /\ (memberFits (k, (raw, v)) = true -> saved' = saved)
    /\ (memberFits (k, (raw, v)) = false ->
        exists e, AsJSONError e = true /\ saved' = saveError e saved).
Proof.
  destruct d as [[urls] id src chars mat cre].
  cbn [storeMembers]. rewrite findField_danbooru.
  unfold memberFits, decoded, lastInt, lastString, lastStrings, intStep,
    stringStep, stringsStep.
  cbn [fold_left fst snd find danbooruDataFields danbooruSchema name
       plainInt plainString ExtURLs Common DanbooruID Source Characters
       Material Creator].
  destruct (equalFold "ext_urls" k) eqn:E1.
  { resolve_folds. cbn [store storeSlice ExtURLs Common].
    destruct v as [|bv|lit|sv|elems|mems]; try settle.
    destruct (storeElems_strings
                (mkPlace "DanbooruData" "ext_urls" "string") elems urls saved)
      as (saved' & Hst & Hok & Hbad).
    cbn [storeSlice ExtURLs Common]. rewrite Hst.
    exists saved'. split; [reflexivity|]. now split. }
  destruct (equalFold "danbooru_id" k) eqn:E2.
  { resolve_folds. unfold plainInt. cbn [store].
    destruct v as [|bv|lit|sv|elems|mems]; cbn [storeNumber]; try settle.
    unfold storeIntLit, fitsInt. destruct (ParseInt lit); settle. }
  destruct (equalFold "source" k) eqn:E3.
  { resolve_folds. destruct v as [|bv|lit|sv|elems|mems]; settle. }
  destruct (equalFold "characters" k) eqn:E4.
  { resolve_folds. destruct v as [|bv|lit|sv|elems|mems]; settle. }
  destruct (equalFold "material" k) eqn:E5.
  { resolve_folds. destruct v as [|bv|lit|sv|elems|mems]; settle. }
  destruct (equalFold "creator" k) eqn:E6.
  { resolve_folds. destruct v as [|bv|lit|sv|elems|mems]; settle. }
  settle.
Qed.

Lemma storeMembers_cons {T} (fields : list (field T))
    (m : string * (list byte * json))
    (ms : list (string * (list byte * json))) (t : T)
    (saved : option error) :
  storeMembers fields (m :: ms) t saved
  = match storeMembers fields [m] t saved with
    | inl (t', saved') => storeMembers fields ms t' saved'
    | inr err => inr err
    end.
Proof.
  destruct m as [k [raw v]]. cbn [storeMembers].
  destruct (findField fields k) as [f|]; [|reflexivity].
  destruct (store f raw v t saved) as [[t' saved']|err]; reflexivity.
Qed.

Lemma decoded_cons (m : member) (ms : list member) (d : DanbooruData) :
  decoded (m :: ms) d = decoded ms (decoded [m] d).
Proof. reflexivity. Qed.

Lemma decoded_nil (d : DanbooruData) : decoded [] d = d.
Proof. now destruct d as [[urls] id src chars mat cre]. Qed.

(** All members of the payload. *)
Lemma storeMembers_danbooru (ms : list member) :
  forall (d : DanbooruData) (saved : option error),
  exists saved',
    storeMembers danbooruDataFields ms d saved = inl (decoded ms d, saved')
    /\ (forallb memberFits ms = true -> saved' = saved)
    /\ (forallb memberFits ms = false ->
        exists e, AsJSONError e = true /\ saved' = saveError e saved).
Proof.
  induction ms as [|m ms IH]; intros d saved.
  - exists saved. cbn [storeMembers]. rewrite decoded_nil.
    repeat split. discriminate.
  - rewrite storeMembers_cons, decoded_cons. destruct m as [k [raw v]].
    destruct (danbooru_member k raw v d saved) as (s1 & Hs1 & Hok1 & Hbad1).
    destruct (IH (decoded [(k, (raw, v))] d) s1) as (s2 & Hs2 & Hok2 & Hbad2).
    exists s2. rewrite Hs1, Hs2. split; [reflexivity|]. cbn [forallb].
    destruct (memberFits (k, (raw, v))); cbn [andb].
    + rewrite <- (Hok1 eq_refl). now split.
    + split; [discriminate|]. intros _.
      destruct (Hbad1 eq_refl) as (e & He & ->).
      exists e. split; [exact He|].
      destruct (forallb memberFits ms).
      * now apply Hok2.
      * destruct (Hbad2 eq_refl) as (e' & _ & ->). apply saveError_saved.
Qed.


(** ** Reading the field values off the payload *)

Lemma fold_left_unnamed {A} (step : A -> member -> A) (F : string)
    (ms : list member) (init : A) :
  (forall acc m, equalFold F (fst m) = false -> step acc m = acc) ->
  unnamed F ms ->
  fold_left step ms init = init.
Proof.
  intros Hstep. revert init.
  induction ms as [|m ms IH]; intros init Hun; [reflexivity|].
  cbn [fold_left]. rewrite Hstep by (apply Hun; now left).
  apply IH. intros m' Hin. apply Hun. now right.
Qed.

(** Without a member of its name a field keeps its value. *)
Lemma absent_fields (F : string) (ms : list member) :
  unnamed F ms ->
  (forall init, lastInt F ms init = init)
  /\ (forall init, lastString F ms init = init)
  /\ (forall init, lastStrings F ms init = init).
Proof.
  intro Hun. repeat split; intro init;
    (apply (fold_left_unnamed _ F); [|exact Hun]);
    intros acc m Hm; unfold intStep, stringStep, stringsStep;
    now rewrite Hm.
Qed.

Lemma mergeStrings_strings (vs : list json) (old : list string) :
  forallb isJString vs = true -> mergeStrings vs old = stringsOf vs.
Proof.
  revert old. induction vs as [|v vs IH]; intros old H; [reflexivity|].
  cbn [forallb] in H. apply andb_prop in H. destruct H as [Hv Hvs].
  destruct v; try discriminate Hv.
  cbn [mergeStrings stringsOf]. destruct old; now rewrite IH.
Qed.

(** The last member of a field's name gives the field its value. *)
Lemma named_fields (F k : string) (raw : list byte)
    (ms1 ms2 : list member) :
  equalFold F k = true ->
  unnamed F ms2 ->
  (forall lit n init, ParseInt lit = Some n ->
     lastInt F (ms1 ++ (k, (raw, JNumber lit)) :: ms2) init = n)
  /\ (forall s init,
        lastString F (ms1 ++ (k, (raw, JString s)) :: ms2) init = s)
  /\ (forall vs init, forallb isJString vs = true ->
        lastStrings F (ms1 ++ (k, (raw, JArray vs)) :: ms2) init
        = stringsOf vs).
Proof.
  intros Hk Hun. destruct (absent_fields F ms2 Hun) as (Hi & Hs & Hl).
  unfold lastInt in Hi. unfold lastString in Hs. unfold lastStrings in Hl.
  repeat split.
  - intros lit n init Hp. unfold lastInt. rewrite fold_left_app.
    cbn [fold_left]. rewrite Hi.
    unfold intStep. cbn [fst snd]. now rewrite Hk, Hp.
  - intros s init. unfold lastString. rewrite fold_left_app.
    cbn [fold_left]. rewrite Hs.
    unfold stringStep. cbn [fst snd]. now rewrite Hk.
  - intros vs init Hvs. unfold lastStrings. rewrite fold_left_app.
    cbn [fold_left]. rewrite Hl.
    unfold stringsStep. cbn [fst snd]. rewrite Hk.
    now apply mergeStrings_strings.
Qed.

(** A member whose key names no field leaves every field as it is,
    wherever it stands in the payload. *)
Lemma unknown_sibling (k : string) (raw : list byte) (v : json)
    (ms1 ms2 : list member) (d : DanbooruData) :
  find (fun e => equalFold (fst e) k) danbooruSchema = None ->
  decoded (ms1 ++ (k, (raw, v)) :: ms2) d = decoded (ms1 ++ ms2) d.
Proof.
  intro Hnone.
  assert (Hall : forall F, In F (map fst danbooruSchema) ->
                           equalFold F k = false).
  { intros F HF. apply in_map_iff in HF. destruct HF as (e & <- & He).
    exact (find_none _ _ Hnone e He). }
  unfold decoded, lastInt, lastString, lastStrings.
  rewrite !fold_left_app. cbn [fold_left].
  unfold intStep at 2, stringStep at 2 5 8 11, stringsStep at 2.
  cbn [fst snd].
  rewrite !Hall by (cbn; tauto). reflexivity.
Qed.

(** ** The scanner's errors

    Whatever the scanner reports is a [SyntaxError]. *)








(** ** [AsDanbooru] *)



(** * Further properties of the code *)

(** ** [Search]: panics, error messages, the quota error *)





Lemma prefix_app (p s : string) : prefix p (p ++ s) = true.
Proof.
  induction p as [|a p IH]; simpl; [now destruct s|].
  destruct (ascii_dec a a); [exact IH | contradiction].
Qed.

(** X2: every error [Search] returns says where it comes from: its
    message begins with [saucenao search: ]. *)
Theorem Search_errors_are_prefixed {S} (rt : Runtime) (c : Client S)
    (r : SearchRequest) (st : S) (e : error) :
  fst (Search rt c r st) = Fail e ->
  prefix "saucenao search: " (errorMsg e) = true.
Proof.
  unfold Search.
  destruct (requestForSearch rt c r) as [req|err|m]; cbn [fst].
  - destruct (C c req st) as [[resp|err] st']; cbn [fst].
    + unfold handleResponse, ReadAll.
      destruct (StatusCode resp =? 200)%Z.
      * destruct (failure (Body resp)).
        -- intro H. injection H as <-. apply prefix_app.
        -- destruct (UnmarshalSearchResponse _); [discriminate|].
           intro H. injection H as <-. apply prefix_app.
      * destruct (StatusCode resp =? 429)%Z;
          intro H; injection H as <-; reflexivity.
    + intro H. injection H as <-. apply prefix_app.
  - intro H. injection H as <-. apply prefix_app.
  - discriminate.
Qed.

Lemma Search_errors_are_prefixed_witness :
  prefix "saucenao search: "
    "saucenao search: unexpected status 500 Internal Server Error" = true.
Proof.
  exact (Search_errors_are_prefixed sampleRuntime
           (sampleClient (inl serverError)) plainRequest [] _ eq_refl).
Defined.

(** X3: once the request is built, [errors.As] finds a [QuotaError] in
    what [Search] returns exactly when the transport answered with status
    429: no transport failure, other status, unreadable body or body that
    does not decode is ever taken for rate limiting. *)
Theorem Search_quota_iff_429 {S} (rt : Runtime) (c : Client S)
    (r : SearchRequest) (st st' : S) (req : Request)
    (answer : Response + error) :
  requestForSearch rt c r = Ok req ->
  C c req st = (answer, st') ->
  (exists e, fst (Search rt c r st) = Fail e /\ AsQuotaError e = true)
  <-> (exists resp, answer = inl resp /\ StatusCode resp = 429%Z).
Proof.
  intros Hreq Hdo. unfold Search. rewrite Hreq, Hdo. cbn [fst].
  destruct answer as [resp|err].
  - unfold handleResponse, ReadAll. split.
    + intros (e & He & Hq). exists resp. split; [reflexivity|].
      destruct (Z.eqb_spec (StatusCode resp) 200) as [E|E].
      * destruct (failure (Body resp)).
        -- injection He as <-. discriminate Hq.
        -- destruct (UnmarshalSearchResponse _); [discriminate|].
           injection He as <-. discriminate Hq.
      * destruct (Z.eqb_spec (StatusCode resp) 429) as [E'|E'];
          [exact E'|]. injection He as <-. discriminate Hq.
    + intros (resp' & Hr & H429). injection Hr as <-.
      rewrite H429. cbn. eexists. split; reflexivity.
  - split.
    + intros (e & He & Hq). injection He as <-. discriminate Hq.
    + intros (resp & Hr & _). discriminate Hr.
Qed.

Lemma Search_quota_iff_429_witness :
  (exists e,
     fst (Search sampleRuntime (sampleClient (inl rateLimited))
            plainRequest []) = Fail e
     /\ AsQuotaError e = true)
  <-> (exists resp, @inl Response error rateLimited = inl resp
                    /\ StatusCode resp = 429%Z).
Proof.
  exact (Search_quota_iff_429 sampleRuntime (sampleClient (inl rateLimited))
           plainRequest [] _ _ (inl rateLimited) eq_refl eq_refl).
Defined.

(** X4: what the test [TestClient_Search_image] checks on one input holds
    for every image whose stream ends well: whatever the transport
    answers, [Search] hands it exactly one request, a POST whose body
    reads back as the single part [file] / [image] holding the bytes of
    the stream (the boundary line taken not to occur in them). *)
Theorem Search_hands_image_to_transport (rt : Runtime)
    (answer : Response + error) (service apiKey : string)
    (r : SearchRequest) (image : Reader) (log : list Request) :
  wfRuntime rt ->
  ImageBytes r = Some image ->
  failure image = None ->
  parseURL rt (searchURL (spyClient answer service apiKey) r) = None ->
  boundaryFree (randomBoundary rt) (List.concat (chunks image)) ->
  exists req p,
    snd (Search rt (spyClient answer service apiKey) r log)
    = (log ++ [req])%list
    /\ Method req = "POST"
    /\ requestParts req = Some [p]
    /\ FormName p = "file"
    /\ FileName p = "image"
    /\ PartContent p = List.concat (chunks image).
Proof.
  intros Hrt Himg Hok Hurl Hfree.
  destruct (randomBoundary_hex rt Hrt) as [Hhex Hne].
  unfold Search.
  rewrite (requestForSearch_image rt _ r image Himg Hok Hurl).
  unfold spyClient at 1. cbn [C]. unfold spyTransport.
  eexists. eexists. split; [destruct answer; reflexivity|].
  split; [reflexivity|]. split.
  - now apply requestParts_multipart.
  - repeat split.
Qed.

Lemma Search_hands_image_to_transport_witness :
  exists req p,
    snd (Search sampleRuntime (spyClient (inl serverError)
                                 "https://example.com" "amiya")
           imageRequest [])
    = [req]
    /\ Method req = "POST"
    /\ requestParts req = Some [p]
    /\ FormName p = "file"
    /\ FileName p = "image"
    /\ PartContent p = list_byte_of_string "eyjafjalla".
Proof.
  refine (Search_hands_image_to_transport sampleRuntime (inl serverError)
            "https://example.com" "amiya" imageRequest
            (mkReader [list_byte_of_string "eyjafjalla"] None) [] _ _ _ _ _);
    reflexivity.
Defined.

(** ** Decoding: members without a field, the [,string] option *)


Lemma storeMembers_app {T} (fields : list (field T))
    (ms1 ms2 : list (string * (list byte * json))) :
  forall (t : T) (saved : option error),
  storeMembers fields (ms1 ++ ms2) t saved
  = match storeMembers fields ms1 t saved with
    | inl (t', saved') => storeMembers fields ms2 t' saved'
    | inr err => inr err
    end.
Proof.
  induction ms1 as [|m ms1 IH]; intros t saved; [reflexivity|].
  rewrite <- app_comm_cons, storeMembers_cons, (storeMembers_cons _ m ms1).
  destruct (storeMembers fields [m] t saved) as [[t' s']|err];
    [apply IH | reflexivity].
Qed.



Lemma storeQuoted_int_accepts {T} (pl : place) (set : Z -> T -> T)
    (v : json) (t t' : T) :
  storeQuoted pl (storeIntLit pl set) v t None = inl (t', None)
  <-> quotedOutcome ParseInt set v t t'.
Proof.
  unfold quotedOutcome. split.
  - destruct v as [|bv|lit|item|elems|mems]; cbn [storeQuoted];
      try discriminate.
    + intro H. injection H as <-. now left.
    + destruct item as [|c rest]; [discriminate|].
      unfold storeQuotedItem.
      destruct (Ascii.eqb c "n") eqn:En.
      { destruct (String.eqb_spec (String c rest) "null") as [E|E];
          [|discriminate].
        intro H. injection H as <-. right. left. now rewrite E. }
      destruct (Ascii.eqb c "t" || Ascii.eqb c "f") eqn:Etf;
        [discriminate|].
      destruct (Ascii.eqb c "034") eqn:Eq.
      { destruct (scanString _ _) as [[s' [|b l]]|e]; discriminate. }
      destruct (Ascii.eqb c "-" || isDigit (byte_of_ascii c)) eqn:Enum;
        [|discriminate].
      unfold storeIntLit.
      destruct (ParseInt (String c rest)) as [n|] eqn:Ep; [|discriminate].
      intro H. injection H as <-. right. right.
      exists (String c rest), n. repeat split; assumption.
  - intros [[-> ->]|[[-> ->]|(s & n & -> & Hs & Hp & ->)]].
    + reflexivity.
    + reflexivity.
    + cbn [storeQuoted]. rewrite storeQuotedItem_number by exact Hs.
      unfold storeIntLit. now rewrite Hp.
Qed.

Lemma storeQuoted_float_accepts {T} (pl : place) (set : float64 -> T -> T)
    (v : json) (t t' : T) :
  storeQuoted pl (storeFloatLit pl set) v t None = inl (t', None)
  <-> quotedOutcome ParseFloat set v t t'.
Proof.
  unfold quotedOutcome. split.
  - destruct v as [|bv|lit|item|elems|mems]; cbn [storeQuoted];
      try discriminate.
    + intro H. injection H as <-. now left.
    + destruct item as [|c rest]; [discriminate|].
      unfold storeQuotedItem.
      destruct (Ascii.eqb c "n") eqn:En.
      { destruct (String.eqb_spec (String c rest) "null") as [E|E];
          [|discriminate].
        intro H. injection H as <-. right. left. now rewrite E. }
      destruct (Ascii.eqb c "t" || Ascii.eqb c "f") eqn:Etf;
        [discriminate|].
      destruct (Ascii.eqb c "034") eqn:Eq.
      { destruct (scanString _ _) as [[s' [|b l]]|e]; discriminate. }
      destruct (Ascii.eqb c "-" || isDigit (byte_of_ascii c)) eqn:Enum;
        [|discriminate].
      unfold storeFloatLit.
      destruct (ParseFloat (String c rest)) as [n|] eqn:Ep; [|discriminate].
      intro H. injection H as <-. right. right.
      exists (String c rest), n. repeat split; assumption.
  - intros [[-> ->]|[[-> ->]|(s & n & -> & Hs & Hp & ->)]].
    + reflexivity.
    + reflexivity.
    + cbn [storeQuoted]. rewrite storeQuotedItem_number by exact Hs.
      unfold storeFloatLit. now rewrite Hp.
Qed.

(** X6: the three fields tagged [,string] take a value without complaint
    in these cases only: [null], the string [null] (both leave the field
    as it was), and a string that begins with a digit or a minus sign and
    that [strconv] reads, which sets the field.  An empty string, a word,
    a number in quotes within quotes, a raw number: each ends in an
    error. *)
Theorem string_tagged_fields_accept (v : json) (h h' : SearchHeader)
    (rh rh' : SearchResultHeader) :
  (headerMember "short_limit" v h = inl (h', None)
   <-> quotedOutcome ParseInt setShortLimit v h h')
  /\ (headerMember "Long_limit" v h = inl (h', None)
      <-> quotedOutcome ParseInt setLongLimit v h h')
  /\ (resultHeaderMember "similarity" v rh = inl (rh', None)
      <-> quotedOutcome ParseFloat setSimilarity v rh rh').
Proof.
  assert (Hm : forall {T} (x : (T * option error) + error),
             match x with
             | inl (t1, s1) => inl (t1, s1)
             | inr err => inr err
             end = x) by (intros T [[t1 s1]|err]; reflexivity).
  split; [|split].
  - unfold headerMember. cbn [storeMembers].
    change (findField searchHeaderFields "short_limit")
      with (Some (quotedInt "SearchHeader" "short_limit" setShortLimit)).
    cbn [store quotedInt]. rewrite Hm. apply storeQuoted_int_accepts.
  - unfold headerMember. cbn [storeMembers].
    change (findField searchHeaderFields "Long_limit")
      with (Some (quotedInt "SearchHeader" "Long_limit" setLongLimit)).
    cbn [store quotedInt]. rewrite Hm. apply storeQuoted_int_accepts.
  - unfold resultHeaderMember. cbn [storeMembers].
    change (findField searchResultHeaderFields "similarity")
      with (Some (quotedFloat "SearchResultHeader" "similarity"
                    setSimilarity)).
    cbn [store quotedFloat]. rewrite Hm. apply storeQuoted_float_accepts.
Qed.

Lemma string_tagged_fields_accept_witness :
  headerMember "short_limit" (JString "6") zeroSearchHeader
  = inl (setShortLimit 6 zeroSearchHeader, None).
Proof.
  apply (proj1 (string_tagged_fields_accept (JString "6") zeroSearchHeader
                  (setShortLimit 6 zeroSearchHeader)
                  zeroSearchResultHeader zeroSearchResultHeader)).
  right. right. exists "6", 6%Z. repeat split.
Defined.

(** ** Decoding: integers stay within [int] *)














(** ** Decoding: the order of the members *)

Lemma equalFold_same (F k1 k2 : string) :
  equalFold F k1 = true -> equalFold F k2 = true -> foldKey k1 = foldKey k2.
Proof.
  unfold equalFold. intros H1 H2.
  apply String.eqb_eq in H1, H2. congruence.
Qed.

(** A fold whose step looks only at the members of one name gives the
    same result on every arrangement of members with different keys. *)
Lemma fold_left_perm {A} (step : A -> member -> A) (F : string) :
  (forall acc m, equalFold F (fst m) = false -> step acc m = acc) ->
  forall ms ms', Permutation ms ms' ->
  NoDup (foldedKeys ms) ->
  forall init, fold_left step ms init = fold_left step ms' init.
Proof.
  intros Hstep ms ms' Hperm.
  induction Hperm as [|x l l' Hp IH|x y l|l l' l'' Hp1 IH1 Hp2 IH2];
    intros Hnd init.
  - reflexivity.
  - cbn [fold_left]. apply IH. now inversion Hnd.
  - cbn [fold_left]. cbn [foldedKeys map] in Hnd.
    destruct (equalFold F (fst y)) eqn:Ey.
    + destruct (equalFold F (fst x)) eqn:Ex.
      * exfalso. inversion Hnd as [|? ? Hnotin _]; subst.
        apply Hnotin. left. symmetry. exact (equalFold_same F _ _ Ey Ex).
      * now rewrite !(Hstep _ x Ex).
    + now rewrite !(Hstep _ y Ey).
  - rewrite (IH1 Hnd). apply IH2.
    unfold foldedKeys.
    exact (Permutation_NoDup (Permutation_map _ Hp1) Hnd).
Qed.

Lemma decoded_perm (ms ms' : list member) (d : DanbooruData) :
  Permutation ms ms' -> NoDup (foldedKeys ms) ->
  decoded ms d = decoded ms' d.
Proof.
  intros Hp Hnd. unfold decoded, lastInt, lastString, lastStrings.
  rewrite (fold_left_perm (stringsStep "ext_urls") "ext_urls") with (ms' := ms')
    by (try assumption; intros acc m Hm; unfold stringsStep; now rewrite Hm).
  rewrite (fold_left_perm (intStep "danbooru_id") "danbooru_id")
    with (ms' := ms')
    by (try assumption; intros acc m Hm; unfold intStep; now rewrite Hm).
  rewrite (fold_left_perm (stringStep "source") "source") with (ms' := ms')
    by (try assumption; intros acc m Hm; unfold stringStep; now rewrite Hm).
  rewrite (fold_left_perm (stringStep "characters") "characters")
    with (ms' := ms')
    by (try assumption; intros acc m Hm; unfold stringStep; now rewrite Hm).
  rewrite (fold_left_perm (stringStep "material") "material")
    with (ms' := ms')
    by (try assumption; intros acc m Hm; unfold stringStep; now rewrite Hm).
  rewrite (fold_left_perm (stringStep "creator") "creator") with (ms' := ms')
    by (try assumption; intros acc m Hm; unfold stringStep; now rewrite Hm).
  reflexivity.
Qed.

Lemma forallb_perm {A} (p : A -> bool) (l l' : list A) :
  Permutation l l' -> forallb p l = forallb p l'.
Proof.
  intro H. induction H; cbn [forallb]; try congruence.
  now rewrite !andb_assoc, (andb_comm (p y)).
Qed.

(** X8: in a Danbooru payload the order of the members does not matter:
    two arrangements of the same members, their keys different under
    folding, decode to the same data, and one arrangement is refused
    exactly when the other is. *)
Theorem payload_order_is_irrelevant (ms ms' : list member)
    (d : DanbooruData) :
  NoDup (foldedKeys ms) ->
  Permutation ms ms' ->
  exists x s s',
    storeMembers danbooruDataFields ms d None = inl (x, s)
    /\ storeMembers danbooruDataFields ms' d None = inl (x, s')
    /\ (s = None <-> s' = None).
Proof.
  intros Hnd Hp.
  destruct (storeMembers_danbooru ms d None) as (s & Hs & Hok & Hbad).
  destruct (storeMembers_danbooru ms' d None) as (s' & Hs' & Hok' & Hbad').
  exists (decoded ms d), s, s'. split; [exact Hs|]. split.
  - now rewrite (decoded_perm ms ms' d Hp Hnd).
  - rewrite <- (forallb_perm memberFits ms ms' Hp) in Hok', Hbad'.
    destruct (forallb memberFits ms).
    + now rewrite (Hok eq_refl), (Hok' eq_refl).
    + destruct (Hbad eq_refl) as (e & _ & ->).
      destruct (Hbad' eq_refl) as (e' & _ & ->).
      split; discriminate.
Qed.

Lemma payload_order_is_irrelevant_witness :
  exists x s s',
    storeMembers danbooruDataFields
      [("source", ([], JString "x")); ("danbooru_id", ([], JNumber "7"))]
      zeroDanbooruData None = inl (x, s)
    /\ storeMembers danbooruDataFields
         [("danbooru_id", ([], JNumber "7")); ("source", ([], JString "x"))]
         zeroDanbooruData None = inl (x, s')
    /\ (s = None <-> s' = None).
Proof.
  apply payload_order_is_irrelevant.
  - repeat constructor; cbn; intuition discriminate.
  - apply perm_swap.
Defined.

(** ** Reading a rendered URL back *)

Lemma unescapeLoop_escapeChar (c : ascii) (t : string) :
  unescapeLoop (escapeChar c ++ t) = String c (unescapeLoop t).
Proof.
  destruct c as [[] [] [] [] [] [] [] []]; reflexivity.
Qed.

Lemma unescapeLoop_QueryEscape (s : string) :
  unescapeLoop (QueryEscape s) = s.
Proof.
  induction s as [|c s IH]; [reflexivity|].
  now rewrite QueryEscape_cons, unescapeLoop_escapeChar, IH.
Qed.

Lemma QueryEscape_inj (s s' : string) :
  QueryEscape s = QueryEscape s' -> s = s'.
Proof.
  intro H. rewrite <- (unescapeLoop_QueryEscape s), H.
  apply unescapeLoop_QueryEscape.
Qed.

Lemma to_uint_nonnil (x : N) : N.to_uint x <> Decimal.Nil.
Proof.
  destruct x as [|p]; [discriminate | apply Unsigned.to_uint_nonnil].
Qed.

Lemma FormatUint_inj (x y : N) : FormatUint x = FormatUint y -> x = y.
Proof.
  unfold FormatUint. intro H.
  apply (f_equal NilZero.uint_of_string) in H.
  rewrite !NilZero.usu in H by apply to_uint_nonnil.
  injection H as H. now apply DecimalN.Unsigned.to_uint_inj.
Qed.

Lemma digits_of_uint (d : Decimal.uint) :
  allChars isDecimal (NilEmpty.string_of_uint d) = true.
Proof. induction d; simpl; auto. Qed.

Lemma FormatUint_digits (x : N) : allChars isDecimal (FormatUint x) = true.
Proof.
  unfold FormatUint, NilZero.string_of_uint.
  destruct (N.to_uint x) eqn:E; try reflexivity;
    rewrite <- E; try apply digits_of_uint.
  all: rewrite E; apply (digits_of_uint).
Qed.

Lemma allChars_impl (p q : ascii -> bool) (s : string) :
  (forall c, p c = true -> q c = true) ->
  allChars p s = true -> allChars q s = true.
Proof.
  intro H. induction s as [|c s IH]; simpl; [reflexivity|].
  intro Hs. apply andb_true_iff in Hs as [Hc Hs].
  now rewrite (H c Hc), IH.
Qed.

Lemma cut_app (sep : ascii) (a b : string) :
  noChar sep a = true -> cut sep (a ++ String sep b) = Some (a, b).
Proof.
  unfold noChar. induction a as [|c a IH]; simpl.
  - now rewrite Ascii.eqb_refl.
  - intro H. apply andb_true_iff in H as [Hc Ha].
    apply negb_true_iff in Hc. rewrite Hc, (IH Ha). reflexivity.
Qed.

Lemma splitOn_none (sep : ascii) (a : string) :
  noChar sep a = true -> splitOn sep a = [a].
Proof.
  unfold noChar. induction a as [|c a IH]; simpl; [reflexivity|].
  intro H. apply andb_true_iff in H as [Hc Ha].
  apply negb_true_iff in Hc. rewrite Hc, (IH Ha). reflexivity.
Qed.

Lemma splitOn_app (sep : ascii) (a b : string) :
  noChar sep a = true ->
  splitOn sep (a ++ String sep b) = a :: splitOn sep b.
Proof.
  unfold noChar. induction a as [|c a IH]; simpl.
  - now rewrite Ascii.eqb_refl.
  - intro H. apply andb_true_iff in H as [Hc Ha].
    apply negb_true_iff in Hc. rewrite Hc, (IH Ha). reflexivity.
Qed.

Lemma noChar_app (sep : ascii) (a b : string) :
  noChar sep (a ++ b) = noChar sep a && noChar sep b.
Proof. apply allChars_app. Qed.

Lemma plainParam_piece (kv : string * string) :
  plainParam kv = true ->
  noChar "&" (fst kv ++ "=" ++ snd kv) = true
  /\ cut "=" (fst kv ++ "=" ++ snd kv) = Some kv.
Proof.
  unfold plainParam. intro H.
  apply andb_true_iff in H as [H Hv]. apply andb_true_iff in H as [Hk Hk'].
  split.
  - rewrite noChar_app, Hk'. cbn. exact Hv.
  - change (fst kv ++ "=" ++ snd kv) with (fst kv ++ String "=" (snd kv)).
    rewrite (cut_app _ _ _ Hk). now destruct kv.
Qed.

Lemma splitOn_joinParams (ps : list (string * string)) :
  ps <> [] -> forallb plainParam ps = true ->
  splitOn "&" (joinParams ps) = map (fun kv => fst kv ++ "=" ++ snd kv) ps.
Proof.
  induction ps as [|[k v] ps IH]; [congruence|]. intros _ H.
  cbn [forallb] in H. apply andb_true_iff in H as [Hkv Hps].
  destruct (plainParam_piece _ Hkv) as [Hn _]. cbn [fst snd] in Hn.
  destruct ps as [|p ps].
  - cbn [joinParams map fst snd]. now apply splitOn_none.
  - change (joinParams ((k, v) :: p :: ps))
      with (k ++ "=" ++ v ++ "&" ++ joinParams (p :: ps)).
    replace (k ++ "=" ++ v ++ "&" ++ joinParams (p :: ps))
      with ((k ++ "=" ++ v) ++ String "&" (joinParams (p :: ps)))
      by (now rewrite !append_assoc).
    rewrite (splitOn_app _ _ _ Hn), IH by (congruence || assumption).
    reflexivity.
Qed.

Lemma queryPairs_joinParams (service : string) (ps : list (string * string)) :
  noChar "?" service = true -> ps <> [] -> forallb plainParam ps = true ->
  queryPairs (service ++ "?" ++ joinParams ps) = ps.
Proof.
  intros Hs Hne Hps. unfold queryPairs.
  change (service ++ "?" ++ joinParams ps)
    with (service ++ String "?" (joinParams ps)).
  rewrite (cut_app _ _ _ Hs), (splitOn_joinParams ps Hne Hps).
  clear Hne. induction ps as [|kv ps IH]; [reflexivity|].
  cbn [forallb] in Hps. apply andb_true_iff in Hps as [Hkv Hps].
  cbn [map]. rewrite (proj2 (plainParam_piece kv Hkv)), (IH Hps).
  reflexivity.
Qed.

Lemma noAmp_digit (c : ascii) : isDecimal c = true -> negb (Ascii.eqb c "&") = true.
Proof. destruct c as [[] [] [] [] [] [] [] []]; vm_compute; congruence. Qed.

Lemma noAmp_escaped (c : ascii) :
  isEscaped c = true -> negb (Ascii.eqb c "&") = true.
Proof. destruct c as [[] [] [] [] [] [] [] []]; vm_compute; congruence. Qed.

Lemma specParams_plain (key : string) (r : SearchRequest) :
  noChar "&" key = true -> forallb plainParam (specParams key r) = true.
Proof.
  intro Hk.
  assert (Hd : forall x, noChar "&" (FormatUint x) = true)
    by (intro x; exact (allChars_impl _ _ _ noAmp_digit (FormatUint_digits x))).
  assert (He : noChar "&" (QueryEscape (URL r)) = true)
    by exact (allChars_impl _ _ _ noAmp_escaped (QueryEscape_chars (URL r))).
  unfold specParams.
  destruct (TestMode r), (DBMask r =? 0), (DBMaskI r =? 0),
    (String.eqb (URL r) EmptyString);
    cbn [app forallb]; unfold plainParam; cbn [fst snd];
    rewrite ?Hk, ?Hd, ?He; reflexivity.
Qed.

Lemma queryPairs_searchURL {S} (c : Client S) (r : SearchRequest) :
  wfSearchRequest r ->
  noChar "?" (Service c) = true -> noChar "&" (APIKey c) = true ->
  queryPairs (searchURL c r) = specParams (APIKey c) r.
Proof.
  intros Hwf Hs Hk. rewrite (searchURL_spec c r Hwf).
  replace (Service c ++ "/search.php?" ++ joinParams (specParams (APIKey c) r))
    with ((Service c ++ "/search.php") ++ "?"
          ++ joinParams (specParams (APIKey c) r))
    by (now rewrite append_assoc).
  apply queryPairs_joinParams.
  - rewrite noChar_app, Hs. reflexivity.
  - unfold specParams. discriminate.
  - now apply specParams_plain.
Qed.


Lemma string_app_inv_head (a x y : string) : a ++ x = a ++ y -> x = y.
Proof.
  induction a as [|c a IH]; simpl; [auto|].
  intro H. injection H as H. auto.
Qed.

Lemma specParams_inj (key : string) (r r' : SearchRequest) :
  specParams key r = specParams key r' -> sameSearch r r'.
Proof.
  unfold specParams, sameSearch. intro H.
  destruct (TestMode r), (TestMode r');
    destruct (N.eqb_spec (DBMask r) 0) as [M|M],
             (N.eqb_spec (DBMask r') 0) as [M'|M'];
    destruct (N.eqb_spec (DBMaskI r) 0) as [I|I],
             (N.eqb_spec (DBMaskI r') 0) as [I'|I'];
    destruct (String.eqb_spec (URL r) EmptyString) as [U|U],
             (String.eqb_spec (URL r') EmptyString) as [U'|U'];
    cbn [app] in H; try discriminate H;
    injection H; intros;
    repeat match goal with
           | E : FormatUint _ = FormatUint _ |- _ =>
               apply FormatUint_inj in E
           | E : QueryEscape _ = QueryEscape _ |- _ =>
               apply QueryEscape_inj in E
           end;
    repeat split; congruence.
Qed.

(** X9: the URL tells the requests apart: two requests for which the same
    client renders the same URL agree on the image URL, the test mode, both
    masks and the number of results, whatever the service and the key
    are. *)
Theorem searchURL_determines_request {S} (c : Client S)
    (r r' : SearchRequest) :
  wfSearchRequest r -> wfSearchRequest r' ->
  searchURL c r = searchURL c r' -> sameSearch r r'.
Proof.
  intros Hwf Hwf' H.
  apply (specParams_inj EmptyString).
  pose proof (queryPairs_searchURL bareClient r Hwf eq_refl eq_refl) as E.
  pose proof (queryPairs_searchURL bareClient r' Hwf' eq_refl eq_refl) as E'.
  cbn [APIKey bareClient] in E, E'. rewrite <- E, <- E'. clear E E'.
  f_equal. unfold searchURL in *. cbn [Service APIKey bareClient].
  apply string_app_inv_head in H.
  apply (string_app_inv_head "/search.php?output_type=2&api_key=") in H.
  apply string_app_inv_head in H.
  now rewrite H.
Qed.

Lemma searchURL_determines_request_witness :
  sameSearch imageAndURLRequest (withoutImage imageAndURLRequest).
Proof.
  apply (searchURL_determines_request (sampleClient (inr QuotaErr))).
  - repeat split.
  - repeat split.
  - reflexivity.
Defined.










(** ** Decoding: the case of the keys *)

Lemma find_exact_is_fold {T} (fields : list (field T)) (k : string)
    (f : field T) :
  NoDup (foldedNames fields) ->
  find (fun f => String.eqb (name f) k) fields = Some f ->
  find (fun f => equalFold (name f) k) fields = Some f.
Proof.
  induction fields as [|g fields IH]; [discriminate|].
  cbn [foldedNames map find]. intros Hnd H.
  inversion Hnd as [|? ? Hnotin Hnd']; subst.
  destruct (String.eqb_spec (name g) k) as [E|E].
  - unfold equalFold. now rewrite E, String.eqb_refl.
  - destruct (equalFold (name g) k) eqn:Ef.
    + exfalso. apply Hnotin.
      apply find_some in H as [Hin Hk]. apply String.eqb_eq in Hk.
      unfold equalFold in Ef. apply String.eqb_eq in Ef.
      rewrite Ef, <- Hk.
      exact (in_map (fun f => foldKey (name f)) fields f Hin).
    + now apply IH.
Qed.

Lemma findField_by_fold {T} (fields : list (field T)) (k : string) :
  NoDup (foldedNames fields) ->
  findField fields k = find (fun f => equalFold (name f) k) fields.
Proof.
  intro Hnd. unfold findField.
  destruct (find (fun f => String.eqb (name f) k) fields) as [f|] eqn:E;
    [|reflexivity].
  symmetry. now apply find_exact_is_fold.
Qed.

Lemma findField_fold_eq {T} (fields : list (field T)) (k k' : string) :
  NoDup (foldedNames fields) -> foldKey k = foldKey k' ->
  findField fields k = findField fields k'.
Proof.
  intros Hnd Hk. rewrite !findField_by_fold by assumption.
  unfold equalFold. now rewrite Hk.
Qed.

Ltac distinct_names :=
  repeat (constructor; [cbn; intuition discriminate|]); constructor.

(** X12: a key is matched without regard to the case of its letters: in
    none of the five structs do two field names fold to the same letters,
    and for such a struct a member decodes the same under every key that
    folds like its own, [STATUS] like [status]. *)
Theorem keys_match_without_case :
  (NoDup (foldedNames searchResponseFields)
   /\ NoDup (foldedNames searchHeaderFields)
   /\ NoDup (foldedNames searchResultFields)
   /\ NoDup (foldedNames searchResultHeaderFields)
   /\ NoDup (foldedNames danbooruDataFields))
  /\ forall T (fields : list (field T)) ms1 k k' x ms2 t saved,
       NoDup (foldedNames fields) ->
       foldKey k = foldKey k' ->
       storeMembers fields (ms1 ++ (k, x) :: ms2) t saved
       = storeMembers fields (ms1 ++ (k', x) :: ms2) t saved.
Proof.
  split.
  - repeat split; distinct_names.
  - intros T fields ms1 k k' [raw v] ms2 t saved Hnd Hk.
    rewrite !storeMembers_app.
    destruct (storeMembers fields ms1 t saved) as [[t1 s1]|e]; [|reflexivity].
    cbn [storeMembers]. now rewrite (findField_fold_eq fields k k' Hnd Hk).
Qed.

Lemma keys_match_without_case_witness :
  storeMembers searchHeaderFields
    [("LONG_LIMIT", ([], JString "7"))] zeroSearchHeader None
  = storeMembers searchHeaderFields
      [("Long_limit", ([], JString "7"))] zeroSearchHeader None.
Proof.
  apply (proj2 keys_match_without_case SearchHeader searchHeaderFields []).
  - exact (proj1 (proj2 (proj1 keys_match_without_case))).
  - reflexivity.
Defined.

(** ** The raw text of a member parses on its own *)

Lemma sameHead_nil (r : list byte) : sameHead r [].
Proof. now left. Qed.

Lemma sameHead_cons (c : byte) (t t' : list byte) :
  sameHead (c :: t) (c :: t').
Proof. right. now exists c, t, t'. Qed.

Lemma skipSpace_local (l : list byte) :
  exists ws, l = (ws ++ skipSpace l)%list
    /\ forall r', sameHead (skipSpace l) r' -> skipSpace (ws ++ r') = r'.
Proof.
  induction l as [|c t (ws & E & H)].
  - exists []. split; [reflexivity|]. intros r' [->|(c & t & t' & E & _)];
      [reflexivity | discriminate E].
  - cbn [skipSpace]. destruct (isJSONSpace c) eqn:Ec.
    + exists (c :: ws). split.
      * cbn. now rewrite <- E.
      * intros r' Hr. cbn. rewrite Ec. now apply H.
    + exists []. split; [reflexivity|].
      intros r' [->|(c0 & t0 & t' & E0 & ->)]; [reflexivity|].
      injection E0 as <- <-. cbn. now rewrite Ec.
Qed.

Lemma scanLiteral_local (word expect : string) : forall l rest,
  scanLiteral word expect l = inl rest ->
  exists pre, l = (pre ++ rest)%list
    /\ forall r', scanLiteral word expect (pre ++ r') = inl r'.
Proof.
  induction expect as [|e expect IH]; intros l rest H; cbn [scanLiteral] in H.
  - injection H as <-. now exists [].
  - destruct l as [|c t]; [discriminate|].
    destruct (Ascii.eqb (ascii_of_byte c) e) eqn:Ec; [|discriminate].
    destruct (IH t rest H) as (pre & -> & Hl).
    exists (c :: pre). split; [reflexivity|].
    intro r'. cbn. now rewrite Ec.
Qed.

Lemma hexDigits_local (n : nat) : forall acc l v rest,
  hexDigits n acc l = inl (v, rest) ->
  exists pre, l = (pre ++ rest)%list /\ List.length pre = n
    /\ forall r', hexDigits n acc (pre ++ r') = inl (v, r').
Proof.
  induction n as [|n IH]; intros acc l v rest H; cbn [hexDigits] in H.
  - injection H as <- <-. now exists [].
  - destruct l as [|c t]; [discriminate|].
    destruct (hexValue c) as [h|] eqn:Eh; [|discriminate].
    destruct (IH _ t v rest H) as (pre & -> & Hn & Hl).
    exists (c :: pre). split; [reflexivity|]. split; [cbn; now rewrite Hn|].
    intro r'. cbn. now rewrite Eh.
Qed.

Lemma peekU4_local (l : list byte) (v : N) (rest : list byte) :
  peekU4 l = Some (v, rest) ->
  exists pre, l = (pre ++ rest)%list /\ List.length pre = 6%nat
    /\ forall r', peekU4 (pre ++ r') = Some (v, r').
Proof.
  unfold peekU4. destruct l as [|b1 [|b2 t]]; try discriminate.
  destruct (Byte.eqb b1 x5c && Byte.eqb b2 x75) eqn:Eb; [|discriminate].
  unfold getu4. destruct (hexDigits 4 0 t) as [[v' rest']|e] eqn:Eh;
    [|discriminate].
  intro H. injection H as <- <-.
  destruct (hexDigits_local _ _ _ _ _ Eh) as (pre & -> & Hn & Hl).
  exists (b1 :: b2 :: pre). split; [reflexivity|].
  split; [cbn; now rewrite Hn|].
  intro r'.
  change ((b1 :: b2 :: pre) ++ r')%list with (b1 :: b2 :: (pre ++ r'))%list.
  unfold peekU4, getu4. now rewrite Eb, Hl.
Qed.

Lemma scanString_step (fuel' : nat) (c : byte) (t : list byte) :
  scanString (Datatypes.S fuel') (c :: t)
  = if Byte.eqb c x22 then inl (EmptyString, t)
    else if (Byte.to_N c <? 32)%N then
      inr (errInvalidChar c "in string literal")
    else if Byte.eqb c x5c then
      match t with
      | [] => inr errUnexpectedEnd
      | e :: t' =>
          if Byte.eqb e x75 then
            match getu4 t' with
            | inr err => inr err
            | inl (r1, rest1) =>
                let (rr, rest2) :=
                  if isSurrogate r1 then
                    match peekU4 rest1 with
                    | Some (r2, rest2) =>
                        if (decodeSurrogates r1 r2 =? replacementChar)%N
                        then (replacementChar, rest1)
                        else (decodeSurrogates r1 r2, rest2)
                    | None => (replacementChar, rest1)
                    end
                  else (r1, rest1) in
                match scanString fuel' rest2 with
                | inl (s, rest) => inl (encodeRune rr ++ s, rest)
                | inr err => inr err
                end
            end
          else
            match simpleEscape e with
            | Some ch =>
                match scanString fuel' t' with
                | inl (s, rest) => inl (String ch s, rest)
                | inr err => inr err
                end
            | None => inr (errInvalidChar e "in string escape code")
            end
      end
    else
      match scanString fuel' t with
      | inl (s, rest) => inl (String (ascii_of_byte c) s, rest)
      | inr err => inr err
      end.
Proof.
  cbn [scanString].
  destruct (Byte.eqb c x22); [reflexivity|].
  destruct (Byte.to_N c <? 32)%N; [reflexivity|].
  destruct (Byte.eqb c x5c); [|reflexivity].
  destruct t as [|e t']; [reflexivity|].
  destruct e; reflexivity.
Qed.

Lemma peekAlike_plain (c : byte) (pre : list byte) :
  Byte.eqb c x5c = false -> peekAlike (c :: pre).
Proof.
  intros Hc r r'. cbn [app]. unfold peekU4.
  destruct (pre ++ r)%list, (pre ++ r')%list; rewrite ?Hc; cbn [andb]; auto.
Qed.

Lemma peekAlike_simple (c e : byte) (pre : list byte) :
  Byte.eqb e x75 = false -> peekAlike (c :: e :: pre).
Proof.
  intros He r r'. cbn [app]. unfold peekU4.
  rewrite He, andb_false_r. exact I.
Qed.

Lemma peekAlike_u (c e : byte) (p4 more : list byte) (r1 : N) :
  Byte.eqb c x5c = true -> Byte.eqb e x75 = true ->
  (forall r', hexDigits 4 0 (p4 ++ r') = inl (r1, r')) ->
  peekAlike (c :: e :: p4 ++ more).
Proof.
  intros Hc He Hl r r'. cbn [app]. unfold peekU4.
  rewrite Hc, He. cbn [andb]. unfold getu4.
  rewrite <- !app_assoc, !Hl. split; [reflexivity|].
  now exists more.
Qed.

Lemma scanString_local (fuel : nat) : forall l s rest,
  scanString fuel l = inl (s, rest) ->
  exists pre, l = (pre ++ rest)%list /\ pre <> [] /\ peekAlike pre
    /\ forall r' f', (List.length pre < f')%nat ->
         scanString f' (pre ++ r') = inl (s, r').
Proof.
  induction fuel as [|fuel IH]; intros l s rest H; [discriminate|].
  destruct l as [|c t]; [discriminate|].
  rewrite scanString_step in H.
  destruct (Byte.eqb c x22) eqn:Eq.
  { injection H as <- <-. exists [c]. repeat split.
    - discriminate.
    - apply peekAlike_plain. destruct c; try discriminate Eq; reflexivity.
    - intros r' f' Hf. destruct f' as [|f']; [cbn in Hf; lia|].
      cbn [app]. now rewrite scanString_step, Eq. }
  destruct (Byte.to_N c <? 32)%N eqn:Ec; [discriminate|].
  destruct (Byte.eqb c x5c) eqn:Eb.
  - destruct t as [|e t']; [discriminate|].
    destruct (Byte.eqb e x75) eqn:Eu.
    + destruct (getu4 t') as [[r1 rest1]|err] eqn:Eg; [|discriminate].
      destruct (hexDigits_local _ _ _ _ _ Eg) as (p4 & -> & Hn4 & Hl4).
      assert (Hstart : forall more r' f' k,
                 (forall f'', (List.length more < f'')%nat ->
                    (let (rr, rest2) :=
                       if isSurrogate r1 then
                         match peekU4 (more ++ r') with
                         | Some (r2, rest2) =>
                             if (decodeSurrogates r1 r2 =? replacementChar)%N
                             then (replacementChar, (more ++ r')%list)
                             else (decodeSurrogates r1 r2, rest2)
                         | None => (replacementChar, (more ++ r')%list)
                         end
                       else (r1, (more ++ r')%list) in
                     match scanString f'' rest2 with
                     | inl (s, rest) => inl (encodeRune rr ++ s, rest)
                     | inr err => inr err
                     end) = k) ->
                 (List.length (c :: e :: p4 ++ more) < f')%nat ->
                 scanString f' ((c :: e :: p4 ++ more) ++ r') = k).
      { intros more r' f' k Hk Hf. destruct f' as [|f']; [cbn in Hf; lia|].
        cbn [app]. rewrite scanString_step, Eq, Ec, Eb, Eu.
        unfold getu4. rewrite <- app_assoc, Hl4. apply Hk.
        cbn [List.length] in Hf. rewrite length_app in Hf. lia. }
      destruct (isSurrogate r1) eqn:Esur;
        [destruct (peekU4 rest1) as [[r2 rest2p]|] eqn:Epk;
         [destruct (decodeSurrogates r1 r2 =? replacementChar)%N eqn:Ed|]|].
      * destruct (scanString fuel rest1) as [[s' rest']|] eqn:Er;
          [|discriminate]. injection H as <- <-.
        destruct (IH _ _ _ Er) as (pre & -> & Hne & Hp & Hl).
        exists (c :: e :: p4 ++ pre). split; [cbn [app]; now rewrite <- ?app_assoc|].
        split; [discriminate|]. split; [now apply (peekAlike_u c e p4 pre r1)|].
        intros r' f' Hf. apply (Hstart pre r' f'); [|exact Hf].
        intros f'' Hf''. specialize (Hp rest' r'). rewrite Epk in Hp.
        destruct (peekU4 (pre ++ r')) as [[b y]|]; [|contradiction].
        destruct Hp as [<- _]. rewrite Ed. now rewrite (Hl r' f'' Hf'').
      * destruct (scanString fuel rest2p) as [[s' rest']|] eqn:Er;
          [|discriminate]. injection H as <- <-.
        destruct (IH _ _ _ Er) as (pre & -> & Hne & Hp & Hl).
        destruct (peekU4_local _ _ _ Epk) as (p6 & -> & Hn6 & Hl6).
        exists (c :: e :: p4 ++ p6 ++ pre).
        split; [cbn [app]; now rewrite <- !app_assoc|].
        split; [discriminate|].
        split; [now apply (peekAlike_u c e p4 (p6 ++ pre) r1)|].
        intros r' f' Hf. apply (Hstart (p6 ++ pre)%list r' f'); [|exact Hf].
        intros f'' Hf''. rewrite <- app_assoc, Hl6, Ed.
        rewrite (Hl r' f''); [reflexivity|].
        rewrite length_app in Hf''. lia.
      * destruct (scanString fuel rest1) as [[s' rest']|] eqn:Er;
          [|discriminate]. injection H as <- <-.
        destruct (IH _ _ _ Er) as (pre & -> & Hne & Hp & Hl).
        exists (c :: e :: p4 ++ pre). split; [cbn [app]; now rewrite <- ?app_assoc|].
        split; [discriminate|]. split; [now apply (peekAlike_u c e p4 pre r1)|].
        intros r' f' Hf. apply (Hstart pre r' f'); [|exact Hf].
        intros f'' Hf''. specialize (Hp rest' r'). rewrite Epk in Hp.
        destruct (peekU4 (pre ++ r')) as [[b y]|]; [contradiction|].
        now rewrite (Hl r' f'' Hf'').
      * destruct (scanString fuel rest1) as [[s' rest']|] eqn:Er;
          [|discriminate]. injection H as <- <-.
        destruct (IH _ _ _ Er) as (pre & -> & Hne & Hp & Hl).
        exists (c :: e :: p4 ++ pre). split; [cbn [app]; now rewrite <- ?app_assoc|].
        split; [discriminate|]. split; [now apply (peekAlike_u c e p4 pre r1)|].
        intros r' f' Hf. apply (Hstart pre r' f'); [|exact Hf].
        intros f'' Hf''. now rewrite (Hl r' f'' Hf'').
    + destruct (simpleEscape e) as [ch|] eqn:Es; [|discriminate].
      destruct (scanString fuel t') as [[s' rest']|] eqn:Er; [|discriminate].
      injection H as <- <-.
      destruct (IH _ _ _ Er) as (pre & -> & Hne & Hp & Hl).
      exists (c :: e :: pre). split; [reflexivity|].
      split; [discriminate|]. split; [now apply peekAlike_simple|].
      intros r' f' Hf. destruct f' as [|f']; [cbn in Hf; lia|].
      cbn [app]. rewrite scanString_step, Eq, Ec, Eb, Eu, Es.
      rewrite (Hl r' f'); [reflexivity|]. cbn [List.length] in Hf. lia.
  - destruct (scanString fuel t) as [[s' rest']|] eqn:Er; [|discriminate].
    injection H as <- <-.
    destruct (IH _ _ _ Er) as (pre & -> & Hne & Hp & Hl).
    exists (c :: pre). split; [reflexivity|].
    split; [discriminate|]. split; [now apply peekAlike_plain|].
    intros r' f' Hf. destruct f' as [|f']; [cbn in Hf; lia|].
    cbn [app]. rewrite scanString_step, Eq, Ec, Eb.
    rewrite (Hl r' f'); [reflexivity|]. cbn [List.length] in Hf. lia.
Qed.


Lemma sameHead_app (pre rest r' : list byte) :
  sameHead rest r' -> sameHead (pre ++ rest) (pre ++ r').
Proof. destruct pre; [auto | intros _; apply sameHead_cons]. Qed.

Lemma scanNumber_parts (l : list byte) :
  scanNumber l
  = let (sign, l1) :=
      match l with
      | c :: t => if Byte.eqb c x2d then ("-", t) else (EmptyString, l)
      | [] => (EmptyString, l)
      end in
    match l1 with
    | [] => inr errUnexpectedEnd
    | c :: t =>
        if negb (isDigit c) then inr (errInvalidChar c "in numeric literal")
        else
          let (int, l2) := scanInteger c t in
          match scanFraction l2 with
          | inr err => inr err
          | inl (fr, l3) => scanExponent (sign ++ int ++ fr) l3
          end
    end.
Proof.
  unfold scanNumber, scanInteger, scanFraction, scanExponent.
  repeat match goal with
         | |- context [match ?x with _ => _ end] =>
             lazymatch x with
             | context [match _ with _ => _ end] => fail
             | _ => destruct x eqn:?
             end
         | |- context [if ?x then _ else _] => destruct x eqn:?
         end;
    cbn [app]; rewrite ?append_assoc; try reflexivity.
Qed.

Lemma takeDigits_local (l : list byte) : forall ds rest,
  takeDigits l = (ds, rest) ->
  exists pre, l = (pre ++ rest)%list
    /\ (forall c t, rest = c :: t -> isDigit c = false)
    /\ forall r', sameHead rest r' -> takeDigits (pre ++ r') = (ds, r').
Proof.
  induction l as [|c t IH]; intros ds rest H; cbn [takeDigits] in H.
  - injection H as <- <-. exists []. repeat split; [discriminate|].
    intros r' [->|(c & t & t' & E & _)]; [reflexivity | discriminate E].
  - destruct (isDigit c) eqn:Ec.
    + destruct (takeDigits t) as [ds' rest'] eqn:Et. injection H as <- <-.
      destruct (IH _ _ eq_refl) as (pre & -> & Hh & Hl).
      exists (c :: pre). repeat split; [exact Hh|].
      intros r' Hr. cbn [app takeDigits]. now rewrite Ec, (Hl r' Hr).
    + injection H as <- <-. exists []. repeat split.
      * intros c0 t0 E. injection E as <- <-. exact Ec.
      * intros r' [->|(c0 & t0 & t' & E & ->)]; [reflexivity|].
        injection E as <- <-. cbn [app takeDigits]. now rewrite Ec.
Qed.

(** Digits that begin with a digit are not empty. *)
Lemma takeDigits_some (e : byte) (t : list byte) (pre rest : list byte) :
  isDigit e = true -> (e :: t = pre ++ rest)%list ->
  (forall c t, rest = c :: t -> isDigit c = false) ->
  exists p, pre = e :: p.
Proof.
  intros He E Hh. destruct pre as [|x p].
  - cbn in E. symmetry in E. rewrite (Hh _ _ E) in He. discriminate.
  - injection E as -> _. now exists p.
Qed.

Lemma scanInteger_local (c : byte) (t : list byte) (int : string)
    (l2 : list byte) :
  isDigit c = true -> scanInteger c t = (int, l2) ->
  exists p, t = (p ++ l2)%list
    /\ forall r', sameHead l2 r' -> scanInteger c (p ++ r') = (int, r').
Proof.
  unfold scanInteger. intros Hc H. destruct (Byte.eqb c x30).
  - injection H as <- <-. now exists [].
  - destruct (takeDigits_local _ _ _ H) as (pre & E & Hh & Hl).
    destruct (takeDigits_some c t pre l2 Hc E Hh) as (p & ->).
    injection E as ->. exists p. split; [reflexivity|].
    intros r' Hr. exact (Hl r' Hr).
Qed.

Lemma scanFraction_local (l2 : list byte) (fr : string) (l3 : list byte) :
  scanFraction l2 = inl (fr, l3) ->
  exists pre, l2 = (pre ++ l3)%list
    /\ forall r', sameHead l3 r' -> scanFraction (pre ++ r') = inl (fr, r').
Proof.
  unfold scanFraction. intro H. destruct l2 as [|d t2].
  - injection H as <- <-. exists []. split; [reflexivity|].
    intros r' [->|(c & t & t' & E & _)]; [reflexivity | discriminate E].
  - destruct (Byte.eqb d x2e) eqn:Ed.
    + destruct t2 as [|e t]; [discriminate|].
      destruct (isDigit e) eqn:Ee; [|discriminate].
      destruct (takeDigits (e :: t)) as [ds l3'] eqn:Et. injection H as <- <-.
      destruct (takeDigits_local _ _ _ Et) as (pre & E & Hh & Hl).
      destruct (takeDigits_some e t pre l3' Ee E Hh) as (p & ->).
      exists (d :: e :: p). split; [cbn [app] in *; now rewrite E|].
      intros r' Hr. cbn [app]. rewrite Ed, Ee.
      change (e :: p ++ r')%list with ((e :: p) ++ r')%list.
      now rewrite (Hl r' Hr).
    + injection H as <- <-. exists []. split; [reflexivity|].
      intros r' [->|(c & t & t' & E & ->)]; [reflexivity|].
      injection E as <- <-. cbn [app]. now rewrite Ed.
Qed.

Lemma scanExponent_local (lit : string) (l3 : list byte) (s : string)
    (rest : list byte) :
  scanExponent lit l3 = inl (s, rest) ->
  exists pre, l3 = (pre ++ rest)%list
    /\ forall r', sameHead rest r' ->
         scanExponent lit (pre ++ r') = inl (s, r').
Proof.
  unfold scanExponent. intro H. destruct l3 as [|e t3].
  - injection H as <- <-. exists []. split; [reflexivity|].
    intros r' [->|(c & t & t' & E & _)]; [reflexivity | discriminate E].
  - destruct (Byte.eqb e x65 || Byte.eqb e x45) eqn:Ee.
    + destruct t3 as [|sg t4]; [discriminate|].
      destruct (Byte.eqb sg x2b || Byte.eqb sg x2d) eqn:Es.
      * destruct t4 as [|d t5]; [discriminate|].
        destruct (isDigit d) eqn:Ed; [|discriminate].
        destruct (takeDigits (d :: t5)) as [ds l5] eqn:Et.
        injection H as <- <-.
        destruct (takeDigits_local _ _ _ Et) as (pre & E & Hh & Hl).
        destruct (takeDigits_some d t5 pre l5 Ed E Hh) as (p & ->).
        exists (e :: sg :: d :: p). split; [cbn [app] in *; now rewrite E|].
        intros r' Hr. cbn [app]. rewrite Ee, Es, Ed.
        change (d :: p ++ r')%list with ((d :: p) ++ r')%list.
        now rewrite (Hl r' Hr).
      * destruct (isDigit sg) eqn:Ed; [|discriminate].
        destruct (takeDigits (sg :: t4)) as [ds l5] eqn:Et.
        injection H as <- <-.
        destruct (takeDigits_local _ _ _ Et) as (pre & E & Hh & Hl).
        destruct (takeDigits_some sg t4 pre l5 Ed E Hh) as (p & ->).
        exists (e :: sg :: p). split; [cbn [app] in *; now rewrite E|].
        intros r' Hr. cbn [app]. rewrite Ee, Es, Ed.
        change (sg :: p ++ r')%list with ((sg :: p) ++ r')%list.
        now rewrite (Hl r' Hr).
    + injection H as <- <-. exists []. split; [reflexivity|].
      intros r' [->|(c & t & t' & E & ->)]; [reflexivity|].
      injection E as <- <-. cbn [app]. now rewrite Ee.
Qed.

Lemma scanNumber_local (l : list byte) (s : string) (rest : list byte) :
  scanNumber l = inl (s, rest) ->
  exists pre, l = (pre ++ rest)%list /\ pre <> []
    /\ forall r', sameHead rest r' -> scanNumber (pre ++ r') = inl (s, r').
Proof.
  rewrite scanNumber_parts. intro H.
  assert (Hbody : forall sign c t,
             (if negb (isDigit c)
              then inr (errInvalidChar c "in numeric literal")
              else
                let (int, l2) := scanInteger c t in
                match scanFraction l2 with
                | inr err => inr err
                | inl (fr, l3) => scanExponent (sign ++ int ++ fr) l3
                end) = inl (s, rest) ->
             isDigit c = true
             /\ exists p, t = (p ++ rest)%list
                 /\ forall r', sameHead rest r' ->
                      (let (int, l2) := scanInteger c (p ++ r') in
                       match scanFraction l2 with
                       | inr err => inr err
                       | inl (fr, l3) => scanExponent (sign ++ int ++ fr) l3
                       end) = inl (s, r')).
  { intros sign c t Hb. destruct (isDigit c) eqn:Ec; [|discriminate].
    split; [reflexivity|]. cbn [negb] in Hb.
    destruct (scanInteger c t) as [int l2] eqn:Ei.
    destruct (scanFraction l2) as [[fr l3]|] eqn:Ef; [|discriminate].
    destruct (scanInteger_local _ _ _ _ Ec Ei) as (p1 & -> & H1).
    destruct (scanFraction_local _ _ _ Ef) as (p2 & -> & H2).
    destruct (scanExponent_local _ _ _ _ Hb) as (p3 & -> & H3).
    exists (p1 ++ p2 ++ p3)%list. split; [now rewrite <- !app_assoc|].
    intros r' Hr. rewrite <- !app_assoc.
    rewrite (H1 (p2 ++ p3 ++ r')%list)
      by (apply sameHead_app, sameHead_app, Hr).
    rewrite (H2 (p3 ++ r')%list) by (apply sameHead_app, Hr).
    now apply H3. }
  destruct l as [|c0 t0]; [discriminate|].
  destruct (Byte.eqb c0 x2d) eqn:Em.
  - destruct t0 as [|c t]; [discriminate|].
    destruct (Hbody _ _ _ H) as (Hc & p & -> & Hl).
    exists (c0 :: c :: p). split; [reflexivity|]. split; [discriminate|].
    intros r' Hr. rewrite scanNumber_parts. cbn [app]. rewrite Em, Hc.
    cbn [negb]. now apply Hl.
  - destruct (Hbody _ _ _ H) as (Hc & p & -> & Hl).
    exists (c0 :: p). split; [reflexivity|]. split; [discriminate|].
    intros r' Hr. rewrite scanNumber_parts. cbn [app]. rewrite Em, Hc.
    cbn [negb]. now apply Hl.
Qed.

Lemma parseValue_step (fuel' : nat) (l : list byte) :
  parseValue (Datatypes.S fuel') l
  = match skipSpace l with
    | [] => inr errUnexpectedEnd
    | c :: t =>
        if Byte.eqb c x7b then
          match skipSpace t with
          | [] => inr errUnexpectedEnd
          | c2 :: t2 =>
              if Byte.eqb c2 x7d then inl (JObject [], t2)
              else match parseMembers fuel' (c2 :: t2) with
                   | inl (ms, rest) => inl (JObject ms, rest)
                   | inr err => inr err
                   end
          end
        else if Byte.eqb c x5b then
          match skipSpace t with
          | [] => inr errUnexpectedEnd
          | c2 :: t2 =>
              if Byte.eqb c2 x5d then inl (JArray [], t2)
              else match parseElements fuel' (c2 :: t2) with
                   | inl (vs, rest) => inl (JArray vs, rest)
                   | inr err => inr err
                   end
          end
        else if Byte.eqb c x22 then
          match scanString (Datatypes.S (List.length t)) t with
          | inl (s, rest) => inl (JString s, rest)
          | inr err => inr err
          end
        else if Byte.eqb c x74 then
          match scanLiteral "true" "rue" t with
          | inl rest => inl (JBool true, rest)
          | inr err => inr err
          end
        else if Byte.eqb c x66 then
          match scanLiteral "false" "alse" t with
          | inl rest => inl (JBool false, rest)
          | inr err => inr err
          end
        else if Byte.eqb c x6e then
          match scanLiteral "null" "ull" t with
          | inl rest => inl (JNull, rest)
          | inr err => inr err
          end
        else if Byte.eqb c x2d || isDigit c then
          match scanNumber (c :: t) with
          | inl (s, rest) => inl (JNumber s, rest)
          | inr err => inr err
          end
        else inr (errInvalidChar c "looking for beginning of value")
    end.
Proof.
  cbn [parseValue]. destruct (skipSpace l) as [|c t]; [reflexivity|].
  destruct c; reflexivity.
Qed.

Lemma skipSpace_cons (l : list byte) (c : byte) (t : list byte) :
  skipSpace l = c :: t ->
  exists ws, l = (ws ++ c :: t)%list
    /\ forall x, skipSpace (ws ++ c :: x) = c :: x.
Proof.
  intro E. destruct (skipSpace_local l) as (ws & El & H). rewrite E in *.
  exists ws. split; [exact El|]. intro x. apply H, sameHead_cons.
Qed.

Lemma firstn_consumed (p r : list byte) :
  firstn (List.length (p ++ r) - List.length r) (p ++ r) = p.
Proof.
  rewrite length_app.
  replace (List.length p + List.length r - List.length r)%nat
    with (List.length p + 0)%nat by lia.
  rewrite firstn_app_2. cbn. apply app_nil_r.
Qed.

(** Lists in right-nested form. *)
Ltac norm := repeat progress (rewrite <- ?app_assoc; cbn [app]).

Ltac lens :=
  repeat progress (rewrite ?length_app in *; cbn [List.length] in * );
  lia.

Ltac nonnil :=
  let E := fresh in
  intro E; apply app_eq_nil in E as [_ E]; discriminate E.

Lemma parse_local (f : nat) :
  (forall l v rest, parseValue f l = inl (v, rest) ->
     exists pre, l = (pre ++ rest)%list /\ pre <> [] /\ rawKept v
       /\ forall r' f', sameHead rest r' -> (List.length pre < f')%nat ->
            parseValue f' (pre ++ r') = inl (v, r'))
  /\ (forall l vs rest, parseElements f l = inl (vs, rest) ->
        exists pre, l = (pre ++ rest)%list /\ pre <> []
          /\ Forall rawKept vs
          /\ forall r' f', (List.length pre < f')%nat ->
               parseElements f' (pre ++ r') = inl (vs, r'))
  /\ (forall l ms rest, parseMembers f l = inl (ms, rest) ->
        exists pre, l = (pre ++ rest)%list /\ pre <> []
          /\ Forall (fun m => parseJSON (fst (snd m)) = inl (snd (snd m))
                              /\ rawKept (snd (snd m))) ms
          /\ forall r' f', (List.length pre < f')%nat ->
               parseMembers f' (pre ++ r') = inl (ms, r')).
Proof.
  induction f as [|f (IHV & IHE & IHM)];
    [repeat split; intros; discriminate|].
  split; [|split].
  - intros l v rest H. rewrite parseValue_step in H.
    destruct (skipSpace l) as [|c t] eqn:Esk; [discriminate|].
    destruct (skipSpace_cons _ _ _ Esk) as (ws & -> & Hws). clear Esk.
    destruct (Byte.eqb c x7b) eqn:E1.
    { destruct (skipSpace t) as [|c2 t2] eqn:Esk2; [discriminate|].
      destruct (skipSpace_cons _ _ _ Esk2) as (ws2 & -> & Hws2). clear Esk2.
      destruct (Byte.eqb c2 x7d) eqn:E2.
      - injection H as <- <-. exists (ws ++ c :: ws2 ++ [c2])%list.
        split; [now norm|]. split; [nonnil|].
        split; [constructor; constructor|].
        intros r' f' Hr Hf. destruct f' as [|f'']; [lens|].
        rewrite parseValue_step. norm. now rewrite Hws, E1, Hws2, E2.
      - destruct (parseMembers f (c2 :: t2)) as [[ms rest']|] eqn:Em;
          [|discriminate]. injection H as <- <-.
        destruct (IHM _ _ _ Em) as (pM & EpM & HneM & HkM & HlM).
        destruct pM as [|x pM']; [contradiction|].
        cbn [app] in EpM. injection EpM as <- ->.
        exists (ws ++ c :: ws2 ++ c2 :: pM')%list.
        split; [now norm|]. split; [nonnil|].
        split; [now constructor|].
        intros r' f' Hr Hf. destruct f' as [|f'']; [lens|].
        rewrite parseValue_step. norm. rewrite Hws, E1, Hws2, E2.
        change (c2 :: pM' ++ r')%list with ((c2 :: pM') ++ r')%list.
        rewrite HlM by lens. reflexivity. }
    destruct (Byte.eqb c x5b) eqn:E3.
    { destruct (skipSpace t) as [|c2 t2] eqn:Esk2; [discriminate|].
      destruct (skipSpace_cons _ _ _ Esk2) as (ws2 & -> & Hws2). clear Esk2.
      destruct (Byte.eqb c2 x5d) eqn:E2.
      - injection H as <- <-. exists (ws ++ c :: ws2 ++ [c2])%list.
        split; [now norm|]. split; [nonnil|].
        split; [constructor; constructor|].
        intros r' f' Hr Hf. destruct f' as [|f'']; [lens|].
        rewrite parseValue_step. norm. now rewrite Hws, E1, E3, Hws2, E2.
      - destruct (parseElements f (c2 :: t2)) as [[vs rest']|] eqn:Em;
          [|discriminate]. injection H as <- <-.
        destruct (IHE _ _ _ Em) as (pE & EpE & HneE & HkE & HlE).
        destruct pE as [|x pE']; [contradiction|].
        cbn [app] in EpE. injection EpE as <- ->.
        exists (ws ++ c :: ws2 ++ c2 :: pE')%list.
        split; [now norm|]. split; [nonnil|].
        split; [now constructor|].
        intros r' f' Hr Hf. destruct f' as [|f'']; [lens|].
        rewrite parseValue_step. norm. rewrite Hws, E1, E3, Hws2, E2.
        change (c2 :: pE' ++ r')%list with ((c2 :: pE') ++ r')%list.
        rewrite HlE by lens. reflexivity. }
    destruct (Byte.eqb c x22) eqn:E4.
    { destruct (scanString _ t) as [[s rest']|] eqn:Es; [|discriminate].
      injection H as <- <-.
      destruct (scanString_local _ _ _ _ Es) as (pS & -> & _ & _ & HlS).
      exists (ws ++ c :: pS)%list.
      split; [now norm|]. split; [nonnil|]. split; [constructor|].
      intros r' f' Hr Hf. destruct f' as [|f'']; [lens|].
      rewrite parseValue_step. norm. rewrite Hws, E1, E3, E4.
      rewrite HlS by lens. reflexivity. }
    assert (Hlit : forall word expect v0,
               match scanLiteral word expect t with
               | inl rest => inl (v0, rest)
               | inr err => inr err
               end = inl (v, rest) ->
               v = v0 /\ exists pL, t = (pL ++ rest)%list
                 /\ forall r', scanLiteral word expect (pL ++ r') = inl r').
    { intros word expect v0 Hs.
      destruct (scanLiteral word expect t) as [rest'|] eqn:El;
        [|discriminate]. injection Hs as <- <-. split; [reflexivity|].
      exact (scanLiteral_local _ _ _ _ El). }
    destruct (Byte.eqb c x74) eqn:E5.
    { destruct (Hlit _ _ _ H) as (-> & pL & -> & HlL).
      exists (ws ++ c :: pL)%list.
      split; [now norm|]. split; [nonnil|]. split; [constructor|].
      intros r' f' Hr Hf. destruct f' as [|f'']; [lens|].
      rewrite parseValue_step. norm. now rewrite Hws, E1, E3, E4, E5, HlL. }
    destruct (Byte.eqb c x66) eqn:E6.
    { destruct (Hlit _ _ _ H) as (-> & pL & -> & HlL).
      exists (ws ++ c :: pL)%list.
      split; [now norm|]. split; [nonnil|]. split; [constructor|].
      intros r' f' Hr Hf. destruct f' as [|f'']; [lens|].
      rewrite parseValue_step. norm.
      now rewrite Hws, E1, E3, E4, E5, E6, HlL. }
    destruct (Byte.eqb c x6e) eqn:E7.
    { destruct (Hlit _ _ _ H) as (-> & pL & -> & HlL).
      exists (ws ++ c :: pL)%list.
      split; [now norm|]. split; [nonnil|]. split; [constructor|].
      intros r' f' Hr Hf. destruct f' as [|f'']; [lens|].
      rewrite parseValue_step. norm.
      now rewrite Hws, E1, E3, E4, E5, E6, E7, HlL. }
    destruct (Byte.eqb c x2d || isDigit c) eqn:E8; [|discriminate].
    destruct (scanNumber (c :: t)) as [[s rest']|] eqn:En; [|discriminate].
    injection H as <- <-.
    destruct (scanNumber_local _ _ _ En) as (pN & EpN & HneN & HlN).
    destruct pN as [|x pN']; [contradiction|].
    cbn [app] in EpN. injection EpN as <- ->.
    exists (ws ++ c :: pN')%list.
    split; [now norm|]. split; [nonnil|]. split; [constructor|].
    intros r' f' Hr Hf. destruct f' as [|f'']; [lens|].
    rewrite parseValue_step. norm. rewrite Hws, E1, E3, E4, E5, E6, E7, E8.
    change (c :: pN' ++ r')%list with ((c :: pN') ++ r')%list.
    now rewrite (HlN r' Hr).
  - intros l vs rest H. cbn [parseElements] in H.
    destruct (parseValue f l) as [[v rest1]|] eqn:Ev; [|discriminate].
    destruct (IHV _ _ _ Ev) as (pV & -> & HneV & HkV & HlV).
    destruct (skipSpace rest1) as [|c t] eqn:Esk; [discriminate|].
    destruct (skipSpace_cons _ _ _ Esk) as (ws & -> & Hws). clear Esk.
    destruct (Byte.eqb c x2c) eqn:E1.
    + destruct (parseElements f t) as [[vs' rest']|] eqn:Ee; [|discriminate].
      injection H as <- <-.
      destruct (IHE _ _ _ Ee) as (pE & -> & HneE & HkE & HlE).
      exists (pV ++ ws ++ c :: pE)%list.
      split; [now norm|].
      split; [intro E; apply app_eq_nil in E as [E _]; contradiction|].
      split; [now constructor|].
      intros r' f' Hf. destruct f' as [|f'']; [lens|].
      cbn [parseElements]. norm.
      rewrite (HlV (ws ++ c :: pE ++ r')%list f'')
        by first [apply sameHead_app, sameHead_cons | lens].
      rewrite Hws, E1. rewrite HlE by lens. reflexivity.
    + destruct (Byte.eqb c x5d) eqn:E2; [|discriminate].
      injection H as <- <-.
      exists (pV ++ ws ++ [c])%list.
      split; [now norm|].
      split; [intro E; apply app_eq_nil in E as [E _]; contradiction|].
      split; [constructor; [assumption | constructor]|].
      intros r' f' Hf. destruct f' as [|f'']; [lens|].
      cbn [parseElements]. norm.
      rewrite (HlV (ws ++ c :: r')%list f'')
        by first [apply sameHead_app, sameHead_cons | lens].
      now rewrite Hws, E1, E2.
  - intros l ms rest H. cbn [parseMembers] in H.
    destruct (skipSpace l) as [|q t] eqn:Esk0; [discriminate|].
    destruct (skipSpace_cons _ _ _ Esk0) as (ws0 & -> & Hws0). clear Esk0.
    destruct (Byte.eqb q x22) eqn:Eq; [|discriminate]. cbn [negb] in H.
    destruct (scanString _ t) as [[key rest1]|] eqn:Es; [|discriminate].
    destruct (scanString_local _ _ _ _ Es) as (pK & -> & _ & _ & HlK).
    clear Es.
    destruct (skipSpace rest1) as [|c t2] eqn:Esk1; [discriminate|].
    destruct (skipSpace_cons _ _ _ Esk1) as (ws1 & -> & Hws1). clear Esk1.
    destruct (Byte.eqb c x3a) eqn:Ec; [|discriminate]. cbn [negb] in H.
    destruct (parseValue f (skipSpace t2)) as [[v rest2]|] eqn:Ev;
      [|discriminate].
    destruct (IHV _ _ _ Ev) as (pV & EpV & HneV & HkV & HlV).
    destruct pV as [|x pV']; [contradiction|].
    destruct (skipSpace_local t2) as (ws2 & Et2 & Hws2).
    rewrite EpV in Et2, Hws2, H. rewrite firstn_consumed in H.
    assert (Hraw : parseJSON (x :: pV') = inl v).
    { unfold parseJSON.
      pose proof (HlV [] (Datatypes.S (List.length (x :: pV')))
                    (sameHead_nil _) (Nat.lt_succ_diag_r _)) as Hp.
      rewrite app_nil_r in Hp. now rewrite Hp. }
    destruct (skipSpace rest2) as [|c3 t3] eqn:Esk3; [discriminate|].
    destruct (skipSpace_cons _ _ _ Esk3) as (ws3 & -> & Hws3). clear Esk3.
    assert (Hgo : forall tail f'',
               (List.length (x :: pV') < f'')%nat ->
               parseMembers (Datatypes.S f'')
                 (ws0 ++ q :: pK ++ ws1 ++ c :: ws2 ++ x :: pV'
                  ++ ws3 ++ c3 :: tail)
               = if Byte.eqb c3 x2c then
                   match parseMembers f'' tail with
                   | inl (ms, rest3) =>
                       inl ((key, (x :: pV', v)) :: ms, rest3)
                   | inr err => inr err
                   end
                 else if Byte.eqb c3 x7d then
                   inl ([(key, (x :: pV', v))], tail)
                 else
                   inr (errInvalidChar c3 "after object key:value pair")).
    { intros tail f'' Hf. cbn [parseMembers].
      rewrite Hws0, Eq. cbn [negb]. rewrite HlK by lens.
      rewrite Hws1, Ec. cbn [negb].
      rewrite (Hws2 (x :: pV' ++ ws3 ++ c3 :: tail)%list)
        by apply sameHead_cons.
      change (x :: pV' ++ ws3 ++ c3 :: tail)%list
        with ((x :: pV') ++ ws3 ++ c3 :: tail)%list.
      rewrite (HlV (ws3 ++ c3 :: tail)%list f'')
        by first [apply sameHead_app, sameHead_cons | lens].
      rewrite firstn_consumed, Hws3. reflexivity. }
    destruct (Byte.eqb c3 x2c) eqn:E1.
    + destruct (parseMembers f t3) as [[ms' rest3]|] eqn:Em; [|discriminate].
      injection H as <- <-.
      destruct (IHM _ _ _ Em) as (pM & -> & HneM & HkM & HlM).
      exists (ws0 ++ q :: pK ++ ws1 ++ c :: ws2 ++ x :: pV'
              ++ ws3 ++ c3 :: pM)%list.
      split; [rewrite Et2; now norm|]. split; [nonnil|].
      split; [constructor; [now split | assumption]|].
      intros r' f' Hf. destruct f' as [|f'']; [lens|].
      norm. rewrite Hgo by lens. rewrite HlM by lens. reflexivity.
    + destruct (Byte.eqb c3 x7d) eqn:E2; [|discriminate].
      injection H as <- <-.
      exists (ws0 ++ q :: pK ++ ws1 ++ c :: ws2 ++ x :: pV'
              ++ ws3 ++ [c3])%list.
      split; [rewrite Et2; now norm|]. split; [nonnil|].
      split; [constructor; [now split | constructor]|].
      intros r' f' Hf. destruct f' as [|f'']; [lens|].
      norm. now rewrite Hgo by lens.
Qed.

Lemma parseJSON_rawKept (data : list byte) (v : json) :
  parseJSON data = inl v -> rawKept v.
Proof.
  unfold parseJSON.
  destruct (parseValue _ data) as [[v' rest]|] eqn:E; [|discriminate].
  destruct (proj1 (parse_local _) _ _ _ E) as (_ & _ & _ & Hk & _).
  destruct (skipSpace rest); [|discriminate]. intro H. now injection H as <-.
Qed.

Lemma findField_in {T} (fields : list (field T)) (k : string) (f : field T) :
  findField fields k = Some f -> In f fields.
Proof.
  unfold findField. intro Ef.
  destruct (find (fun f0 => String.eqb (name f0) k) fields) eqn:E1.
  - injection Ef as <-. now apply find_some in E1.
  - now apply find_some in Ef.
Qed.

(** A property of the value and the saved error that every field's store
    step keeps, for members whose raw text parses to their value, is kept
    by the decoding of all members. *)
Lemma storeMembers_kept {T} (P : T -> option error -> Prop)
    (fields : list (field T)) :
  (forall f raw v t s t' s',
     In f fields -> parseJSON raw = inl v -> rawKept v -> P t s ->
     store f raw v t s = inl (t', s') -> P t' s') ->
  forall ms t s t' s',
    Forall (fun m => parseJSON (fst (snd m)) = inl (snd (snd m))
                     /\ rawKept (snd (snd m))) ms ->
    P t s -> storeMembers fields ms t s = inl (t', s') -> P t' s'.
Proof.
  intros Hstep ms. induction ms as [|[k [raw v]] ms IH];
    intros t s t' s' Hms Ht H.
  - cbn [storeMembers] in H. now injection H as <- <-.
  - inversion Hms as [|? ? [Hraw Hv] Hms']; subst. cbn [fst snd] in *.
    cbn [storeMembers] in H.
    destruct (findField fields k) as [f|] eqn:Ef;
      [|exact (IH t s t' s' Hms' Ht H)].
    destruct (store f raw v t s) as [[t1 s1]|err] eqn:Es; [|discriminate].
    apply (IH t1 s1 t' s' Hms'); [|exact H].
    exact (Hstep f raw v t s t1 s1 (findField_in _ _ _ Ef) Hraw Hv Ht Es).
Qed.

Lemma storeStruct_kept {T} (P : T -> option error -> Prop) (pl : place)
    (fields : list (field T)) :
  (forall f raw v t s t' s',
     In f fields -> parseJSON raw = inl v -> rawKept v -> P t s ->
     store f raw v t s = inl (t', s') -> P t' s') ->
  (forall t s e, P t s -> P t (saveError e s)) ->
  forall v t s t' s',
    rawKept v -> P t s -> storeStruct pl fields v t s = inl (t', s') ->
    P t' s'.
Proof.
  intros Hstep Hsave v t s t' s' Hv Ht H.
  destruct v; cbn [storeStruct] in H;
    try (injection H as <- <-; first [exact Ht | now apply Hsave]).
  inversion Hv as [| | | | |? Hms]; subst.
  exact (storeMembers_kept P fields Hstep _ _ _ _ _ Hms Ht H).
Qed.

Lemma storeElems_kept {E} (P : E -> Prop) (elem : json -> dec E) (zero : E) :
  P zero ->
  (forall v e s e' s', rawKept v -> P e -> elem v e s = inl (e', s') -> P e') ->
  forall vs old s es s',
    Forall rawKept vs -> Forall P old ->
    storeElems elem zero vs old s = inl (es, s') -> Forall P es.
Proof.
  intros Hzero Hstep vs. induction vs as [|v vs IH];
    intros old s es s' Hvs Hold H; cbn [storeElems] in H.
  - injection H as <- <-. constructor.
  - inversion Hvs as [|? ? Hv Hvs']; subst.
    destruct old as [|e0 old'].
    + destruct (elem v zero s) as [[e1 s1]|err] eqn:E1; [|discriminate].
      destruct (storeElems elem zero vs [] s1) as [[es' s2]|err] eqn:E2;
        [|discriminate].
      injection H as <- <-. constructor.
      * exact (Hstep _ _ _ _ _ Hv Hzero E1).
      * exact (IH _ _ _ _ Hvs' Hold E2).
    + inversion Hold as [|? ? He0 Hold']; subst.
      destruct (elem v e0 s) as [[e1 s1]|err] eqn:E1; [|discriminate].
      destruct (storeElems elem zero vs old' s1) as [[es' s2]|err] eqn:E2;
        [|discriminate].
      injection H as <- <-. constructor.
      * exact (Hstep _ _ _ _ _ Hv He0 E1).
      * exact (IH _ _ _ _ Hvs' Hold' E2).
Qed.

Lemma searchResult_keeps_data (f : field SearchResult) (raw : list byte)
    (v : json) (r : SearchResult) (s : option error) (r' : SearchResult)
    (s' : option error) :
  In f searchResultFields -> parseJSON raw = inl v -> rawKept v ->
  dataParses r -> store f raw v r s = inl (r', s') -> dataParses r'.
Proof.
  intros Hin Hraw _ Hr Hs. cbn [searchResultFields In] in Hin.
  destruct Hin as [<-|[<-|[]]]; cbn [store] in Hs.
  - destruct (storeStruct _ searchResultHeaderFields v (ResultHeader r) s)
      as [[h1 s1]|err] eqn:E; [|discriminate].
    injection Hs as <- <-. exact Hr.
  - injection Hs as <- <-. right. now exists v.
Qed.

Lemma searchResponse_keeps_data (f : field SearchResponse) (raw : list byte)
    (v : json) (r : SearchResponse) (s : option error)
    (r' : SearchResponse) (s' : option error) :
  In f searchResponseFields -> parseJSON raw = inl v -> rawKept v ->
  Forall dataParses (Results r) ->
  store f raw v r s = inl (r', s') -> Forall dataParses (Results r').
Proof.
  intros Hin _ Hv Hrs Hs. cbn [searchResponseFields In] in Hin.
  destruct Hin as [<-|[<-|[]]]; cbn [store] in Hs.
  - destruct (storeStruct _ searchHeaderFields v (Header r) s)
      as [[h1 s1]|err] eqn:E; [|discriminate].
    injection Hs as <- <-. exact Hrs.
  - destruct v as [|bv|lit|sv|elems|mems]; cbn [storeSlice] in Hs;
      try (injection Hs as <- <-; assumption).
    + injection Hs as <- <-. constructor.
    + destruct (storeElems _ zeroSearchResult elems (Results r) s)
        as [[es s1]|err] eqn:E; [|discriminate].
      injection Hs as <- <-. cbn [Results].
      inversion Hv as [| | | |? Hvs|]; subst.
      refine (storeElems_kept dataParses _ zeroSearchResult _ _ _ _ _ _ _
                Hvs Hrs E).
      * now left.
      * intros v0 e0 s0 e' s0' Hv0 He Hst.
        exact (storeStruct_kept (fun x _ => dataParses x) _ _
                 searchResult_keeps_data (fun _ _ _ H => H)
                 _ _ _ _ _ Hv0 He Hst).
Qed.

Lemma results_data_parses (data : list byte) (sr : SearchResponse) :
  UnmarshalSearchResponse data = inl sr -> Forall dataParses (Results sr).
Proof.
  unfold UnmarshalSearchResponse, unmarshalStruct.
  destruct (parseJSON data) as [v|err] eqn:Ep; [|discriminate].
  destruct (storeStruct _ searchResponseFields v zeroSearchResponse None)
    as [[t' [e|]]|err] eqn:E; try discriminate.
  intro H. injection H as <-.
  refine (storeStruct_kept (fun x _ => Forall dataParses (Results x)) _ _
            searchResponse_keeps_data (fun _ _ _ H => H)
            _ _ _ _ _ (parseJSON_rawKept _ _ Ep) _ E).
  constructor.
Qed.

Lemma typeErrorOnly_save (x : string) (pl : place) (s : option error) :
  typeErrorOnly s -> typeErrorOnly (saveError (typeError x pl) s).
Proof.
  intros [->|(a & b & c & d & ->)]; right; cbn; eauto.
  unfold typeError. eauto.
Qed.

Lemma storeString_typed {T} (pl : place) (set : string -> T -> T) (v : json)
    (t : T) (s : option error) :
  typeErrorOnly s ->
  exists t' s', storeString pl set v t s = inl (t', s') /\ typeErrorOnly s'.
Proof.
  intro Hs. destruct v; cbn [storeString]; eauto using typeErrorOnly_save.
Qed.

Lemma storeInt_typed {T} (pl : place) (set : Z -> T -> T) (v : json)
    (t : T) (s : option error) :
  typeErrorOnly s ->
  exists t' s',
    storeNumber pl (storeIntLit pl set) v t s = inl (t', s')
    /\ typeErrorOnly s'.
Proof.
  intro Hs. destruct v; cbn [storeNumber]; eauto using typeErrorOnly_save.
  unfold storeIntLit. destruct (ParseInt lit); eauto using typeErrorOnly_save.
Qed.

Lemma storeStrings_typed (pl : place) (vs : list json) :
  forall old s, typeErrorOnly s ->
  exists es s',
    storeElems (storeString pl (fun x _ => x)) EmptyString vs old s
    = inl (es, s')
    /\ typeErrorOnly s'.
Proof.
  induction vs as [|v vs IH]; intros old s Hs; cbn [storeElems]; eauto.
  destruct old as [|e0 old'].
  - destruct (storeString_typed pl (fun x _ => x) v EmptyString s Hs)
      as (e1 & s1 & -> & Hs1).
    destruct (IH [] s1 Hs1) as (es & s2 & -> & Hs2). eauto.
  - destruct (storeString_typed pl (fun x _ => x) v e0 s Hs)
      as (e1 & s1 & -> & Hs1).
    destruct (IH old' s1 Hs1) as (es & s2 & -> & Hs2). eauto.
Qed.

Lemma danbooru_store_typed (f : field DanbooruData) (raw : list byte)
    (v : json) (d : DanbooruData) (s : option error) :
  In f danbooruDataFields -> typeErrorOnly s ->
  exists d' s', store f raw v d s = inl (d', s') /\ typeErrorOnly s'.
Proof.
  intros Hin Hs. cbn [danbooruDataFields In] in Hin.
  destruct Hin as [<-|[<-|[<-|[<-|[<-|[<-|[]]]]]]];
    cbn [store plainInt plainString];
    try (now apply storeString_typed); try (now apply storeInt_typed).
  destruct v; cbn [storeSlice]; eauto using typeErrorOnly_save.
  destruct (storeStrings_typed (mkPlace "DanbooruData" "ext_urls" "string")
              elems (ExtURLs (Common d)) s Hs) as (es & s' & -> & Hs').
  eauto.
Qed.

Lemma danbooru_members_typed (ms : list member) :
  forall d s, typeErrorOnly s ->
  exists d' s',
    storeMembers danbooruDataFields ms d s = inl (d', s')
    /\ typeErrorOnly s'.
Proof.
  induction ms as [|[k [raw v]] ms IH]; intros d s Hs; cbn [storeMembers];
    eauto.
  destruct (findField danbooruDataFields k) as [f|] eqn:Ef; [|now apply IH].
  destruct (danbooru_store_typed f raw v d s (findField_in _ _ _ Ef) Hs)
    as (d1 & s1 & -> & Hs1).
  now apply IH.
Qed.

Lemma AsDanbooru_typed (r : SearchResult) (v : json) (e : error) :
  parseJSON (Data r) = inl v -> AsDanbooru r = Fail e ->
  exists value st fld ty,
    Unwrap e = Some (UnmarshalTypeError value st fld ty).
Proof.
  unfold AsDanbooru, UnmarshalDanbooruData, unmarshalStruct.
  intros -> H.
  assert (Hs : exists d' s',
             storeStruct (mkPlace EmptyString EmptyString
                            "saucenao.DanbooruData")
               danbooruDataFields v zeroDanbooruData None = inl (d', s')
             /\ typeErrorOnly s').
  { destruct v; cbn [storeStruct];
      try (eexists _, _; split;
           [reflexivity | apply typeErrorOnly_save; now left]).
    - eexists _, _. split; [reflexivity | now left].
    - apply danbooru_members_typed. now left. }
  destruct Hs as (d' & s' & Es & [->|(a & b & c & d & ->)]);
    rewrite Es in H; [discriminate|].
  injection H as <-. cbn. eauto.
Qed.

(** X13: [Search] and [AsDanbooru] fit together.  The data of a result
    in a response that decoded is, when there is any, a JSON text of its
    own, so [AsDanbooru] fails on it only with an [UnmarshalTypeError],
    for a value of the wrong type, never with a syntax error; a result
    without data gives the error of an empty input. *)
Theorem decoded_data_is_json (data : list byte) (sr : SearchResponse)
    (r : SearchResult) :
  UnmarshalSearchResponse data = inl sr -> In r (Results sr) ->
  (Data r = [] ->
   AsDanbooru r
   = Fail (Errorf_w "search result as danbooru: " errUnexpectedEnd))
  /\ (Data r <> [] ->
      (exists v, parseJSON (Data r) = inl v)
      /\ forall e, AsDanbooru r = Fail e ->
           exists value st fld ty,
             Unwrap e = Some (UnmarshalTypeError value st fld ty)).
Proof.
  intros Hu Hin. split.
  - intro E. unfold AsDanbooru. now rewrite E.
  - intro Hne.
    pose proof (proj1 (Forall_forall _ _) (results_data_parses _ _ Hu) r Hin)
      as [E|(v & Hv)]; [contradiction|].
    split; [now exists v|]. intros e He. exact (AsDanbooru_typed r v e Hv He).
Qed.

Lemma decoded_data_is_json_witness :
  (Data mistypedResult = [] ->
   AsDanbooru mistypedResult
   = Fail (Errorf_w "search result as danbooru: " errUnexpectedEnd))
  /\ (Data mistypedResult <> [] ->
      (exists v, parseJSON (Data mistypedResult) = inl v)
      /\ forall e, AsDanbooru mistypedResult = Fail e ->
           exists value st fld ty,
             Unwrap e = Some (UnmarshalTypeError value st fld ty)).
Proof.
  apply (decoded_data_is_json mistypedBody
           (mkSearchResponse zeroSearchHeader [mistypedResult])).
  - vm_compute. reflexivity.
  - left. reflexivity.
Defined.
